(** * SchedulerV3: the timetable builder of [src/app/page.tsx]

    A shallow embedding of [buildSchedule] and its helper [canAssignTeacher],
    together with the properties the specification states about them.

    - The JavaScript objects [newSchedule], [newSchedule[cls]] and
      [newSchedule[cls][day]] are finite maps from property names to values.
      Each nested object is held by one property only, so maps of maps have
      the sharing the objects have. Names of classes, days and subjects are
      taken to be ordinary property names.
    - The code mutates the objects in place and raises a [TypeError] when it
      reads a property of [undefined] or iterates [undefined], so the
      program is written in a state-and-exception monad over a store that
      holds the object graph and the state of the random source.
    - The catalog constants [DAYS], [SUBJECTS], [TEACHERS] and [CLASSES] are
      the fields of a record the program is parameterised by; [builtin] is
      the catalog of the source.
    - The store also keeps a history of the run (every object graph the run
      goes through, every rotation it draws). The program never reads it;
      the properties about intermediate states and rotations are stated on
      it.
    - The [while] loop takes fuel; [buildSchedule] gives it the length of the
      rotation, and every property below includes that the fuel suffices.
    - The component around [buildSchedule] is modelled as well: its three
      state cells with the click handler and the timer callback of
      [generateSchedule], and the schedule display, which may raise like
      any other read of the object graph. *)

From stdpp Require Import base option list strings gmap.

(** ** Types (page.tsx, lines 8-27) *)

Definition Subject := string.
Definition Teacher := string.
Definition ClassName := string.
Definition Day := string.

(** An element of [PERIODS]: a number or one of the two break names. The
    same values are the property keys of a [DaySchedule]. *)
Inductive Period : Type :=
  | Num (n : nat)
  | Recess
  | Lunch.

Record ScheduleSlot : Type := mkSlot { subject : Subject; teacher : Teacher }.

(** [ScheduleSlot | 'Recess' | 'Lunch' | 'Free'] *)
Inductive SlotValue : Type :=
  | Assigned (slot : ScheduleSlot)
  | RecessMark
  | LunchMark
  | FreeMark.

#[global] Instance Period_eq_dec : EqDecision Period.
Proof. solve_decision. Defined.

#[global] Instance Period_countable : Countable Period.
Proof.
  refine (inj_countable'
    (λ p, match p with Num n => inl n | Recess => inr true | Lunch => inr false end)
    (λ x, match x with inl n => Num n | inr true => Recess | inr false => Lunch end) _).
  by intros [].
Defined.

#[global] Instance ScheduleSlot_eq_dec : EqDecision ScheduleSlot.
Proof. solve_decision. Defined.

#[global] Instance SlotValue_eq_dec : EqDecision SlotValue.
Proof. solve_decision. Defined.

Abbreviation DaySchedule := (gmap Period SlotValue).
Abbreviation ClassSchedule := (gmap Day (gmap Period SlotValue)).
Abbreviation FullSchedule := (gmap ClassName (gmap Day (gmap Period SlotValue))).

(** [typeof slot === 'object'] for a value read from a day's schedule
    ([None] is [undefined]). *)
Definition isObject (v : option SlotValue) : bool :=
  match v with
  | Some (Assigned _) => true
  | _ => false
  end.

(** ** Constants (page.tsx, lines 30-43) *)

Record Catalog : Type := mkCatalog {
  DAYS : list Day;
  SUBJECTS : list Subject;
  TEACHERS : gmap Subject (list Teacher);
  CLASSES : list ClassName
}.

Existing Class Catalog.

Definition PERIODS : list Period :=
  [Num 1; Num 2; Recess; Num 3; Num 4; Lunch; Num 5; Num 6].

Arguments PERIODS : simpl never.

Local Open Scope string_scope.

Definition builtin : Catalog := {|
  DAYS := ["Monday"; "Tuesday"; "Wednesday"; "Thursday"; "Friday"];
  SUBJECTS := ["Math"; "Science"; "English"; "History"; "Art"; "PE"];
  TEACHERS := list_to_map [
    ("Math", ["Mr. Smith"; "Ms. Davis"]);
    ("Science", ["Dr. Jones"; "Mr. Wilson"]);
    ("English", ["Ms. Taylor"; "Mr. Brown"]);
    ("History", ["Mrs. White"; "Mr. Green"]);
    ("Art", ["Ms. Black"]);
    ("PE", ["Coach Carter"])];
  CLASSES := ["Grade 10-A"; "Grade 10-B"; "Grade 11-A"]
|}.

Local Close Scope string_scope.

(** ** The JavaScript engine: [Array.prototype.sort] with a random comparator

    [[...SUBJECTS].sort(() => Math.random() - 0.5)] calls the engine's sort
    with a comparator that ignores its arguments. Which algorithm runs is
    the engine's business and not part of this repository, so it is an
    interface here: a random-source state, and a sort that rearranges the
    array it is given (every engine's sort moves elements, it never drops or
    invents one). *)
Record Engine : Type := mkEngine {
  Rng : Type;
  sortRandom : list Subject → Rng → list Subject * Rng;
  sortRandom_perm : ∀ l r, (sortRandom l r).1 ≡ₚ l
}.

Existing Class Engine.

(** An engine to run the model on: insertion sort, with the sign of each
    [Math.random() - 0.5] read from a tape ([Lt] negative, [Gt] positive,
    [Eq] zero; an exhausted tape answers [Eq]). *)
Module InsertionEngine.

Definition draw (tape : list comparison) : comparison * list comparison :=
  match tape with
  | [] => (Eq, [])
  | c :: tape' => (c, tape')
  end.

Fixpoint insertBy (x : Subject) (sorted : list Subject) (tape : list comparison)
  : list Subject * list comparison :=
  match sorted with
  | [] => ([x], tape)
  | y :: ys =>
      let '(c, tape') := draw tape in
      match c with
      | Gt => let '(r, t) := insertBy x ys tape' in (y :: r, t)
      | _ => (x :: y :: ys, tape')
      end
  end.

Fixpoint sortBy (l : list Subject) (tape : list comparison)
  : list Subject * list comparison :=
  match l with
  | [] => ([], tape)
  | x :: xs => let '(s, t) := sortBy xs tape in insertBy x s t
  end.

Lemma insertBy_perm x sorted tape : (insertBy x sorted tape).1 ≡ₚ x :: sorted.
Proof.
  revert tape. induction sorted as [|y ys IH]; intros tape; simpl; [done|].
  destruct (draw tape) as [c tape']. destruct c; simpl; try done.
  specialize (IH tape'). destruct (insertBy x ys tape') as [r t]. simpl in *.
  rewrite IH. apply Permutation_swap.
Qed.

Lemma sortBy_perm l tape : (sortBy l tape).1 ≡ₚ l.
Proof.
  revert tape. induction l as [|x xs IH]; intros tape; simpl; [done|].
  specialize (IH tape). destruct (sortBy xs tape) as [s t]. simpl in *.
  rewrite insertBy_perm. by rewrite IH.
Qed.

Definition engine : Engine := {|
  Rng := list comparison;
  sortRandom := sortBy;
  sortRandom_perm := sortBy_perm
|}.

End InsertionEngine.

(** ** Reading the object graph *)

(** [s[c][day]] and [s[c][day][p]], [None] when a link is missing. *)
Definition dayOf (s : FullSchedule) (c : ClassName) (day : Day) : option DaySchedule :=
  cs ← s !! c; cs !! day.

Definition cell (s : FullSchedule) (c : ClassName) (day : Day) (p : Period)
  : option SlotValue :=
  ds ← dayOf s c day; ds !! p.

(** The graph after [s[cls][day][p] = v], when both links exist. *)
Definition writeCell (s : FullSchedule) (cls : ClassName) (day : Day) (p : Period)
    (v : SlotValue) : FullSchedule :=
  match s !! cls with
  | Some cs =>
      match cs !! day with
      | Some ds => <[cls := <[day := <[p := v]> ds]> cs]> s
      | None => s
      end
  | None => s
  end.

(** The first element of [l] on which [f] answers. *)
Fixpoint firstSome {A B} (f : A → option B) (l : list A) : option B :=
  match l with
  | [] => None
  | x :: xs =>
      match f x with
      | Some b => Some b
      | None => firstSome f xs
      end
  end.

(** ** Store, outcomes and the monad *)

(** What [buildSchedule] can raise: reading a property of [undefined], or
    iterating [undefined]. *)
Inductive JsError : Type :=
  | TypeError (msg : string).

Definition undefinedRead : JsError :=
  TypeError "Cannot read properties of undefined"%string.

Definition notIterable : JsError :=
  TypeError "undefined is not iterable"%string.

(** History of a run, never read by the program: the object graph after
    each of its mutations, and the rotation drawn for each (class, day). *)
Inductive Event : Type :=
  | Mutated (s : FullSchedule)
  | Shuffled (cls : ClassName) (day : Day) (dailySubjects : list Subject).

(** Membership in a list that is written out. *)
Ltac in_list := repeat first [ by apply list_elem_of_here | apply list_elem_of_further ].

Section Scheduler.

Context {E : Engine} {cat : Catalog}.

Record Store : Type := mkStore {
  newSchedule : FullSchedule;
  rng : Rng E;
  trace : list Event
}.

Inductive Outcome (A : Type) : Type :=
  | Ok (a : A) (σ : Store)
  | Throw (e : JsError) (σ : Store)
  | OutOfFuel.
Arguments Ok {A} a σ.
Arguments Throw {A} e σ.
Arguments OutOfFuel {A}.

Definition M (A : Type) : Type := Store → Outcome A.

Definition ret {A} (a : A) : M A := λ σ, Ok a σ.

Definition bind {A B} (m : M A) (k : A → M B) : M B :=
  λ σ, match m σ with
       | Ok a σ' => k a σ'
       | Throw e σ' => Throw e σ'
       | OutOfFuel => OutOfFuel
       end.

Definition throw {A} (e : JsError) : M A := λ σ, Throw e σ.

Notation "x <- m ;; k" := (bind m (λ x, k))
  (at level 100, m at next level, right associativity).
Notation "m ;;; k" := (bind m (λ _, k))
  (at level 100, right associativity).

(** [l.forEach(f)] *)
Fixpoint forEach {A} (l : list A) (f : A → M unit) : M unit :=
  match l with
  | [] => ret tt
  | x :: xs => f x ;;; forEach xs f
  end.

(** [l.forEach(f)] where [f] updates a local variable of the enclosing
    function: the variable is threaded through the iterations. *)
Fixpoint forEachWith {A S} (l : list A) (s : S) (f : S → A → M S) : M S :=
  match l with
  | [] => ret s
  | x :: xs => s' <- f s x ;; forEachWith xs s' f
  end.

(** Every mutation of the object graph goes through [mutate], which also
    records the new graph in the history. *)
Definition mutated (s' : FullSchedule) (σ : Store) : Store :=
  {| newSchedule := s'; rng := rng σ; trace := trace σ ++ [Mutated s'] |}.

Definition mutate (s' : FullSchedule) : M unit := λ σ, Ok tt (mutated s' σ).

Definition readSchedule : M FullSchedule := λ σ, Ok (newSchedule σ) σ.

(** [newSchedule[cls]], and then [[day]] of it, for a following property
    access: that access throws when the value is [undefined]. *)
Definition readClass (cls : ClassName) : M ClassSchedule :=
  s <- readSchedule ;;
  match s !! cls with
  | Some cs => ret cs
  | None => throw undefinedRead
  end.

Definition readDay (cls : ClassName) (day : Day) : M DaySchedule :=
  cs <- readClass cls ;;
  match cs !! day with
  | Some ds => ret ds
  | None => throw undefinedRead
  end.

(** [newSchedule[cls] = {}] *)
Definition initClass (cls : ClassName) : M unit :=
  s <- readSchedule ;;
  mutate (<[cls := ∅]> s).

(** [newSchedule[cls][day] = {}] *)
Definition initDay (cls : ClassName) (day : Day) : M unit :=
  cs <- readClass cls ;;
  s <- readSchedule ;;
  mutate (<[cls := <[day := ∅]> cs]> s).

(** [newSchedule[cls][day][period] = v] *)
Definition setSlot (cls : ClassName) (day : Day) (period : Period) (v : SlotValue)
  : M unit :=
  cs <- readClass cls ;;
  ds <- readDay cls day ;;
  s <- readSchedule ;;
  mutate (<[cls := <[day := <[period := v]> ds]> cs]> s).

(** [newSchedule[c][day][period]] *)
Definition getSlot (c : ClassName) (day : Day) (period : Period)
  : M (option SlotValue) :=
  ds <- readDay c day ;;
  ret (ds !! period).

(** *** Initialisation (lines 72-84) *)

Definition initPeriod (cls : ClassName) (day : Day) (period : Period) : M unit :=
  match period with
  | Recess => setSlot cls day Recess RecessMark
  | Lunch => setSlot cls day Lunch LunchMark
  | Num n => setSlot cls day (Num n) FreeMark
  end.

Definition initSchedule : M unit :=
  forEach (CLASSES cat) (λ cls,
    initClass cls ;;;
    forEach (DAYS cat) (λ day,
      initDay cls day ;;;
      forEach PERIODS (initPeriod cls day))).

(** *** [canAssignTeacher] (lines 87-96) *)

Fixpoint canAssignTeacher_from (cs : list ClassName)
    (teacher0 : Teacher) (day : Day) (period : nat) : M bool :=
  match cs with
  | [] => ret true
  | c :: rest =>
      slot <- getSlot c day (Num period) ;;
      match slot with
      | Some (Assigned sl) =>
          if bool_decide (teacher sl = teacher0) then ret false
          else canAssignTeacher_from rest teacher0 day period
      | _ => canAssignTeacher_from rest teacher0 day period
      end
  end.

Definition canAssignTeacher (teacher0 : Teacher) (day : Day) (period : nat) : M bool :=
  canAssignTeacher_from (CLASSES cat) teacher0 day period.

(** *** Assignment (lines 99-132) *)

(** [[...SUBJECTS].sort(() => Math.random() - 0.5)] *)
Definition shuffleSubjects (cls : ClassName) (day : Day) : M (list Subject) :=
  λ σ, let '(dailySubjects, r) := sortRandom E (SUBJECTS cat) (rng σ) in
       Ok dailySubjects
          {| newSchedule := newSchedule σ; rng := r;
             trace := trace σ ++ [Shuffled cls day dailySubjects] |}.

(** [dailySubjects[(subjectIndex + attempts) % dailySubjects.length]]:
    with an empty array the index is [NaN] and the element [undefined];
    the loop guard keeps that case away from the loop body (see
    [rotationEntry_in_range]), and the model raises if it were reached. *)
Definition rotationEntry (dailySubjects : list Subject) (i : nat) : M Subject :=
  match length dailySubjects with
  | 0 => throw notIterable
  | S _ =>
      match dailySubjects !! (i mod length dailySubjects) with
      | Some subject0 => ret subject0
      | None => throw notIterable
      end
  end.

(** [TEACHERS[subject]], about to be iterated by [for ... of]. *)
Definition teachersOf (subject0 : Subject) : M (list Teacher) :=
  match TEACHERS cat !! subject0 with
  | Some ts => ret ts
  | None => throw notIterable
  end.

(** The [for (const teacher of availableTeachers)] loop of lines 114-120;
    the result is the value of [assigned] after it. *)
Fixpoint forTeachers (cls : ClassName) (day : Day) (period : nat)
    (subject0 : Subject) (availableTeachers : list Teacher) (assigned : bool) : M bool :=
  match availableTeachers with
  | [] => ret assigned
  | teacher0 :: rest =>
      free <- canAssignTeacher teacher0 day period ;;
      if free then
        setSlot cls day (Num period) (Assigned (mkSlot subject0 teacher0)) ;;;
        ret true
      else forTeachers cls day period subject0 rest assigned
  end.

(** The [while (!assigned && attempts < dailySubjects.length)] loop of
    lines 109-122; the result is the value of [assigned] after it. *)
Fixpoint whileAttempts (fuel : nat) (cls : ClassName) (day : Day) (period : nat)
    (dailySubjects : list Subject) (subjectIndex : nat)
    (assigned : bool) (attempts : nat) : M bool :=
  if negb assigned && bool_decide (attempts < length dailySubjects) then
    match fuel with
    | 0 => λ _, OutOfFuel
    | S fuel' =>
        subject0 <- rotationEntry dailySubjects (subjectIndex + attempts) ;;
        availableTeachers <- teachersOf subject0 ;;
        assigned' <- forTeachers cls day period subject0 availableTeachers assigned ;;
        whileAttempts fuel' cls day period dailySubjects subjectIndex
          assigned' (S attempts)
    end
  else ret assigned.

(** The callback of [[1, 2, 3, 4, 5, 6].forEach] (lines 105-130); it
    returns the new value of [subjectIndex]. *)
Definition assignPeriod (cls : ClassName) (day : Day) (dailySubjects : list Subject)
    (subjectIndex : nat) (period : nat) : M nat :=
  assigned <- whileAttempts (length dailySubjects) cls day period
                dailySubjects subjectIndex false 0 ;;
  if assigned then ret (S subjectIndex)
  else setSlot cls day (Num period) FreeMark ;;; ret subjectIndex.

Definition teachingPeriods : list nat := [1; 2; 3; 4; 5; 6].

Arguments teachingPeriods : simpl never.

Definition assignPeriods (cls : ClassName) (day : Day) (dailySubjects : list Subject)
    (subjectIndex : nat) (periods : list nat) : M nat :=
  forEachWith periods subjectIndex (assignPeriod cls day dailySubjects).

(** The callback of [DAYS.forEach] (lines 100-131). *)
Definition assignDay (cls : ClassName) (day : Day) : M unit :=
  dailySubjects <- shuffleSubjects cls day ;;
  assignPeriods cls day dailySubjects 0 teachingPeriods ;;;
  ret tt.

Definition assignAll : M unit :=
  forEach (CLASSES cat) (λ cls, forEach (DAYS cat) (assignDay cls)).

(** *** [buildSchedule] (lines 68-135) *)

Definition buildSchedule : M FullSchedule :=
  initSchedule ;;;
  assignAll ;;;
  readSchedule.

(** [const newSchedule: FullSchedule = {}] and the call. *)
Definition initialStore (r : Rng E) : Store :=
  {| newSchedule := ∅; rng := r; trace := [] |}.

Definition runBuildSchedule (r : Rng E) : Outcome FullSchedule :=
  buildSchedule (initialStore r).

(** ** Outcomes of a run *)

(** The store an outcome leaves ([σ0] if the loop was cut short). *)
Definition storeAfter {A} (o : Outcome A) (σ0 : Store) : Store :=
  match o with
  | Ok _ σ => σ
  | Throw _ σ => σ
  | OutOfFuel => σ0
  end.

Definition isOk {A} (o : Outcome A) : bool :=
  match o with
  | Ok _ _ => true
  | _ => false
  end.

Definition returned {A} (o : Outcome A) : option A :=
  match o with
  | Ok a _ => Some a
  | _ => None
  end.

(** The slot at (cls, day, p) of the schedule an outcome returns. *)
Definition returnedCell (o : Outcome FullSchedule) (cls : ClassName) (day : Day)
    (p : Period) : option SlotValue :=
  s ← returned o; cell s cls day p.

(** The object graphs a run went through: the empty one it starts from and
    the one after each mutation. *)
Definition snapshots (tr : list Event) : list FullSchedule :=
  omap (λ e, match e with Mutated s => Some s | Shuffled _ _ _ => None end) tr.

Definition statesDuring (σ : Store) : list FullSchedule :=
  ∅ :: snapshots (trace σ).

(** The rotations a run drew, in order, each with the (class, day) it was
    drawn for. *)
Definition rotations (tr : list Event) : list (ClassName * Day * list Subject) :=
  omap (λ e, match e with
             | Shuffled cls day l => Some (cls, day, l)
             | Mutated _ => None
             end) tr.

(** ** The properties of the specification *)

(** No teacher is in two classes' slots at one (day, period). *)
Definition noDoubleBooking (s : FullSchedule) : Prop :=
  ∀ day p c1 c2 sl1 sl2,
    c1 ≠ c2 →
    cell s c1 day p = Some (Assigned sl1) →
    cell s c2 day p = Some (Assigned sl2) →
    teacher sl1 ≠ teacher sl2.

(** The teacher of a slot is on the catalog's list for the slot's subject,
    and the subject is in the catalog. *)
Definition validSlot (sl : ScheduleSlot) : Prop :=
  subject sl ∈ SUBJECTS cat ∧
  ∃ ts, TEACHERS cat !! subject sl = Some ts ∧ teacher sl ∈ ts.

Definition validAssignments (s : FullSchedule) : Prop :=
  ∀ c day p sl, cell s c day p = Some (Assigned sl) → validSlot sl.

(** What a cell of the grid may hold, by the period it belongs to. *)
Definition holds (p : Period) (v : SlotValue) : Prop :=
  match p with
  | Recess => v = RecessMark
  | Lunch => v = LunchMark
  | Num _ => v = FreeMark ∨ ∃ sl, v = Assigned sl
  end.

Definition gridComplete (s : FullSchedule) : Prop :=
  ∀ cls day p,
    cls ∈ CLASSES cat → day ∈ DAYS cat → p ∈ PERIODS →
    ∃ v, cell s cls day p = Some v ∧ holds p v.

(** How many times [subj] is in [l]. *)
Definition occurrences (subj : Subject) (l : list Subject) : nat :=
  length (filter (subj =.) l).

(** A rotation of the full catalog: the subjects of [SUBJECTS] rearranged,
    each as many times as the catalog lists it (once, in a catalog without
    repetitions). *)
Definition fullRotation (l : list Subject) : Prop :=
  l ≡ₚ SUBJECTS cat ∧
  (∀ subj, occurrences subj l = occurrences subj (SUBJECTS cat)) ∧
  (NoDup (SUBJECTS cat) → ∀ subj, subj ∈ SUBJECTS cat → occurrences subj l = 1).

(** [TEACHERS] has an entry for every subject of [SUBJECTS], as its type
    [Record<Subject, Teacher[]>] says. *)
Definition teachersListed : bool :=
  forallb (λ subj, bool_decide (is_Some (TEACHERS cat !! subj))) (SUBJECTS cat).

(** The pairs [DAYS.forEach] is run on, in order. *)
Definition classDays : list (ClassName * Day) :=
  cls ← CLASSES cat; (λ day, (cls, day)) <$> DAYS cat.

(** ** The slot assigner as the specification words it (section 4.1, 4.2) *)

(** The slot [v] does not hold an assignment with [teacher0]. *)
Definition avoids (teacher0 : Teacher) (v : option SlotValue) : bool :=
  match v with
  | Some (Assigned sl) => negb (bool_decide (teacher sl = teacher0))
  | _ => true
  end.

(** "scan every class's slot at (day, period); if any holds a SlotAssignment
    whose teacher equals the queried teacher, return false; otherwise true" *)
Definition isTeacherFree (teacher0 : Teacher) (day : Day) (period : nat)
    (s : FullSchedule) : bool :=
  forallb (λ c, avoids teacher0 (cell s c day (Num period))) (CLASSES cat).

(** "iterate its qualified teachers in the catalog's fixed order; the first
    teacher for which the Availability Tracker reports free is selected" *)
Definition firstFreeTeacher (day : Day) (period : nat) (s : FullSchedule)
    (subject0 : Subject) : option Teacher :=
  ts ← TEACHERS cat !! subject0;
  firstSome (λ t, if isTeacherFree t day period s then Some t else None) ts.

(** "candidate k is the subject at rotation index (startIndex + k) mod N";
    the slot it yields, if one of its teachers is free. *)
Definition slotFor (day : Day) (period : nat) (s : FullSchedule)
    (rotation : list Subject) (startIndex k : nat) : option ScheduleSlot :=
  subject0 ← rotation !! ((startIndex + k) mod length rotation);
  mkSlot subject0 <$> firstFreeTeacher day period s subject0.

(** "try up to N candidates ... stop trying further candidates"; [None] is
    the result Free. *)
Definition assignSlot (day : Day) (period : nat) (rotation : list Subject)
    (startIndex : nat) (s : FullSchedule) : option ScheduleSlot :=
  firstSome (slotFor day period s rotation startIndex) (seq 0 (length rotation)).

(** ** Specifications of monadic code *)

(** [post o Q QE]: the outcome [o] is a result satisfying [Q] or an
    exception leaving a store satisfying [QE]; it is not a loop cut short. *)
Definition post {A} (o : Outcome A) (Q : A → Store → Prop) (QE : Store → Prop) : Prop :=
  match o with
  | Ok a σ => Q a σ
  | Throw _ σ => QE σ
  | OutOfFuel => False
  end.

(** Every class of the catalog has a schedule for [day]. *)
Definition ready (s : FullSchedule) (day : Day) : Prop :=
  ∀ c, c ∈ CLASSES cat → is_Some (dayOf s c day).

Definition keysAreClasses (s : FullSchedule) : Prop :=
  ∀ c, is_Some (s !! c) → c ∈ CLASSES cat.

Definition rotationsPermute (tr : list Event) : Prop :=
  Forall (λ x, x.2 ≡ₚ SUBJECTS cat) (rotations tr).

(** Every subject of a rotation has an entry in [TEACHERS]. *)
Definition listed (rotation : list Subject) : Prop :=
  ∀ subj, subj ∈ rotation → is_Some (TEACHERS cat !! subj).

(** What the assignment loops need of the store to run on (class, day). *)
Definition runnable (s : FullSchedule) (cls : ClassName) (day : Day)
    (rotation : list Subject) : Prop :=
  ready s day ∧ is_Some (dayOf s cls day) ∧ listed rotation.

(** The first teacher on a subject's list. *)
Definition firstTeacher (subj : Subject) : option Teacher :=
  ts ← TEACHERS cat !! subj; head ts.

(** More subjects than classes, each with a first teacher of its own: the
    condition under which the assigner cannot run out of candidates. *)
Definition abundant : bool :=
  bool_decide (NoDup (firstTeacher <$> SUBJECTS cat)) &&
  forallb (λ subj, bool_decide (is_Some (firstTeacher subj))) (SUBJECTS cat) &&
  bool_decide (length (CLASSES cat) < length (SUBJECTS cat)).

(** A teaching period that was given a subject and a teacher. *)
Definition filled (s : FullSchedule) (cls : ClassName) (day : Day) (period : nat) : Prop :=
  ∃ sl, cell s cls day (Num period) = Some (Assigned sl).

(** [s'] has no assignment that [s] has not. *)
Definition fewerAssignments (s' s : FullSchedule) : Prop :=
  ∀ c day p sl, cell s' c day p = Some (Assigned sl) → cell s c day p = Some (Assigned sl).

(** The cells picked out by [X] are present and hold what their period
    allows. *)
Definition covered (X : ClassName → Day → Period → Prop) (s : FullSchedule) : Prop :=
  ∀ c day p, X c day p → ∃ v, cell s c day p = Some v ∧ holds p v.

(** Every teacher of [subj] is reported busy at (day, period). *)
Definition allBusy (day : Day) (period : nat) (σ : Store) (subj : Subject) : Prop :=
  ∃ ts, TEACHERS cat !! subj = Some ts ∧
        ∀ t, t ∈ ts → canAssignTeacher t day period σ = Ok false σ.

(** [s'] is [s] with [v] in the cell (cls, day, p) and nothing else changed. *)
Definition onlyChange (s s' : FullSchedule) (cls : ClassName) (day : Day)
    (p : Period) (v : SlotValue) : Prop :=
  ∀ c d q, cell s' c d q = if decide (c = cls ∧ d = day ∧ q = p) then Some v
                           else cell s c d q.

(** What holds of the store at every point of a run. *)
Definition sound (σ : Store) : Prop :=
  keysAreClasses (newSchedule σ) ∧
  noDoubleBooking (newSchedule σ) ∧
  Forall noDoubleBooking (snapshots (trace σ)) ∧
  validAssignments (newSchedule σ) ∧
  rotationsPermute (trace σ).

(** The store during initialisation: sound, no rotation drawn yet beyond
    [R], and the cells [X] in place. *)
Definition initialised (R : list (ClassName * Day * list Subject))
    (X : ClassName → Day → Period → Prop) (σ : Store) : Prop :=
  sound σ ∧ rotations (trace σ) = R ∧ covered X (newSchedule σ).

(** The store during the assignment phase: the grid is in place, one
    rotation was drawn for each pair of [Y], in that order, and under
    [abundant] the periods [X] processed so far are filled. *)
Definition assigning (Y : list (ClassName * Day))
    (X : ClassName → Day → nat → Prop) (σ : Store) : Prop :=
  sound σ ∧
  gridComplete (newSchedule σ) ∧
  fst <$> rotations (trace σ) = Y ∧
  (abundant = true → ∀ c day n, X c day n → filled (newSchedule σ) c day n).

(** The store an exception leaves: still sound, and the exception is due to
    a subject without an entry in [TEACHERS]. *)
Definition failed (σ : Store) : Prop :=
  sound σ ∧ gridComplete (newSchedule σ) ∧ teachersListed = false.

End Scheduler.

Arguments Ok {E A} a σ.
Arguments Throw {E A} e σ.
Arguments OutOfFuel {E A}.

(** ** Catalogs and stores to run the model on *)

Local Open Scope string_scope.

(** The built-in catalog with nobody to teach Art. *)
Definition noArtTeacher : Catalog := {|
  DAYS := DAYS builtin;
  SUBJECTS := SUBJECTS builtin;
  TEACHERS := <["Art" := []]> (TEACHERS builtin);
  CLASSES := CLASSES builtin
|}.

(** The built-in catalog with a subject added to [SUBJECTS] and not to
    [TEACHERS]. *)
Definition withMusic : Catalog := {|
  DAYS := DAYS builtin;
  SUBJECTS := "Music" :: SUBJECTS builtin;
  TEACHERS := TEACHERS builtin;
  CLASSES := CLASSES builtin
|}.

(** Two classes, one day, one subject with one teacher. *)
Definition oneTeacher : Catalog := {|
  DAYS := ["Monday"];
  SUBJECTS := ["Math"];
  TEACHERS := {["Math" := ["T1"]]};
  CLASSES := ["A"; "B"]
|}.

(** One class, one day, and a subject that [TEACHERS] does not know. *)
Definition mathAndMusic : Catalog := {|
  DAYS := ["Monday"];
  SUBJECTS := ["Math"; "Music"];
  TEACHERS := {["Math" := ["T1"]]};
  CLASSES := ["A"]
|}.

(** The store of a catalog after initialisation. *)
Definition gridOf (cat : Catalog) : Store (E:=InsertionEngine.engine) :=
  let σ0 := initialStore (E:=InsertionEngine.engine) [] in
  storeAfter (initSchedule (cat:=cat) σ0) σ0.

(** Three classes, one day, two subjects with one teacher each. *)
Definition twoTeachers : Catalog := {|
  DAYS := ["Monday"];
  SUBJECTS := ["Math"; "Science"];
  TEACHERS := list_to_map [("Math", ["T1"]); ("Science", ["T2"])];
  CLASSES := ["A"; "B"; "C"]
|}.

(** The grid of [twoTeachers] after initialisation, with classes B and C
    given the two teachers at period 2 of Monday. *)
Definition blockedStore : Store (E:=InsertionEngine.engine) :=
  let σ1 := gridOf twoTeachers in
  let σ2 := storeAfter (setSlot "B" "Monday" (Num 2) (Assigned (mkSlot "Math" "T1")) σ1) σ1 in
  storeAfter (setSlot "C" "Monday" (Num 2) (Assigned (mkSlot "Science" "T2")) σ2) σ2.

(** The grid of [oneTeacher] after initialisation, with class B given the
    teacher at period 2 of Monday. *)
Definition bookedStore : Store (E:=InsertionEngine.engine) :=
  let σ0 := initialStore (E:=InsertionEngine.engine) [] in
  let σ1 := storeAfter (initSchedule (cat:=oneTeacher) σ0) σ0 in
  storeAfter (setSlot "B" "Monday" (Num 2) (Assigned (mkSlot "Math" "T1")) σ1) σ1.

Local Close Scope string_scope.

(** A tape for [withMusic] on which every sort puts Music last, and the
    three classes get the six other subjects starting from Math, from
    Science and from English. *)
Definition luckyTape : list comparison :=
  mjoin (replicate 5 (replicate 5 Eq ++ replicate 6 Gt)) ++
  mjoin (replicate 5 (replicate 4 Eq ++ replicate 11 Gt)) ++
  mjoin (replicate 5 (replicate 3 Eq ++ replicate 8 Gt ++ [Eq] ++ replicate 6 Gt)).

(** ** Two sentences of the specification, as it states them *)

(** On a malformed catalog: a subject with an empty teacher list makes the
    build fail. *)
Definition rejectsEmptyTeacherList (E : Engine) (cat : Catalog) (r : Rng E) : Prop :=
  (∃ subj, subj ∈ SUBJECTS cat ∧ TEACHERS cat !! subj = Some []) →
  ∃ e σ, runBuildSchedule r = Throw e σ.

(** On any catalog: the build raises nothing and returns a schedule. *)
Definition neverThrows (E : Engine) (cat : Catalog) (r : Rng E) : Prop :=
  ∃ s σ, runBuildSchedule r = Ok s σ.

(** ** What initialisation and the assignment phase amount to *)

Section Summary.

Context {E : Engine} {cat : Catalog}.

(** What lines 77-81 store at a period: the break's own name, or Free. *)
Definition initialMark (p : Period) : SlotValue :=
  match p with
  | Recess => RecessMark
  | Lunch => LunchMark
  | Num _ => FreeMark
  end.

(** The teachers named on the lists of the catalog's subjects, each once. *)
Definition staff : list Teacher :=
  remove_dups (subj ← SUBJECTS cat; default [] (TEACHERS cat !! subj)).

(** [n] consecutive sorts of a copy of [SUBJECTS], from the state [r] of
    the random source: the arrays they give, and the state after them. *)
Fixpoint draws (n : nat) (r : Rng E) : list (list Subject) * Rng E :=
  match n with
  | 0 => ([], r)
  | S n' =>
      let '(l, r') := sortRandom E (SUBJECTS cat) r in
      let '(ls, r'') := draws n' r' in
      (l :: ls, r'')
  end.

(** Candidate [j] of the [while] loop has a teacher list, and every
    teacher on it is reported busy. *)
Definition allTaken (day : Day) (period : nat) (s : FullSchedule)
    (rotation : list Subject) (idx j : nat) : Prop :=
  ∃ subj ts, rotation !! ((idx + j) mod length rotation) = Some subj ∧
             TEACHERS cat !! subj = Some ts ∧
             ∀ t, t ∈ ts → isTeacherFree t day period s = false.

(** What candidate [k] does to the [while] loop: it raises ([Some None]),
    it ends the loop with a slot ([Some (Some sl)]), or the loop goes on
    to the next candidate ([None]). A subject without entry in [TEACHERS]
    raises, and so does an index that reads [undefined] from the rotation. *)
Definition candidate (day : Day) (period : nat) (s : FullSchedule)
    (rotation : list Subject) (idx k : nat) : option (option ScheduleSlot) :=
  match rotation !! ((idx + k) mod length rotation) with
  | None => Some None
  | Some subj =>
      match TEACHERS cat !! subj with
      | None => Some None
      | Some ts =>
          match firstSome (λ t, if isTeacherFree t day period s then Some t else None) ts with
          | Some t => Some (Some (mkSlot subj t))
          | None => None
          end
      end
  end.

(** The store after [shuffleSubjects cls day]. *)
Definition shuffled (cls : ClassName) (day : Day) (σ : Store) : Store :=
  {| newSchedule := newSchedule σ;
     rng := (sortRandom E (SUBJECTS cat) (rng σ)).2;
     trace := trace σ ++ [Shuffled cls day (sortRandom E (SUBJECTS cat) (rng σ)).1] |}.

(** The objects the three loops of lines 72-84 build, as values: a day's
    object after the periods [ps] were stored in [ds], a class's object
    after the days [dl] were set in [cs], and the graph after the classes
    [cl] were set in [s]. *)
Definition fillDay (ds : DaySchedule) (ps : list Period) : DaySchedule :=
  foldl (λ ds p, <[p := initialMark p]> ds) ds ps.

Definition fillClass (cs : ClassSchedule) (dl : list Day) : ClassSchedule :=
  foldl (λ cs d, <[d := fillDay ∅ PERIODS]> cs) cs dl.

Definition fillGrid (s : FullSchedule) (cl : list ClassName) : FullSchedule :=
  foldl (λ s c, <[c := fillClass ∅ (DAYS cat)]> s) s cl.

(** The random source and the rotations drawn so far are those of [σ]. *)
Definition sameDraws (σ σ' : Store) : Prop :=
  rng σ' = rng σ ∧ rotations (trace σ') = rotations (trace σ).


(** The class at position [k] of [CLASSES] has its share at (d, n): an
    assignment if there are more than [k] teachers, Free otherwise. *)
Definition served (s : FullSchedule) (k : nat) (c : ClassName) (d : Day) (n : nat) : Prop :=
  if decide (k < length staff) then filled s c d n
  else cell s c d (Num n) = Some FreeMark.

(** The teaching slots picked out by [P] have been attempted and hold the
    share of their class; the others still hold the Free of initialisation. *)
Definition rations (P : ClassName → Day → nat → Prop) (s : FullSchedule) : Prop :=
  ∀ k c d n, CLASSES cat !! k = Some c → d ∈ DAYS cat → n ∈ teachingPeriods →
    (P c d n → served s k c d n) ∧
    (¬ P c d n → cell s c d (Num n) = Some FreeMark).

Definition rationed (P : ClassName → Day → nat → Prop) (σ : Store) : Prop :=
  sound σ ∧ gridComplete (newSchedule σ) ∧ rations P (newSchedule σ).




(** The periods of [ps] at which the class holds an assignment on the day. *)
Definition assignedPeriods (s : FullSchedule) (cls : ClassName) (day : Day)
    (ps : list nat) : list nat :=
  filter (λ n, isObject (cell s cls day (Num n)) = true) ps.

(** The outcome is a result that leaves a store satisfying [I], or it is
    the exception [e0]. *)
Definition raisesOnly {A} (e0 : JsError) (I : Store → Prop) (o : Outcome A) : Prop :=
  match o with
  | Ok _ σ => I σ
  | Throw e _ => e = e0
  | OutOfFuel => True
  end.

(** The property names every object inherits from [Object.prototype]. Read
    on an object that has no property of its own by that name, such a name
    gives the inherited value; every other name gives [undefined], which
    is how the model reads a missing property. *)
Definition inheritedNames : list string :=
  ["constructor"; "__proto__"; "hasOwnProperty"; "isPrototypeOf";
   "propertyIsEnumerable"; "toLocaleString"; "toString"; "valueOf";
   "__defineGetter__"; "__defineSetter__"; "__lookupGetter__";
   "__lookupSetter__"]%string.

Definition ordinary (name : string) : bool :=
  bool_decide (name ∉ inheritedNames).

(** The scan of [canAssignTeacher] goes past the class [c]: it has a
    schedule for the day, and its slot does not hold the teacher. *)
Definition passes (teacher0 : Teacher) (day : Day) (period : nat)
    (s : FullSchedule) (c : ClassName) : Prop :=
  is_Some (dayOf s c day) ∧
  ∀ sl, cell s c day (Num period) = Some (Assigned sl) → teacher sl ≠ teacher0.

End Summary.

(** ** The component: state, handlers and view (page.tsx, lines 46-65, 137-286) *)

Section Component.

Context {E : Engine} {cat : Catalog}.










(** *** The schedule display (lines 189-283) *)

(** [period === 'Recess' || period === 'Lunch'] *)
Definition isBreak (p : Period) : bool :=
  match p with
  | Recess | Lunch => true
  | Num _ => false
  end.

(** The three kinds of [<td>] of lines 232-265. *)
Inductive CellView : Type :=
  | BreakCell (period : Period)
  | FreePeriodCell
  | LessonCell (slot : ScheduleSlot).

(** The first [<td>] of a row: [{period}] or [`Period ${period}`]. *)
Inductive RowLabel : Type :=
  | BreakLabel (period : Period)
  | PeriodLabel (period : Period).

Record RowView : Type := mkRow { label : RowLabel; cells : list CellView }.

Record TableView : Type := mkTable {
  title : ClassName;
  columns : list Day;
  rows : list RowView
}.

Inductive ScheduleView : Type :=
  | Placeholder
  | Tables (tables : list TableView).

#[global] Instance CellView_eq_dec : EqDecision CellView.
Proof. solve_decision. Defined.

(** [l.map(f)] where [f] may raise: the elements are visited in order and
    the first exception ends the call. *)
Fixpoint mapE {A B} (f : A → JsError + B) (l : list A) : JsError + list B :=
  match l with
  | [] => inr []
  | x :: xs =>
      match f x with
      | inl e => inl e
      | inr b =>
          match mapE f xs with
          | inl e => inl e
          | inr bs => inr (b :: bs)
          end
      end
  end.

(** The callback of the inner [DAYS.map] (lines 232-265); a break row does
    not read the schedule. A class or a day the graph has no entry for is
    read as [undefined], which is what line 241 gives for every name
    outside [inheritedNames]. *)
Definition renderCell (s : FullSchedule) (cls : ClassName) (period : Period) (day : Day)
  : JsError + CellView :=
  if isBreak period then inr (BreakCell period)
  else
    match dayOf s cls day with
    | None => inl undefinedRead
    | Some ds =>
        match ds !! period with
        | Some (Assigned sl) => inr (LessonCell sl)
        | _ => inr FreePeriodCell
        end
    end.

(** The callback of [PERIODS.map] (lines 216-268). *)
Definition renderRow (s : FullSchedule) (cls : ClassName) (period : Period)
  : JsError + RowView :=
  match mapE (renderCell s cls period) (DAYS cat) with
  | inl e => inl e
  | inr cs =>
      inr {| label := if isBreak period then BreakLabel period else PeriodLabel period;
             cells := cs |}
  end.

(** The callback of [CLASSES.map] (lines 191-273). *)
Definition renderTable (s : FullSchedule) (cls : ClassName) : JsError + TableView :=
  match mapE (renderRow s cls) PERIODS with
  | inl e => inl e
  | inr rs => inr {| title := cls; columns := DAYS cat; rows := rs |}
  end.

(** [schedule ? ... : ...] (lines 189-283). *)
Definition renderSchedule (sched : option FullSchedule) : JsError + ScheduleView :=
  match sched with
  | None => inr Placeholder
  | Some s =>
      match mapE (renderTable s) (CLASSES cat) with
      | inl e => inl e
      | inr ts => inr (Tables ts)
      end
  end.



(** What the display holds when no read raises: the cell for (cls, day)
    in the row of [period], the row, the table of a class, all tables. *)
Definition cellShown (s : FullSchedule) (cls : ClassName) (period : Period) (day : Day)
  : CellView :=
  if isBreak period then BreakCell period
  else
    match cell s cls day period with
    | Some (Assigned sl) => LessonCell sl
    | _ => FreePeriodCell
    end.

Definition rowShown (s : FullSchedule) (cls : ClassName) (period : Period) : RowView :=
  {| label := if isBreak period then BreakLabel period else PeriodLabel period;
     cells := cellShown s cls period <$> DAYS cat |}.

Definition tableShown (s : FullSchedule) (cls : ClassName) : TableView :=
  {| title := cls; columns := DAYS cat; rows := rowShown s cls <$> PERIODS |}.

Definition tablesShown (s : FullSchedule) : list TableView :=
  tableShown s <$> CLASSES cat.

(** The assignment a teaching slot holds, if it holds one. *)
Definition assignedAt (s : FullSchedule) (cls : ClassName) (day : Day) (n : nat)
  : option ScheduleSlot :=
  match cell s cls day (Num n) with
  | Some (Assigned sl) => Some sl
  | _ => None
  end.

(** Every class of the catalog has a schedule for every day of the catalog. *)
Definition allDays (s : FullSchedule) : Prop :=
  ∀ cls day, cls ∈ CLASSES cat → day ∈ DAYS cat → is_Some (dayOf s cls day).


End Component.

Section Properties.

Context {E : Engine} {cat : Catalog}.

(** ** The object graph under the three kinds of write *)

Lemma dayOf_insert_class (s : FullSchedule) cls cs c day :
  dayOf (<[cls := cs]> s) c day = if decide (c = cls) then cs !! day else dayOf s c day.
Proof.
  unfold dayOf. case_decide; subst.
  - by rewrite lookup_insert_eq.
  - by rewrite lookup_insert_ne.
Qed.

Lemma dayOf_insert_day (s : FullSchedule) cls cs day ds c d :
  s !! cls = Some cs →
  dayOf (<[cls := <[day := ds]> cs]> s) c d =
    if decide (c = cls ∧ d = day) then Some ds else dayOf s c d.
Proof.
  intros Hcs. rewrite dayOf_insert_class. unfold dayOf.
  destruct (decide (c = cls)) as [->|Hc].
  - rewrite Hcs. simpl. destruct (decide (d = day)) as [->|Hd].
    + rewrite lookup_insert_eq. by rewrite decide_True.
    + rewrite lookup_insert_ne by done. rewrite decide_False; [done|]. by intros [? ?].
  - rewrite decide_False; [done|]. by intros [? ?].
Qed.

Lemma dayOf_writeCell (s : FullSchedule) cls day p v ds c d :
  dayOf s cls day = Some ds →
  dayOf (writeCell s cls day p v) c d =
    if decide (c = cls ∧ d = day) then Some (<[p := v]> ds) else dayOf s c d.
Proof.
  unfold writeCell. intros Hds. unfold dayOf in Hds.
  destruct (s !! cls) as [cs|] eqn:Hcs; [|done]. simpl in Hds. rewrite Hds.
  by apply dayOf_insert_day.
Qed.

Lemma cell_writeCell (s : FullSchedule) cls day p v c d q :
  is_Some (dayOf s cls day) →
  cell (writeCell s cls day p v) c d q =
    if decide (c = cls ∧ d = day ∧ q = p) then Some v else cell s c d q.
Proof.
  intros [ds Hds]. unfold cell. rewrite (dayOf_writeCell _ _ _ _ _ ds) by done.
  destruct (decide (c = cls ∧ d = day)) as [[-> ->]|Hne].
  - simpl. rewrite Hds. simpl. destruct (decide (q = p)) as [->|Hq].
    + rewrite lookup_insert_eq. by rewrite decide_True.
    + rewrite lookup_insert_ne by done. rewrite decide_False; [done|]. by intros (? & ? & ?).
  - rewrite decide_False; [done|]. intros (? & ? & ?). by apply Hne.
Qed.

Lemma cell_writeCell_same (s : FullSchedule) cls day p v :
  is_Some (dayOf s cls day) → cell (writeCell s cls day p v) cls day p = Some v.
Proof. intros H. rewrite cell_writeCell by done. by rewrite decide_True. Qed.

Lemma cell_writeCell_other (s : FullSchedule) cls day p v c d q :
  ¬ (c = cls ∧ d = day ∧ q = p) →
  cell (writeCell s cls day p v) c d q = cell s c d q.
Proof.
  intros Hne. destruct (dayOf s cls day) as [ds|] eqn:Hds.
  - rewrite cell_writeCell by eauto. by rewrite decide_False.
  - unfold writeCell. unfold dayOf in Hds.
    destruct (s !! cls) as [cs|]; [|done]. simpl in Hds. by rewrite Hds.
Qed.

Lemma hasDay_writeCell (s : FullSchedule) cls day p v c d :
  is_Some (dayOf (writeCell s cls day p v) c d) ↔ is_Some (dayOf s c d).
Proof.
  destruct (dayOf s cls day) as [ds|] eqn:Hds.
  - rewrite (dayOf_writeCell _ _ _ _ _ ds) by done.
    case_decide as Hc; [|done]. destruct Hc as [-> ->]. rewrite Hds. split; eauto.
  - unfold writeCell. unfold dayOf in Hds.
    destruct (s !! cls) as [cs|]; [|done]. simpl in Hds. by rewrite Hds.
Qed.

Lemma keys_writeCell (s : FullSchedule) cls day p v c :
  is_Some (writeCell s cls day p v !! c) ↔ is_Some (s !! c).
Proof.
  unfold writeCell. destruct (s !! cls) as [cs|] eqn:Hcs; [|done].
  destruct (cs !! day); [|done].
  destruct (decide (c = cls)) as [->|Hc].
  - rewrite lookup_insert_eq, Hcs. split; eauto.
  - by rewrite lookup_insert_ne.
Qed.

Lemma cell_insert_class_empty (s : FullSchedule) cls c d q :
  cell (<[cls := ∅]> s) c d q = if decide (c = cls) then None else cell s c d q.
Proof. unfold cell. rewrite dayOf_insert_class. by case_decide. Qed.

Lemma cell_insert_day_empty (s : FullSchedule) cls cs day c d q :
  s !! cls = Some cs →
  cell (<[cls := <[day := ∅]> cs]> s) c d q =
    if decide (c = cls ∧ d = day) then None else cell s c d q.
Proof.
  intros Hcs. unfold cell. rewrite dayOf_insert_day by done. by case_decide.
Qed.

(** ** Rules for sequencing and loops *)

Lemma post_mono {A} (o : Outcome A) (Q Q' : A → Store → Prop) (QE QE' : Store → Prop) :
  post o Q QE →
  (∀ a σ, Q a σ → Q' a σ) →
  (∀ σ, QE σ → QE' σ) →
  post o Q' QE'.
Proof. destruct o; simpl; eauto. Qed.

Lemma post_bind {A B} (m : M A) (k : A → M B) σ (R : B → Store → Prop) QE :
  post (m σ) (λ a σ', post (k a σ') R QE) QE → post (bind m k σ) R QE.
Proof. unfold bind. by destruct (m σ). Qed.

Lemma forEach_post {A} (I : list A → Store → Prop) QE (f : A → M unit) (l : list A) :
  (∀ pre x suf σ, l = pre ++ x :: suf → I pre σ →
     post (f x σ) (λ _, I (pre ++ [x])) QE) →
  ∀ σ, I [] σ → post (forEach l f σ) (λ _, I l) QE.
Proof.
  intros Hstep.
  assert (∀ suf pre σ, l = pre ++ suf → I pre σ →
            post (forEach suf f σ) (λ _, I l) QE) as Hgen.
  { induction suf as [|x suf IH]; intros pre σ Hl HI; simpl.
    - rewrite app_nil_r in Hl. by subst.
    - apply post_bind. eapply post_mono; [by eapply Hstep| |done].
      intros [] σ' HI'. simpl in HI'. apply (IH (pre ++ [x])); [|done].
      by rewrite <- app_assoc. }
  intros σ HI. by apply (Hgen l []).
Qed.

Lemma forEachWith_post {A S} (I : list A → S → Store → Prop) QE
    (f : S → A → M S) (l : list A) :
  (∀ pre x suf s σ, l = pre ++ x :: suf → I pre s σ →
     post (f s x σ) (I (pre ++ [x])) QE) →
  ∀ s σ, I [] s σ → post (forEachWith l s f σ) (I l) QE.
Proof.
  intros Hstep.
  assert (∀ suf pre s σ, l = pre ++ suf → I pre s σ →
            post (forEachWith suf s f σ) (I l) QE) as Hgen.
  { induction suf as [|x suf IH]; intros pre s σ Hl HI; simpl.
    - rewrite app_nil_r in Hl. by subst.
    - apply post_bind. eapply post_mono; [by eapply Hstep| |done].
      intros s' σ' HI'. simpl in HI'. apply (IH (pre ++ [x])); [|done].
      by rewrite <- app_assoc. }
  intros s σ HI. by apply (Hgen l []).
Qed.

Lemma forEachWith_app {A S} (l1 l2 : list A) (s : S) (f : S → A → M S) σ :
  forEachWith (l1 ++ l2) s f σ =
    bind (forEachWith l1 s f) (λ s', forEachWith l2 s' f) σ.
Proof.
  revert s σ. induction l1 as [|x l1 IH]; intros s σ; simpl; [done|].
  unfold bind. destruct (f s x σ) as [s' σ'| |]; [|done..].
  rewrite IH. by unfold bind.
Qed.

(** ** The primitives *)

Lemma initClass_eq cls σ :
  initClass cls σ = Ok tt (mutated (<[cls := ∅]> (newSchedule σ)) σ).
Proof. done. Qed.

Lemma initDay_eq cls day σ :
  initDay cls day σ =
    match newSchedule σ !! cls with
    | Some cs => Ok tt (mutated (<[cls := <[day := ∅]> cs]> (newSchedule σ)) σ)
    | None => Throw undefinedRead σ
    end.
Proof.
  unfold initDay, readClass, readSchedule, bind. simpl.
  by destruct (newSchedule σ !! cls).
Qed.

Lemma readDay_eq cls day σ :
  readDay cls day σ =
    match dayOf (newSchedule σ) cls day with
    | Some ds => Ok ds σ
    | None => Throw undefinedRead σ
    end.
Proof.
  unfold readDay, readClass, readSchedule, bind, dayOf. simpl.
  destruct (newSchedule σ !! cls) as [cs|]; simpl; [|done].
  by destruct (cs !! day).
Qed.

Lemma setSlot_eq cls day p v σ :
  setSlot cls day p v σ =
    match dayOf (newSchedule σ) cls day with
    | Some _ => Ok tt (mutated (writeCell (newSchedule σ) cls day p v) σ)
    | None => Throw undefinedRead σ
    end.
Proof.
  unfold setSlot. unfold bind at 1. unfold readClass, readSchedule, bind at 1. simpl.
  unfold dayOf, writeCell.
  destruct (newSchedule σ !! cls) as [cs|] eqn:Hcs; simpl; [|done].
  unfold bind. rewrite readDay_eq. unfold dayOf. rewrite Hcs. simpl.
  by destruct (cs !! day).
Qed.

Lemma getSlot_eq c day p σ :
  getSlot c day p σ =
    match dayOf (newSchedule σ) c day with
    | Some ds => Ok (ds !! p) σ
    | None => Throw undefinedRead σ
    end.
Proof.
  unfold getSlot, bind. rewrite readDay_eq.
  by destruct (dayOf (newSchedule σ) c day).
Qed.

(** ** [canAssignTeacher] *)

Lemma canAssignTeacher_from_post cs teacher0 day period σ :
  post (canAssignTeacher_from cs teacher0 day period σ)
    (λ b σ', σ' = σ ∧
       b = forallb (λ c, avoids teacher0 (cell (newSchedule σ) c day (Num period))) cs)
    (λ σ', σ' = σ ∧ ∃ c, c ∈ cs ∧ dayOf (newSchedule σ) c day = None).
Proof.
  induction cs as [|c cs IH]; simpl; [done|].
  apply post_bind. rewrite getSlot_eq. unfold cell.
  destruct (dayOf (newSchedule σ) c day) as [ds|] eqn:Hds; simpl.
  - assert (avoids teacher0 (ds !! Num period) = true →
      post (canAssignTeacher_from cs teacher0 day period σ)
      (λ b σ', σ' = σ ∧
         b = avoids teacher0 (ds !! Num period) &&
             forallb (λ c, avoids teacher0
               (dayOf (newSchedule σ) c day ≫= (.!! Num period))) cs)
      (λ σ', σ' = σ ∧ ∃ c0, c0 ∈ c :: cs ∧ dayOf (newSchedule σ) c0 day = None))
      as Hrest.
    { intros ->. eapply post_mono; [exact IH| |].
      - intros b σ' [-> ->]. done.
      - intros σ' [-> (c0 & Hc0 & Hnone)]. split; [done|].
        exists c0. split; [by right|done]. }
    destruct (ds !! Num period) as [[sl| | |]|] eqn:Hv; simpl in *;
      try (by apply Hrest).
    case_bool_decide as Ht; simpl in *; [done|by apply Hrest].
  - split; [done|]. exists c. split; [by left|done].
Qed.

Lemma canAssignTeacher_post teacher0 day period σ :
  post (canAssignTeacher teacher0 day period σ)
    (λ b σ', σ' = σ ∧ b = isTeacherFree teacher0 day period (newSchedule σ))
    (λ σ', σ' = σ ∧ ¬ ready (newSchedule σ) day).
Proof.
  eapply post_mono; [apply canAssignTeacher_from_post|done|].
  intros σ' [-> (c & Hc & Hnone)]. split; [done|].
  intros Hready. destruct (Hready c Hc) as [ds Hds]. congruence.
Qed.

(** ** The loops of the slot assigner *)

Lemma forTeachers_post cls day period subject0 ts assigned σ rotation :
  post (forTeachers cls day period subject0 ts assigned σ)
    (λ b σ',
       match firstSome (λ t, if isTeacherFree t day period (newSchedule σ)
                             then Some t else None) ts with
       | Some t =>
           b = true ∧ is_Some (dayOf (newSchedule σ) cls day) ∧
           σ' = mutated (writeCell (newSchedule σ) cls day (Num period)
                           (Assigned (mkSlot subject0 t))) σ
       | None => b = assigned ∧ σ' = σ
       end)
    (λ σ', σ' = σ ∧ ¬ runnable (newSchedule σ) cls day rotation).
Proof.
  induction ts as [|t ts IH]; simpl; [done|].
  apply post_bind. eapply post_mono; [apply canAssignTeacher_post| |].
  - intros b σ' [-> ->].
    destruct (isTeacherFree t day period (newSchedule σ)); [|exact IH].
    apply post_bind. rewrite setSlot_eq.
    destruct (dayOf (newSchedule σ) cls day) as [ds|] eqn:Hds; simpl; [eauto|].
    split; [done|]. intros (_ & [? ?] & _). congruence.
  - intros σ' [-> Hnr]. split; [done|]. intros (? & _). done.
Qed.

Lemma whileAttempts_assigned fuel cls day period rotation idx a σ :
  whileAttempts fuel cls day period rotation idx true a σ = Ok true σ.
Proof. by destruct fuel. Qed.

Lemma whileAttempts_exhausted fuel cls day period rotation idx assigned a σ :
  length rotation ≤ a →
  whileAttempts fuel cls day period rotation idx assigned a σ = Ok assigned σ.
Proof.
  intros Ha. destruct fuel; simpl; rewrite bool_decide_eq_false_2 by lia;
    by rewrite andb_false_r.
Qed.

Lemma rotationEntry_in_range rotation i σ :
  rotation ≠ [] →
  ∃ subject0, rotation !! (i mod length rotation) = Some subject0 ∧
              rotationEntry rotation i σ = Ok subject0 σ.
Proof.
  intros Hne. unfold rotationEntry.
  destruct (lookup_lt_is_Some_2 rotation (i mod length rotation)) as [subj Hsubj].
  { apply Nat.mod_upper_bound. by destruct rotation. }
  exists subj. split; [done|]. rewrite Hsubj. by destruct rotation.
Qed.

Lemma whileAttempts_post fuel cls day period rotation idx a σ :
  length rotation - a ≤ fuel →
  post (whileAttempts fuel cls day period rotation idx false a σ)
    (λ b σ',
       match firstSome (slotFor day period (newSchedule σ) rotation idx)
               (seq a (length rotation - a)) with
       | Some sl =>
           b = true ∧ is_Some (dayOf (newSchedule σ) cls day) ∧
           σ' = mutated (writeCell (newSchedule σ) cls day (Num period) (Assigned sl)) σ
       | None =>
           b = false ∧ σ' = σ ∧
           ∀ k, a ≤ k < length rotation →
             ∃ subj, rotation !! ((idx + k) mod length rotation) = Some subj ∧
                     is_Some (TEACHERS cat !! subj)
       end)
    (λ σ', σ' = σ ∧ ¬ runnable (newSchedule σ) cls day rotation).
Proof.
  revert a. induction fuel as [|fuel IH]; intros a Hfuel.
  - rewrite whileAttempts_exhausted by lia.
    replace (length rotation - a) with 0 by lia. simpl.
    repeat split; [done..|]. intros k Hk. lia.
  - destruct (decide (length rotation ≤ a)) as [Hge|Hlt].
    { rewrite whileAttempts_exhausted by lia.
      replace (length rotation - a) with 0 by lia. simpl.
      repeat split; [done..|]. intros k Hk. lia. }
    replace (length rotation - a) with (S (length rotation - S a)) by lia.
    simpl. rewrite bool_decide_eq_true_2 by lia. simpl.
    destruct (rotationEntry_in_range rotation (idx + a) σ) as (subj & Hsubj & Hentry).
    { intros ->. simpl in Hlt. lia. }
    apply post_bind. rewrite Hentry. simpl.
    apply post_bind. unfold teachersOf, slotFor at 1, firstFreeTeacher.
    rewrite Hsubj. simpl.
    destruct (TEACHERS cat !! subj) as [ts|] eqn:Hts; simpl.
    + apply post_bind.
      eapply post_mono; [apply (forTeachers_post _ _ _ _ _ _ _ rotation)| |done].
      intros b σ'. simpl.
      destruct (firstSome _ ts) as [t|]; simpl.
      * intros (-> & Hday & ->). by rewrite whileAttempts_assigned.
      * intros [-> ->]. eapply post_mono; [apply (IH (S a)); lia| |done].
        intros b σ'. simpl.
        destruct (firstSome _ (seq (S a) _)) as [sl|]; [done|].
        intros (-> & -> & Hall). repeat split; [done..|].
        intros k Hk. destruct (decide (k = a)) as [->|Hka].
        -- exists subj. by rewrite Hts.
        -- apply Hall. lia.
    + split; [done|]. intros (_ & _ & Hlisted).
      destruct (Hlisted subj) as [ts Hts']; [|congruence].
      by eapply list_elem_of_lookup_2.
Qed.

Lemma assignPeriod_post cls day rotation idx period σ :
  post (assignPeriod cls day rotation idx period σ)
    (λ idx' σ',
       is_Some (dayOf (newSchedule σ) cls day) ∧
       match assignSlot day period rotation idx (newSchedule σ) with
       | Some sl =>
           idx' = S idx ∧
           σ' = mutated (writeCell (newSchedule σ) cls day (Num period) (Assigned sl)) σ
       | None =>
           idx' = idx ∧
           σ' = mutated (writeCell (newSchedule σ) cls day (Num period) FreeMark) σ ∧
           ∀ k, k < length rotation →
             ∃ subj, rotation !! ((idx + k) mod length rotation) = Some subj ∧
                     is_Some (TEACHERS cat !! subj)
       end)
    (λ σ', σ' = σ ∧ ¬ runnable (newSchedule σ) cls day rotation).
Proof.
  unfold assignPeriod, assignSlot. apply post_bind.
  eapply post_mono; [apply whileAttempts_post; lia| |done].
  intros b σ'. simpl. rewrite Nat.sub_0_r.
  destruct (firstSome _ _) as [sl|].
  - intros (-> & Hday & ->). done.
  - intros (-> & -> & Hall). apply post_bind. rewrite setSlot_eq.
    destruct (dayOf (newSchedule σ) cls day) as [ds|] eqn:Hds; simpl.
    + repeat split; [eauto..|]. intros k Hk. apply Hall. lia.
    + split; [done|]. intros (_ & [? ?] & _). congruence.
Qed.

(** ** The specification's assigner, unfolded *)

Lemma firstSome_Some {A B} (f : A → option B) (l : list A) b :
  firstSome f l = Some b →
  ∃ pre x suf, l = pre ++ x :: suf ∧ f x = Some b ∧ ∀ y, y ∈ pre → f y = None.
Proof.
  induction l as [|x l IH]; simpl; [done|].
  destruct (f x) as [b'|] eqn:Hfx.
  - intros [= ->]. exists [], x, l. split_and!; [done..|]. intros y Hy. by inv Hy.
  - intros Hl. destruct (IH Hl) as (pre & y & suf & -> & Hy & Hpre).
    exists (x :: pre), y, suf. split_and!; [done..|].
    intros z Hz. inv Hz; eauto.
Qed.

Lemma firstSome_None {A B} (f : A → option B) (l : list A) :
  firstSome f l = None ↔ ∀ x, x ∈ l → f x = None.
Proof.
  induction l as [|x l IH]; simpl.
  - split; [|done]. intros _ y Hy. by inv Hy.
  - destruct (f x) as [b|] eqn:Hfx.
    + split; [done|]. intros Hall. rewrite <- Hfx. apply Hall. by left.
    + rewrite IH. split.
      * intros Hall y Hy. inv Hy; eauto.
      * intros Hall y Hy. apply Hall. by right.
Qed.

Lemma isTeacherFree_true teacher0 day period s :
  isTeacherFree teacher0 day period s = true ↔
  ∀ c sl, c ∈ CLASSES cat → cell s c day (Num period) = Some (Assigned sl) →
          teacher sl ≠ teacher0.
Proof.
  unfold isTeacherFree. rewrite forallb_forall. split.
  - intros Hall c sl Hc Hcell. apply list_elem_of_In, Hall in Hc.
    rewrite Hcell in Hc. simpl in Hc. by case_bool_decide.
  - intros Hall c Hc. apply list_elem_of_In in Hc. unfold avoids.
    destruct (cell s c day (Num period)) as [[sl| | |]|] eqn:Hcell; try done.
    rewrite bool_decide_eq_false_2; [done|]. by eapply Hall.
Qed.

Lemma isTeacherFree_false teacher0 day period s :
  isTeacherFree teacher0 day period s = false ↔
  ∃ c sl, c ∈ CLASSES cat ∧ cell s c day (Num period) = Some (Assigned sl) ∧
          teacher sl = teacher0.
Proof.
  unfold isTeacherFree. split.
  - intros Hf. induction (CLASSES cat) as [|c cs IH]; simpl in Hf; [done|].
    apply andb_false_iff in Hf as [Hc|Hcs].
    + unfold avoids in Hc.
      destruct (cell s c day (Num period)) as [[sl| | |]|] eqn:Hcell; try done.
      exists c, sl. split_and!; [by left|done|]. by case_bool_decide.
    + destruct (IH Hcs) as (c' & sl & Hc' & Hrest). exists c', sl. split; [by right|done].
  - intros (c & sl & Hc & Hcell & Ht).
    destruct (forallb _ _) eqn:Hall; [|done].
    rewrite forallb_forall in Hall. apply list_elem_of_In, Hall in Hc.
    rewrite Hcell in Hc. simpl in Hc. by rewrite bool_decide_eq_true_2 in Hc.
Qed.

Lemma firstFreeTeacher_Some day period s subject0 t :
  firstFreeTeacher day period s subject0 = Some t →
  ∃ pre suf, TEACHERS cat !! subject0 = Some (pre ++ t :: suf) ∧
             isTeacherFree t day period s = true ∧
             ∀ t', t' ∈ pre → isTeacherFree t' day period s = false.
Proof.
  unfold firstFreeTeacher. destruct (TEACHERS cat !! subject0) as [ts|]; [|done].
  simpl. intros (pre & x & suf & -> & Hx & Hpre)%firstSome_Some.
  destruct (isTeacherFree x day period s) eqn:Hfree; [|done].
  injection Hx as ->. exists pre, suf. split_and!; [done..|].
  intros t' Ht'. specialize (Hpre t' Ht').
  by destruct (isTeacherFree t' day period s).
Qed.

Lemma firstFreeTeacher_None day period s subject0 ts :
  TEACHERS cat !! subject0 = Some ts →
  firstFreeTeacher day period s subject0 = None →
  ∀ t, t ∈ ts → isTeacherFree t day period s = false.
Proof.
  unfold firstFreeTeacher. intros ->. simpl. rewrite firstSome_None.
  intros Hall t Ht. specialize (Hall t Ht).
  by destruct (isTeacherFree t day period s).
Qed.

Lemma assignSlot_Some day period rotation idx s sl :
  assignSlot day period rotation idx s = Some sl →
  ∃ k pre suf,
    k < length rotation ∧
    rotation !! ((idx + k) mod length rotation) = Some (subject sl) ∧
    TEACHERS cat !! subject sl = Some (pre ++ teacher sl :: suf) ∧
    isTeacherFree (teacher sl) day period s = true ∧
    (∀ t, t ∈ pre → isTeacherFree t day period s = false) ∧
    (∀ j, j < k → slotFor day period s rotation idx j = None).
Proof.
  unfold assignSlot. intros (before & k & after & Hseq & Hk & Hbefore)%firstSome_Some.
  assert (k ∈ seq 0 (length rotation)) as Hin.
  { rewrite Hseq. apply elem_of_app. right. by left. }
  apply elem_of_seq in Hin.
  assert (before = seq 0 k) as ->.
  { assert (length before = k) as <-.
    { assert (seq 0 (length rotation) !! length before = Some k) as Hlk.
      { rewrite Hseq. by rewrite list_lookup_middle. }
      apply lookup_seq in Hlk. lia. }
    assert (take (length before) (seq 0 (length rotation)) = before) as Htake.
    { rewrite Hseq. by rewrite take_app_length. }
    rewrite <- Htake at 1. rewrite take_seq. f_equal. lia. }
  unfold slotFor in Hk.
  destruct (rotation !! ((idx + k) mod length rotation)) as [subj|] eqn:Hsubj; [|done].
  simpl in Hk.
  destruct (firstFreeTeacher day period s subj) as [t|] eqn:Hfree; [|done].
  injection Hk as <-. simpl.
  destruct (firstFreeTeacher_Some _ _ _ _ _ Hfree) as (pre & suf & Hts & Ht & Hpre).
  exists k, pre, suf. split_and!; [lia|done..|].
  intros j Hj. apply Hbefore. apply elem_of_seq. lia.
Qed.

(** ** Every rotation entry is a candidate *)

Lemma rotation_covered N idx i :
  i < N → ∃ k, k < N ∧ (idx + k) mod N = i.
Proof.
  intros Hi. pose proof (Nat.div_mod_eq idx N) as Hdiv.
  assert (idx mod N < N) as Hr by (apply Nat.mod_upper_bound; lia).
  destruct (decide (idx mod N ≤ i)) as [Hle|Hgt].
  - exists (i - idx mod N). split; [lia|].
    symmetry. apply (Nat.mod_unique _ _ (idx / N)); lia.
  - exists (i + N - idx mod N). split; [lia|].
    symmetry. apply (Nat.mod_unique _ _ (S (idx / N))); lia.
Qed.

Lemma assignSlot_None day period rotation idx s subj ts :
  assignSlot day period rotation idx s = None →
  subj ∈ rotation →
  TEACHERS cat !! subj = Some ts →
  ∀ t, t ∈ ts → isTeacherFree t day period s = false.
Proof.
  unfold assignSlot. rewrite firstSome_None. intros Hall Hsubj Hts.
  apply list_elem_of_lookup in Hsubj as [i Hi].
  destruct (rotation_covered (length rotation) idx i) as (k & Hk & Hmod).
  { by eapply lookup_lt_Some. }
  specialize (Hall k). unfold slotFor in Hall. rewrite Hmod, Hi in Hall. simpl in Hall.
  apply (firstFreeTeacher_None _ _ _ _ _ Hts).
  destruct (firstFreeTeacher day period s subj); [|done].
  discriminate Hall. apply elem_of_seq. lia.
Qed.

(** ** With more subjects than classes a slot is never left free *)

Lemma distinct_bookings s day period (l : list Subject) :
  NoDup (firstTeacher <$> l) →
  (∀ subj, subj ∈ l →
     ∃ c sl, c ∈ CLASSES cat ∧ cell s c day (Num period) = Some (Assigned sl) ∧
             firstTeacher subj = Some (teacher sl)) →
  ∃ cl : list ClassName,
    NoDup cl ∧ length cl = length l ∧
    ∀ c, c ∈ cl →
      c ∈ CLASSES cat ∧
      ∃ subj sl, subj ∈ l ∧ cell s c day (Num period) = Some (Assigned sl) ∧
                 firstTeacher subj = Some (teacher sl).
Proof.
  induction l as [|subj l IH]; intros Hnd Hbooked.
  - exists []. split_and!; [constructor|done|]. intros c Hc. by inv Hc.
  - rewrite fmap_cons in Hnd. apply NoDup_cons in Hnd as [Hfresh Hnd].
    destruct IH as (cl & Hcl & Hlen & Hall); [done| |].
    { intros subj' Hsubj'. apply Hbooked. by right. }
    destruct (Hbooked subj) as (c & sl & Hc & Hcell & Hfirst); [by left|].
    exists (c :: cl). split_and!.
    + apply NoDup_cons. split; [|done]. intros Hin.
      destruct (Hall c Hin) as (_ & subj' & sl' & Hsubj' & Hcell' & Hfirst').
      apply Hfresh. rewrite Hcell in Hcell'. injection Hcell' as <-.
      rewrite Hfirst, <- Hfirst'. apply list_elem_of_fmap. eauto.
    + simpl. by rewrite Hlen.
    + intros c' Hc'. inv Hc'.
      * split; [done|]. exists subj, sl. split_and!; [by left|done..].
      * destruct (Hall c') as (? & subj' & sl' & ? & ? & ?); [done|].
        split; [done|]. exists subj', sl'. split_and!; [by right|done..].
Qed.

Lemma abundant_never_free day period rotation idx s :
  abundant = true →
  rotation ≡ₚ SUBJECTS cat →
  assignSlot day period rotation idx s = None →
  False.
Proof.
  unfold abundant. intros Hab Hperm Hnone.
  apply andb_prop in Hab as [Hab Hmore]. apply andb_prop in Hab as [Hnd Hfirst].
  apply bool_decide_eq_true in Hnd, Hmore.
  rewrite forallb_forall in Hfirst.
  destruct (distinct_bookings s day period (SUBJECTS cat) Hnd) as (cl & Hcl & Hlen & Hall).
  { intros subj Hsubj.
    assert (is_Some (firstTeacher subj)) as [t Ht].
    { apply list_elem_of_In, Hfirst in Hsubj. by apply bool_decide_eq_true in Hsubj. }
    unfold firstTeacher in Ht.
    destruct (TEACHERS cat !! subj) as [ts|] eqn:Hts; [|done]. simpl in Ht.
    destruct ts as [|t' ts]; [done|]. injection Ht as ->.
    assert (isTeacherFree t day period s = false) as Hbusy.
    { eapply assignSlot_None; [done| |done|by left]. by rewrite Hperm. }
    apply isTeacherFree_false in Hbusy as (c & sl & Hc & Hcell & <-).
    exists c, sl. split_and!; [done..|]. unfold firstTeacher. by rewrite Hts. }
  assert (length cl ≤ length (CLASSES cat)) as Hle.
  { apply submseteq_length, NoDup_submseteq; [done|]. intros c Hc. by apply Hall. }
  lia.
Qed.

(** ** Writes that keep the store sound *)

Lemma snapshots_mutated tr s : snapshots (tr ++ [Mutated s]) = snapshots tr ++ [s].
Proof. unfold snapshots. by rewrite omap_app. Qed.

Lemma rotations_mutated tr s : rotations (tr ++ [Mutated s]) = rotations tr.
Proof. unfold rotations. rewrite omap_app. simpl. by rewrite app_nil_r. Qed.

Lemma snapshots_shuffled tr cls day l :
  snapshots (tr ++ [Shuffled cls day l]) = snapshots tr.
Proof. unfold snapshots. rewrite omap_app. simpl. by rewrite app_nil_r. Qed.

Lemma rotations_shuffled tr cls day l :
  rotations (tr ++ [Shuffled cls day l]) = rotations tr ++ [(cls, day, l)].
Proof. unfold rotations. by rewrite omap_app. Qed.

Lemma rotations_trace_mutated s' σ :
  rotations (trace (mutated s' σ)) = rotations (trace σ).
Proof. apply rotations_mutated. Qed.

Lemma writeCell_noop (s : FullSchedule) cls day p v :
  dayOf s cls day = None → writeCell s cls day p v = s.
Proof.
  unfold writeCell, dayOf. destruct (s !! cls) as [cs|]; [|done]. simpl.
  by intros ->.
Qed.

Lemma fewer_writeCell (s : FullSchedule) cls day p v :
  (∀ sl, v ≠ Assigned sl) → fewerAssignments (writeCell s cls day p v) s.
Proof.
  intros Hv c d q sl. destruct (dayOf s cls day) as [ds|] eqn:Hds.
  - rewrite cell_writeCell by eauto. case_decide; [|done]. intros [= ->]. by destruct (Hv sl).
  - by rewrite writeCell_noop.
Qed.

Lemma fewer_insert_class (s : FullSchedule) cls :
  fewerAssignments (<[cls := ∅]> s) s.
Proof. intros c d q sl. rewrite cell_insert_class_empty. by case_decide. Qed.

Lemma fewer_insert_day (s : FullSchedule) cls cs day :
  s !! cls = Some cs → fewerAssignments (<[cls := <[day := ∅]> cs]> s) s.
Proof. intros Hcs c d q sl. rewrite cell_insert_day_empty by done. by case_decide. Qed.

Lemma sound_mutated_fewer σ s' :
  sound σ →
  fewerAssignments s' (newSchedule σ) →
  keysAreClasses s' →
  sound (mutated s' σ).
Proof.
  intros (Hkeys & Hndb & Hhist & Hvalid & Hrot) Hfewer Hkeys'.
  assert (noDoubleBooking s') as Hndb'.
  { intros day p c1 c2 sl1 sl2 Hne H1 H2. eapply Hndb; eauto. }
  unfold sound, mutated. simpl. split_and!; [done..| | |].
  - rewrite snapshots_mutated. apply Forall_app. split; [done|]. by constructor.
  - intros c day p sl Hcell. eapply Hvalid; eauto.
  - unfold rotationsPermute. by rewrite rotations_mutated.
Qed.

Lemma cell_is_key (s : FullSchedule) c day p v :
  cell s c day p = Some v → is_Some (s !! c).
Proof. unfold cell, dayOf. by destruct (s !! c). Qed.

Lemma sound_mutated_assign σ cls day period sl :
  sound σ →
  is_Some (dayOf (newSchedule σ) cls day) →
  isTeacherFree (teacher sl) day period (newSchedule σ) = true →
  validSlot sl →
  sound (mutated (writeCell (newSchedule σ) cls day (Num period) (Assigned sl)) σ).
Proof.
  intros (Hkeys & Hndb & Hhist & Hvalid & Hrot) Hday Hfree Hsl.
  rewrite isTeacherFree_true in Hfree.
  assert (noDoubleBooking (writeCell (newSchedule σ) cls day (Num period) (Assigned sl)))
    as Hndb'.
  { intros d p c1 c2 sl1 sl2 Hne. rewrite !cell_writeCell by done.
    destruct (decide (c1 = cls ∧ d = day ∧ p = Num period)) as [(-> & -> & ->)|H1].
    - rewrite decide_False by (by intros (? & _)).
      intros [= <-] Hc2. apply not_eq_sym. eapply Hfree; [|done].
      apply Hkeys. by eapply cell_is_key.
    - destruct (decide (c2 = cls ∧ d = day ∧ p = Num period)) as [(-> & -> & ->)|H2].
      + intros Hc1 [= <-]. eapply Hfree; [|done]. apply Hkeys. by eapply cell_is_key.
      + by apply Hndb. }
  unfold sound, mutated. simpl. split_and!; [|done| | |].
  - intros c Hc. apply Hkeys. by apply keys_writeCell in Hc.
  - rewrite snapshots_mutated. apply Forall_app. split; [done|]. by constructor.
  - intros c d p sl'. rewrite cell_writeCell by done. case_decide.
    + by intros [= <-].
    + apply Hvalid.
  - unfold rotationsPermute. by rewrite rotations_mutated.
Qed.

(** ** Initialisation fills the grid *)

Lemma covered_mono (X X' : ClassName → Day → Period → Prop) s :
  (∀ c day p, X' c day p → X c day p) → covered X s → covered X' s.
Proof. intros Hsub Hcov c day p HX. by apply Hcov, Hsub. Qed.

Lemma covered_writeCell (X : ClassName → Day → Period → Prop) s cls day p v :
  is_Some (dayOf s cls day) →
  holds p v →
  covered X s →
  covered (λ c d q, X c d q ∨ (c = cls ∧ d = day ∧ q = p)) (writeCell s cls day p v).
Proof.
  intros Hday Hv Hcov c d q HX. rewrite cell_writeCell by done.
  case_decide as Heq.
  - destruct Heq as (-> & -> & ->). eauto.
  - destruct HX as [HX|HX]; [by apply Hcov|done].
Qed.

Lemma covered_insert_class (X : ClassName → Day → Period → Prop) (s : FullSchedule) cls :
  (∀ d q, ¬ X cls d q) → covered X s → covered X (<[cls := ∅]> s).
Proof.
  intros Hout Hcov c d q HX. rewrite cell_insert_class_empty.
  case_decide as Heq; [subst; by destruct (Hout d q)|by apply Hcov].
Qed.

Lemma covered_insert_day (X : ClassName → Day → Period → Prop)
    (s : FullSchedule) cls cs day :
  s !! cls = Some cs →
  (∀ q, ¬ X cls day q) → covered X s → covered X (<[cls := <[day := ∅]> cs]> s).
Proof.
  intros Hcs Hout Hcov c d q HX. rewrite cell_insert_day_empty by done.
  case_decide as Heq; [destruct Heq as [-> ->]; by destruct (Hout q)|by apply Hcov].
Qed.

Lemma keys_insert_class (s : FullSchedule) cls cs :
  cls ∈ CLASSES cat → keysAreClasses s → keysAreClasses (<[cls := cs]> s).
Proof.
  intros Hcls Hkeys c. destruct (decide (c = cls)) as [->|Hne]; [done|].
  rewrite lookup_insert_ne by done. apply Hkeys.
Qed.

Lemma keys_writeCell_all (s : FullSchedule) cls day p v :
  keysAreClasses s → keysAreClasses (writeCell s cls day p v).
Proof. intros Hkeys c Hc. apply Hkeys. by apply keys_writeCell in Hc. Qed.

Lemma initPeriod_post R X cls day p σ :
  initialised R X σ →
  is_Some (dayOf (newSchedule σ) cls day) →
  post (initPeriod cls day p σ)
    (λ _ σ', initialised R (λ c d q, X c d q ∨ (c = cls ∧ d = day ∧ q = p)) σ' ∧
             is_Some (dayOf (newSchedule σ') cls day))
    (λ _, False).
Proof.
  intros (Hsound & HR & Hcov) [ds Hds].
  assert (∀ v, holds p v → (∀ sl, v ≠ Assigned sl) →
    post (setSlot cls day p v σ)
      (λ _ σ', initialised R (λ c d q, X c d q ∨ (c = cls ∧ d = day ∧ q = p)) σ' ∧
               is_Some (dayOf (newSchedule σ') cls day))
      (λ _, False)) as Hset.
  { intros v Hv Hna. rewrite setSlot_eq, Hds. simpl. split; [split_and!|].
    - apply sound_mutated_fewer; [done|by apply fewer_writeCell|].
      apply keys_writeCell_all, Hsound.
    - by rewrite rotations_trace_mutated.
    - apply covered_writeCell; eauto.
    - apply hasDay_writeCell. eauto. }
  destruct p as [n| |]; simpl; apply Hset; simpl; eauto.
Qed.

Lemma initDay_post R X cls day σ :
  initialised R X σ →
  (∀ q, ¬ X cls day q) →
  cls ∈ CLASSES cat →
  is_Some (newSchedule σ !! cls) →
  post (bind (initDay cls day) (λ _, forEach PERIODS (initPeriod cls day)) σ)
    (λ _ σ', initialised R (λ c d q, X c d q ∨ (c = cls ∧ d = day ∧ q ∈ PERIODS)) σ' ∧
             is_Some (newSchedule σ' !! cls))
    (λ _, False).
Proof.
  intros (Hsound & HR & Hcov) Hout Hcls [cs Hcs].
  apply post_bind. rewrite initDay_eq, Hcs. cbn [post].
  eapply post_mono;
    [apply (forEach_post (λ pre σ',
       initialised R (λ c d q, X c d q ∨ (c = cls ∧ d = day ∧ q ∈ pre)) σ' ∧
       is_Some (dayOf (newSchedule σ') cls day)) (λ _, False))| |done].
  - intros pre p suf σ' _ [Hini Hday].
    eapply post_mono; [by apply initPeriod_post| |done].
    intros _ σ'' [(Hsound'' & HR'' & Hcov'') Hday'']. split; [|done].
    split_and!; [done..|]. eapply covered_mono; [|done]. simpl.
    intros c d q [HX|(-> & -> & Hq)]; [by left; left|].
    apply elem_of_app in Hq as [Hq|Hq]; [left; right; done|].
    apply list_elem_of_singleton in Hq as ->. by right.
  - simpl. split; [split_and!|].
    + apply sound_mutated_fewer; [done|by apply fewer_insert_day|].
      apply keys_insert_class; [done|apply Hsound].
    + by rewrite rotations_trace_mutated.
    + eapply covered_mono; [|by apply covered_insert_day].
      intros c d q [HX|(_ & _ & Hq)]; [done|]. by inv Hq.
    + rewrite dayOf_insert_day by done. rewrite decide_True by done. eauto.
  - intros _ σ' [Hini [ds Hds]]. split; [done|].
    unfold dayOf in Hds. by destruct (newSchedule σ' !! cls).
Qed.

Lemma initClass_post R X cls σ :
  initialised R X σ →
  cls ∈ CLASSES cat →
  post (bind (initClass cls)
          (λ _, forEach (DAYS cat) (λ day,
             bind (initDay cls day) (λ _, forEach PERIODS (initPeriod cls day)))) σ)
    (λ _ σ', initialised R
       (λ c d q, (X c d q ∧ c ≠ cls) ∨ (c = cls ∧ d ∈ DAYS cat ∧ q ∈ PERIODS)) σ')
    (λ _, False).
Proof.
  intros (Hsound & HR & Hcov) Hcls.
  apply post_bind. rewrite initClass_eq. cbn [post].
  eapply post_mono;
    [apply (forEach_post (λ pre σ',
       initialised R
         (λ c d q, (X c d q ∧ c ≠ cls) ∨ (c = cls ∧ d ∈ pre ∧ q ∈ PERIODS)) σ' ∧
       is_Some (newSchedule σ' !! cls)) (λ _, False))| |done].
  - intros pre day suf σ' _ [Hini Hkey].
    (* a day listed twice is reset and refilled *)
    destruct Hini as (Hsound' & HR' & Hcov').
    eapply post_mono;
      [apply (initDay_post R
         (λ c d q, (X c d q ∧ c ≠ cls) ∨ (c = cls ∧ d ∈ pre ∧ d ≠ day ∧ q ∈ PERIODS)))
      | |done]; [| |done..|].
    + split_and!; [done..|]. eapply covered_mono; [|done]. simpl.
      intros c d q [HX|(-> & Hd & _ & Hq)]; [by left|by right].
    + intros q [[_ Hne]|(_ & _ & Hne & _)]; done.
    + intros _ σ'' [(Hsound'' & HR'' & Hcov'') Hkey'']. split; [|done].
      split_and!; [done..|]. eapply covered_mono; [|done]. simpl.
      intros c d q [HX|(-> & Hd & Hq)]; [by left; left|].
      destruct (decide (d = day)) as [->|Hne]; [by right|].
      left. right. split_and!; [done| |done..].
      apply elem_of_app in Hd as [Hd|Hd]; [done|].
      by apply list_elem_of_singleton in Hd.
  - simpl. split; [split_and!|].
    + apply sound_mutated_fewer; [done|by apply fewer_insert_class|].
      apply keys_insert_class; [done|apply Hsound].
    + by rewrite rotations_trace_mutated.
    + eapply covered_mono; [|apply (covered_insert_class (λ c d q, X c d q ∧ c ≠ cls))].
      * intros c d q [HX|(_ & Hd & _)]; [done|]. by inv Hd.
      * intros d q [_ Hne]. done.
      * eapply covered_mono; [|done]. by intros c d q [HX _].
    + rewrite lookup_insert_eq. eauto.
  - by intros _ σ' [Hini _].
Qed.

Lemma initSchedule_post R σ :
  initialised R (λ _ _ _, False) σ →
  post (initSchedule σ)
    (λ _ σ', sound σ' ∧ rotations (trace σ') = R ∧ gridComplete (newSchedule σ'))
    (λ _, False).
Proof.
  intros Hini. unfold initSchedule.
  eapply post_mono;
    [apply (forEach_post (λ pre σ',
       initialised R (λ c d q, c ∈ pre ∧ d ∈ DAYS cat ∧ q ∈ PERIODS) σ') (λ _, False))| |done].
  - intros pre cls suf σ' Hl (Hsound' & HR' & Hcov').
    eapply post_mono; [apply (initClass_post R
      (λ c d q, c ∈ pre ∧ d ∈ DAYS cat ∧ q ∈ PERIODS))| |done].
    + done.
    + rewrite Hl. apply elem_of_app. right. by left.
    + intros _ σ'' (Hsound'' & HR'' & Hcov''). split_and!; [done..|].
      eapply covered_mono; [|done]. simpl.
      intros c d q (Hc & Hd & Hq). destruct (decide (c = cls)) as [->|Hne]; [by right|].
      left. split_and!; [|done..].
      apply elem_of_app in Hc as [Hc|Hc]; [done|].
      by apply list_elem_of_singleton in Hc.
  - destruct Hini as (Hsound & HR & Hcov). split_and!; [done..|].
    intros c d q (Hc & _). by inv Hc.
  - intros _ σ' (Hsound' & HR' & Hcov'). split_and!; [done..|].
    intros cls day p Hcls Hday Hp. by apply Hcov'.
Qed.

(** ** The assignment phase *)

Lemma gridComplete_hasDay s c day :
  gridComplete s → c ∈ CLASSES cat → day ∈ DAYS cat → is_Some (dayOf s c day).
Proof.
  intros Hgrid Hc Hday. destruct (Hgrid c day Recess) as (v & Hv & _); [done..| |].
  { unfold PERIODS. in_list. }
  unfold cell in Hv. by destruct (dayOf s c day).
Qed.

Lemma gridComplete_ready s day : gridComplete s → day ∈ DAYS cat → ready s day.
Proof. intros Hgrid Hday c Hc. by apply gridComplete_hasDay. Qed.

Lemma gridComplete_writeCell s cls day n v :
  gridComplete s → holds (Num n) v → gridComplete (writeCell s cls day (Num n) v).
Proof.
  intros Hgrid Hv c d q Hc Hd Hq.
  destruct (dayOf s cls day) as [ds|] eqn:Hds.
  - rewrite cell_writeCell by eauto. case_decide as Heq; [|by apply Hgrid].
    destruct Heq as (_ & _ & ->). eauto.
  - rewrite writeCell_noop by done. by apply Hgrid.
Qed.

Lemma teachersListed_listed rotation :
  teachersListed = true → rotation ≡ₚ SUBJECTS cat → listed rotation.
Proof.
  unfold teachersListed. rewrite forallb_forall. intros Hall Hperm subj Hsubj.
  rewrite Hperm in Hsubj. apply list_elem_of_In, Hall in Hsubj.
  by apply bool_decide_eq_true in Hsubj.
Qed.

Lemma assigning_mono Y (X X' : ClassName → Day → nat → Prop) σ :
  (∀ c day n, X' c day n → X c day n) → assigning Y X σ → assigning Y X' σ.
Proof.
  intros Hsub (Hsound & Hgrid & HY & Hfilled). split_and!; [done..|].
  intros Hab c day n HX. by apply Hfilled, Hsub.
Qed.

Lemma filled_writeCell s cls day n sl c d m :
  is_Some (dayOf s cls day) →
  filled s c d m ∨ (c = cls ∧ d = day ∧ m = n) →
  filled (writeCell s cls day (Num n) (Assigned sl)) c d m.
Proof.
  intros Hday Hc. unfold filled. rewrite cell_writeCell by done.
  case_decide as Heq; [eauto|]. destruct Hc as [Hc|(-> & -> & ->)]; [done|].
  by destruct Heq.
Qed.

Lemma assignPeriod_step Y X cls day rotation idx n σ :
  cls ∈ CLASSES cat →
  day ∈ DAYS cat →
  rotation ≡ₚ SUBJECTS cat →
  assigning Y X σ →
  post (assignPeriod cls day rotation idx n σ)
    (λ _ σ', assigning Y (λ c d m, X c d m ∨ (c = cls ∧ d = day ∧ m = n)) σ')
    failed.
Proof.
  intros Hcls Hday Hperm (Hsound & Hgrid & HY & Hfilled).
  eapply post_mono; [apply assignPeriod_post| |].
  - intros idx' σ' [Hhas Hcase].
    destruct (assignSlot day n rotation idx (newSchedule σ)) as [sl|] eqn:Hslot.
    + destruct Hcase as [-> ->].
      destruct (assignSlot_Some _ _ _ _ _ _ Hslot)
        as (k & pre & suf & Hk & Hsubj & Hts & Hfree & _).
      split_and!.
      * apply sound_mutated_assign; [done..|]. split.
        -- rewrite <- Hperm. by eapply list_elem_of_lookup_2.
        -- eexists. split; [done|]. apply elem_of_app. right. by left.
      * apply gridComplete_writeCell; [done|]. right. eauto.
      * by rewrite rotations_trace_mutated.
      * intros Hab c d m HX. apply filled_writeCell; [done|].
        destruct HX as [HX|HX]; [left; by apply Hfilled|by right].
    + destruct Hcase as (-> & -> & _). split_and!.
      * apply sound_mutated_fewer; [done|by apply fewer_writeCell|].
        apply keys_writeCell_all, Hsound.
      * apply gridComplete_writeCell; [done|]. by left.
      * by rewrite rotations_trace_mutated.
      * intros Hab. by destruct (abundant_never_free day n rotation idx (newSchedule σ)).
  - intros σ' [-> Hnot]. split_and!; [done..|].
    destruct teachersListed eqn:Hlisted; [|done]. destruct Hnot. split_and!.
    + by apply gridComplete_ready.
    + by apply gridComplete_hasDay.
    + by apply teachersListed_listed.
Qed.

Lemma sound_shuffled σ r cls day rotation :
  sound σ →
  rotation ≡ₚ SUBJECTS cat →
  sound {| newSchedule := newSchedule σ; rng := r;
           trace := trace σ ++ [Shuffled cls day rotation] |}.
Proof.
  intros (Hkeys & Hndb & Hhist & Hvalid & Hrot) Hperm.
  unfold sound. simpl. split_and!; [done..| |done|].
  - by rewrite snapshots_shuffled.
  - unfold rotationsPermute. rewrite rotations_shuffled.
    apply Forall_app. split; [done|]. by constructor.
Qed.

Lemma assignDay_step Y X cls day σ :
  cls ∈ CLASSES cat →
  day ∈ DAYS cat →
  assigning Y X σ →
  post (assignDay cls day σ)
    (λ _ σ', assigning (Y ++ [(cls, day)])
               (λ c d m, X c d m ∨ (c = cls ∧ d = day ∧ m ∈ teachingPeriods)) σ')
    failed.
Proof.
  intros Hcls Hday (Hsound & Hgrid & HY & Hfilled).
  unfold assignDay. apply post_bind. unfold shuffleSubjects.
  pose proof (sortRandom_perm E (SUBJECTS cat) (rng σ)) as Hperm.
  destruct (sortRandom E (SUBJECTS cat) (rng σ)) as [rotation r]. simpl in Hperm.
  cbn [post]. apply post_bind. unfold assignPeriods.
  eapply post_mono;
    [apply (forEachWith_post (λ pre (_ : nat) σ',
       assigning (Y ++ [(cls, day)])
         (λ c d m, X c d m ∨ (c = cls ∧ d = day ∧ m ∈ pre)) σ') failed)| |done].
  - intros pre n suf idx σ' _ Hasg.
    eapply post_mono; [by apply assignPeriod_step| |done].
    intros idx' σ''. apply assigning_mono. simpl.
    intros c d m [HX|(-> & -> & Hm)]; [by left; left|].
    apply elem_of_app in Hm as [Hm|Hm]; [left; right; done|].
    apply list_elem_of_singleton in Hm as ->. by right.
  - split_and!.
    + by apply sound_shuffled.
    + done.
    + simpl. rewrite rotations_shuffled, fmap_app. simpl. by rewrite HY.
    + simpl. intros Hab c d m [HX|(_ & _ & Hm)]; [by apply Hfilled|by inv Hm].
  - intros idx' σ' Hasg. done.
Qed.

Lemma assignAll_post σ :
  assigning [] (λ _ _ _, False) σ →
  post (assignAll σ)
    (λ _ σ', assigning classDays
               (λ c d m, c ∈ CLASSES cat ∧ d ∈ DAYS cat ∧ m ∈ teachingPeriods) σ')
    failed.
Proof.
  intros Hasg. unfold assignAll.
  eapply post_mono;
    [apply (forEach_post (λ pre σ',
       assigning (cls ← pre; (λ day, (cls, day)) <$> DAYS cat)
         (λ c d m, c ∈ pre ∧ d ∈ DAYS cat ∧ m ∈ teachingPeriods) σ') failed)| |done].
  - intros pre cls suf σ' Hl Hpre.
    assert (cls ∈ CLASSES cat) as Hcls.
    { rewrite Hl. apply elem_of_app. right. by left. }
    eapply post_mono;
      [apply (forEach_post (λ dpre σ'',
         assigning ((cls' ← pre; (λ day, (cls', day)) <$> DAYS cat) ++
                    ((λ day, (cls, day)) <$> dpre))
           (λ c d m, (c ∈ pre ∧ d ∈ DAYS cat ∧ m ∈ teachingPeriods) ∨
                     (c = cls ∧ d ∈ dpre ∧ m ∈ teachingPeriods)) σ'') failed)| |done].
    + intros dpre day dsuf σ'' Hd Hdpre.
      assert (day ∈ DAYS cat) as Hday.
      { rewrite Hd. apply elem_of_app. right. by left. }
      eapply post_mono; [by apply assignDay_step| |done].
      intros [] σ3. rewrite fmap_app, app_assoc. simpl. apply assigning_mono.
      intros c d m [HX|(-> & Hin & Hm)]; [by left; left|].
      apply elem_of_app in Hin as [Hin|Hin]; [left; right; done|].
      apply list_elem_of_singleton in Hin as ->. by right.
    + simpl. rewrite app_nil_r. eapply assigning_mono; [|done].
      intros c d m [HX|(_ & Hin & _)]; [done|by inv Hin].
    + intros [] σ''. rewrite bind_app, bind_singleton. apply assigning_mono.
      intros c d m (Hc & Hd & Hm).
      apply elem_of_app in Hc as [Hc|Hc]; [by left|].
      apply list_elem_of_singleton in Hc as ->. by right.
  - simpl. eapply assigning_mono; [|done]. intros c d m (Hc & _). by inv Hc.
  - done.
Qed.

(** ** The whole of [buildSchedule] *)

Lemma sound_initialStore r : sound (initialStore r).
Proof.
  unfold sound, initialStore. simpl. split_and!.
  - intros c [cs Hcs]. by rewrite lookup_empty in Hcs.
  - intros day p c1 c2 sl1 sl2 _ H1. unfold cell, dayOf in H1.
    by rewrite lookup_empty in H1.
  - constructor.
  - intros c day p sl H1. unfold cell, dayOf in H1. by rewrite lookup_empty in H1.
  - constructor.
Qed.

Lemma buildSchedule_post r :
  post (runBuildSchedule r)
    (λ s σ, s = newSchedule σ ∧
            assigning classDays
              (λ c d m, c ∈ CLASSES cat ∧ d ∈ DAYS cat ∧ m ∈ teachingPeriods) σ)
    failed.
Proof.
  unfold runBuildSchedule, buildSchedule. apply post_bind.
  eapply post_mono; [apply (initSchedule_post [])| |done].
  - split_and!; [apply sound_initialStore|done|]. by intros c d p [].
  - intros _ σ (Hsound & HR & Hgrid). apply post_bind.
    eapply post_mono; [apply assignAll_post| |done].
    + split_and!; [done..|by rewrite HR|]. by intros _ c d m [].
    + intros [] σ' Hasg. by split.
Qed.

(** ** Counting subjects in a rotation *)

Lemma occurrences_absent subj (l : list Subject) :
  subj ∉ l → occurrences subj l = 0.
Proof.
  unfold occurrences. induction l as [|x l IH]; intros Hout; [done|].
  apply not_elem_of_cons in Hout as [Hne Hout].
  rewrite filter_cons_False by done. by apply IH.
Qed.

Lemma occurrences_NoDup subj (l : list Subject) :
  NoDup l → subj ∈ l → occurrences subj l = 1.
Proof.
  induction 1 as [|x l Hx Hnd IH]; intros Hin; [by inv Hin|].
  unfold occurrences. rewrite filter_cons. case_decide as Heq.
  - subst x. simpl. f_equal. by apply occurrences_absent.
  - apply IH. apply elem_of_cons in Hin as [->|Hin]; done.
Qed.

Lemma fullRotation_perm (l : list Subject) : l ≡ₚ SUBJECTS cat → fullRotation l.
Proof.
  intros Hperm. split_and!; [done| |].
  - intros subj. unfold occurrences. by rewrite Hperm.
  - intros Hnd subj Hsubj. apply occurrences_NoDup.
    + by rewrite Hperm.
    + by rewrite Hperm.
Qed.

Lemma teaching_in_PERIODS n : n ∈ teachingPeriods → Num n ∈ PERIODS.
Proof.
  unfold teachingPeriods, PERIODS. intros Hn.
  repeat (apply elem_of_cons in Hn as [->|Hn]); [in_list..|by inv Hn].
Qed.

(** ** The slot assigner, one slot at a time *)

Lemma canAssignTeacher_ready teacher0 day period σ :
  ready (newSchedule σ) day →
  canAssignTeacher teacher0 day period σ =
    Ok (isTeacherFree teacher0 day period (newSchedule σ)) σ.
Proof.
  intros Hready. pose proof (canAssignTeacher_post teacher0 day period σ) as Hpost.
  destruct (canAssignTeacher teacher0 day period σ) as [b σ'|e σ'|]; simpl in Hpost;
    [|by destruct Hpost..|done].
  by destruct Hpost as [-> ->].
Qed.

Lemma writeCell_same_value (s : FullSchedule) cls day p v :
  cell s cls day p = Some v → writeCell s cls day p v = s.
Proof.
  unfold cell, dayOf, writeCell. destruct (s !! cls) as [cs|] eqn:Hcs; [|done]. simpl.
  destruct (cs !! day) as [ds|] eqn:Hds; [|done]. simpl. intros Hv.
  rewrite (insert_id ds) by done. rewrite (insert_id cs) by done. by apply insert_id.
Qed.

Lemma slotFor_None_busy day period rotation idx j σ :
  ready (newSchedule σ) day →
  listed rotation →
  rotation ≠ [] →
  slotFor day period (newSchedule σ) rotation idx j = None →
  ∃ subj, rotation !! ((idx + j) mod length rotation) = Some subj ∧
          allBusy day period σ subj.
Proof.
  intros Hready Hlisted Hne Hnone.
  destruct (rotationEntry_in_range rotation (idx + j) σ Hne) as (subj & Hsubj & _).
  exists subj. split; [done|].
  destruct (Hlisted subj) as [ts Hts]; [by eapply list_elem_of_lookup_2|].
  exists ts. split; [done|]. intros t Ht. rewrite canAssignTeacher_ready by done.
  f_equal. unfold slotFor in Hnone. rewrite Hsubj in Hnone. simpl in Hnone.
  eapply firstFreeTeacher_None; [done| |done].
  by destruct (firstFreeTeacher day period (newSchedule σ) subj).
Qed.

Lemma whileAttempts_runnable cls day period rotation idx σ :
  runnable (newSchedule σ) cls day rotation →
  whileAttempts (length rotation) cls day period rotation idx false 0 σ =
    match assignSlot day period rotation idx (newSchedule σ) with
    | Some sl =>
        Ok true (mutated (writeCell (newSchedule σ) cls day (Num period) (Assigned sl)) σ)
    | None => Ok false σ
    end.
Proof.
  intros Hrun.
  pose proof (whileAttempts_post (length rotation) cls day period rotation idx 0 σ)
    as Hpost.
  rewrite Nat.sub_0_r in Hpost. unfold assignSlot.
  destruct (whileAttempts _ _ _ _ _ _ _ _ σ) as [b σ'|e σ'|];
    simpl in Hpost; [|by destruct Hpost as [_ []]; [lia|]|by destruct Hpost; lia].
  specialize (Hpost (le_n _)).
  destruct (firstSome _ _) as [sl|].
  - by destruct Hpost as (-> & _ & ->).
  - by destruct Hpost as (-> & -> & _).
Qed.

(** ** The rotation pointer *)

Lemma assignPeriod_Ok cls day rotation idx n σ idx' σ' :
  assignPeriod cls day rotation idx n σ = Ok idx' σ' →
  is_Some (dayOf (newSchedule σ) cls day) ∧
  ((∃ sl, idx' = S idx ∧
          σ' = mutated (writeCell (newSchedule σ) cls day (Num n) (Assigned sl)) σ) ∨
   (idx' = idx ∧
    σ' = mutated (writeCell (newSchedule σ) cls day (Num n) FreeMark) σ)).
Proof.
  intros Hrun. pose proof (assignPeriod_post cls day rotation idx n σ) as Hpost.
  rewrite Hrun in Hpost. simpl in Hpost. destruct Hpost as [Hday Hcase].
  split; [done|].
  destruct (assignSlot day n rotation idx (newSchedule σ)) as [sl|].
  - left. exists sl. by destruct Hcase.
  - right. by destruct Hcase as (-> & -> & _).
Qed.

Lemma assignPeriod_outcome cls day rotation idx n σ idx' σ' :
  assignPeriod cls day rotation idx n σ = Ok idx' σ' →
  (isObject (cell (newSchedule σ') cls day (Num n)) = true ∧ idx' = S idx) ∨
  (cell (newSchedule σ') cls day (Num n) = Some FreeMark ∧ idx' = idx).
Proof.
  intros (Hday & [(sl & -> & ->)|[-> ->]])%assignPeriod_Ok; simpl;
    rewrite cell_writeCell_same by done; [by left|by right].
Qed.

Lemma assignPeriod_frame cls day rotation idx n σ idx' σ' c d q :
  assignPeriod cls day rotation idx n σ = Ok idx' σ' →
  ¬ (c = cls ∧ d = day ∧ q = Num n) →
  cell (newSchedule σ') c d q = cell (newSchedule σ) c d q.
Proof.
  intros (Hday & [(sl & -> & ->)|[-> ->]])%assignPeriod_Ok Hne; simpl;
    by rewrite cell_writeCell_other.
Qed.

Lemma assignPeriods_cons cls day rotation idx n ps σ :
  assignPeriods cls day rotation idx (n :: ps) σ =
    bind (assignPeriod cls day rotation idx n)
         (λ idx', assignPeriods cls day rotation idx' ps) σ.
Proof. done. Qed.

Lemma assignPeriods_frame cls day rotation ps idx σ idx' σ' p :
  assignPeriods cls day rotation idx ps σ = Ok idx' σ' →
  p ∉ ps →
  cell (newSchedule σ') cls day (Num p) = cell (newSchedule σ) cls day (Num p).
Proof.
  revert idx σ. induction ps as [|n ps IH]; intros idx σ Hrun Hout.
  - by injection Hrun as _ ->.
  - apply not_elem_of_cons in Hout as [Hne Hout].
    rewrite assignPeriods_cons in Hrun. unfold bind in Hrun.
    destruct (assignPeriod cls day rotation idx n σ) as [idx1 σ1| |] eqn:Hstep; [|done..].
    rewrite (IH _ _ Hrun Hout). eapply assignPeriod_frame; [done|].
    intros (_ & _ & [= ->]). done.
Qed.

Lemma assignPeriods_free cls day rotation ps idx σ idx' σ' :
  NoDup ps →
  assignPeriods cls day rotation idx ps σ = Ok idx' σ' →
  (∀ p, p ∈ ps → cell (newSchedule σ') cls day (Num p) = Some FreeMark) →
  idx' = idx.
Proof.
  intros Hnd. revert idx σ. induction Hnd as [|n ps Hn Hnd IH]; intros idx σ Hrun Hfree.
  - by injection Hrun as -> _.
  - rewrite assignPeriods_cons in Hrun. unfold bind in Hrun.
    destruct (assignPeriod cls day rotation idx n σ) as [idx1 σ1| |] eqn:Hstep; [|done..].
    assert (idx' = idx1) as ->.
    { eapply IH; [done|]. intros p Hp. apply Hfree. by right. }
    pose proof (assignPeriods_frame _ _ _ _ _ _ _ _ n Hrun Hn) as Hsame.
    rewrite Hfree in Hsame by by left.
    destruct (assignPeriod_outcome _ _ _ _ _ _ _ _ Hstep) as [[Hobj _]|[_ ->]]; [|done].
    by rewrite <- Hsame in Hobj.
Qed.

(** ** Checking the preconditions on a given store by evaluation *)

Lemma ready_check s day :
  forallb (λ c, bool_decide (is_Some (dayOf s c day))) (CLASSES cat) = true →
  ready s day.
Proof.
  rewrite forallb_forall. intros Hall c Hc. apply list_elem_of_In, Hall in Hc.
  by apply bool_decide_eq_true in Hc.
Qed.

Lemma keysAreClasses_check (s : FullSchedule) :
  forallb (λ c, bool_decide (c ∈ CLASSES cat)) (map_to_list s).*1 = true →
  keysAreClasses s.
Proof.
  rewrite forallb_forall. intros Hall c [cs Hc].
  assert (In c (map_to_list s).*1) as Hin.
  { apply list_elem_of_In, list_elem_of_fmap. exists (c, cs).
    split; [done|]. by apply elem_of_map_to_list. }
  apply Hall in Hin. by apply bool_decide_eq_true in Hin.
Qed.

Lemma listed_check rotation :
  forallb (λ subj, bool_decide (is_Some (TEACHERS cat !! subj))) rotation = true →
  listed rotation.
Proof.
  rewrite forallb_forall. intros Hall subj Hsubj. apply list_elem_of_In, Hall in Hsubj.
  by apply bool_decide_eq_true in Hsubj.
Qed.

Lemma outcome_eta {A} (o : Outcome A) (a : A) σ0 :
  returned o = Some a → o = Ok a (storeAfter o σ0).
Proof. destruct o; simpl; [|done..]. by intros [= ->]. Qed.

(** ** The properties of the specification, on [buildSchedule] *)

(** C1. No double-booking: in every object graph a run of [buildSchedule]
    goes through (the empty one, and the one after each write) and in the
    schedule it returns, two distinct classes that both hold an assignment
    at the same day and period have different teachers. A run that raises
    has gone through such graphs only, too. *)
Theorem no_double_booking (r : Rng E) :
  post (runBuildSchedule r)
    (λ s σ, noDoubleBooking s ∧ Forall noDoubleBooking (statesDuring σ))
    (λ σ, Forall noDoubleBooking (statesDuring σ)).
Proof.
  assert (noDoubleBooking ∅) as Hempty.
  { intros day p c1 c2 sl1 sl2 _ H1. unfold cell, dayOf in H1.
    by rewrite lookup_empty in H1. }
  eapply post_mono; [apply buildSchedule_post| |].
  - intros s σ [-> ((_ & Hndb & Hhist & _) & _)]. split; [done|]. by constructor.
  - intros σ ((_ & _ & Hhist & _) & _). by constructor.
Qed.

(** C4. Grid completeness: the schedule [buildSchedule] returns has, for
    every class and day of the catalog and every period of the layout, an
    entry; Recess and Lunch hold their own marker and a teaching period
    holds an assignment or Free. The only way not to return is the
    exception raised at a subject that has no entry in [TEACHERS]. *)
Theorem grid_completeness (r : Rng E) :
  post (runBuildSchedule r)
    (λ s _, ∀ cls day p,
       cls ∈ CLASSES cat → day ∈ DAYS cat → p ∈ PERIODS →
       ∃ v, cell s cls day p = Some v ∧ holds p v)
    (λ _, teachersListed = false).
Proof.
  eapply post_mono; [apply buildSchedule_post| |].
  - by intros s σ [-> (_ & Hgrid & _)].
  - by intros σ (_ & _ & Hlisted).
Qed.

(** C7. Subject validity: in the schedule [buildSchedule] returns, the
    subject of every assignment is in [SUBJECTS] and its teacher is on the
    list [TEACHERS] has for that subject. *)
Theorem subject_validity (r : Rng E) :
  post (runBuildSchedule r)
    (λ s _, ∀ c day p sl,
       cell s c day p = Some (Assigned sl) →
       subject sl ∈ SUBJECTS cat ∧
       ∃ ts, TEACHERS cat !! subject sl = Some ts ∧ teacher sl ∈ ts)
    (λ _, teachersListed = false).
Proof.
  eapply post_mono; [apply buildSchedule_post| |].
  - by intros s σ [-> ((_ & _ & _ & Hvalid & _) & _)].
  - by intros σ (_ & _ & Hlisted).
Qed.

(** C8. The rotation is a permutation of the full catalog: a run of
    [buildSchedule] draws one rotation for each (class, day) pair, in the
    order of the loops, each by sorting a copy of [SUBJECTS] from the state
    the random source is in at that point; whatever the engine and the
    random source answer, each rotation drawn is a rearrangement of
    [SUBJECTS], with every subject as often as the catalog lists it (exactly
    once when the catalog has no repetition); and the rotation drawn for a
    pair is the one the period loop of that pair reads. *)
Theorem rotation_is_permutation (r : Rng E) :
  post (runBuildSchedule r)
    (λ _ σ, fst <$> rotations (trace σ) = classDays ∧
            Forall (λ x, fullRotation x.2) (rotations (trace σ)))
    (λ σ, Forall (λ x, fullRotation x.2) (rotations (trace σ))) ∧
  ∀ cls day σ,
    assignDay cls day σ =
      bind (assignPeriods cls day (sortRandom E (SUBJECTS cat) (rng σ)).1
              0 teachingPeriods) (λ _, ret tt)
        {| newSchedule := newSchedule σ;
           rng := (sortRandom E (SUBJECTS cat) (rng σ)).2;
           trace := trace σ ++
             [Shuffled cls day (sortRandom E (SUBJECTS cat) (rng σ)).1] |}.
Proof.
  split.
  - eapply post_mono; [apply buildSchedule_post| |].
    + intros s σ [-> ((_ & _ & _ & _ & Hrot) & _ & HY & _)]. split; [done|].
      eapply Forall_impl; [exact Hrot|]. intros x Hx. by apply fullRotation_perm.
    + intros σ ((_ & _ & _ & _ & Hrot) & _).
      eapply Forall_impl; [exact Hrot|]. intros x Hx. by apply fullRotation_perm.
  - intros cls day σ. unfold assignDay, bind at 1, shuffleSubjects.
    by destruct (sortRandom E (SUBJECTS cat) (rng σ)).
Qed.

(** C9. Totality: whatever the classes, days, subjects and teacher lists of
    the catalog, provided each subject has a teacher list, [buildSchedule]
    raises nothing and returns a grid with an entry for every class, day and
    period. With no subject at all every teaching period is Free. A subject
    with an empty teacher list leaves the [for] loop at once with the store
    and the flag as they were; and on an empty rotation the [while] loop
    returns at once, for any fuel, so the index modulo the rotation length
    is never computed. *)
Theorem buildSchedule_total (r : Rng E) :
  teachersListed = true →
  (∃ s σ, runBuildSchedule r = Ok s σ ∧
          gridComplete s ∧
          (SUBJECTS cat = [] →
           ∀ cls day n, cls ∈ CLASSES cat → day ∈ DAYS cat → n ∈ teachingPeriods →
                        cell s cls day (Num n) = Some FreeMark)) ∧
  (∀ cls day n subj assigned σ,
     forTeachers cls day n subj [] assigned σ = Ok assigned σ) ∧
  (∀ fuel cls day n idx σ,
     whileAttempts fuel cls day n [] idx false 0 σ = Ok false σ).
Proof.
  intros Hlisted. split_and!.
  - pose proof (buildSchedule_post r) as Hpost.
    destruct (runBuildSchedule r) as [s σ|e σ|]; simpl in Hpost; [|exfalso..].
    + destruct Hpost as [-> ((_ & _ & _ & Hvalid & _) & Hgrid & _)].
      exists (newSchedule σ), σ. split_and!; [done..|].
      intros Hnone cls day n Hcls Hday Hn.
      destruct (Hgrid cls day (Num n)) as (v & Hv & [->|[sl ->]]);
        [done..|by apply teaching_in_PERIODS|done|].
      destruct (Hvalid _ _ _ _ Hv) as [Hin _]. rewrite Hnone in Hin. by inv Hin.
    + destruct Hpost as (_ & _ & Hfalse). congruence.
    + done.
  - done.
  - intros. by apply whileAttempts_exhausted.
Qed.

(** ** The properties of the specification, on the components *)

(** C6. The availability query: on a schedule in progress (its keys are
    the classes of the catalog, each with a schedule for the day),
    [canAssignTeacher] returns; it answers false exactly when some class's
    slot at the day and period holds an assignment with the queried
    teacher, and true otherwise; the store after the call is the store
    before it. *)
Theorem canAssignTeacher_correct teacher0 day period σ :
  ready (newSchedule σ) day →
  keysAreClasses (newSchedule σ) →
  ∃ b, canAssignTeacher teacher0 day period σ = Ok b σ ∧
       (b = false ↔
          ∃ c sl, cell (newSchedule σ) c day (Num period) = Some (Assigned sl) ∧
                  teacher sl = teacher0) ∧
       (b = true ↔
          ∀ c sl, cell (newSchedule σ) c day (Num period) = Some (Assigned sl) →
                  teacher sl ≠ teacher0).
Proof.
  intros Hready Hkeys. pose proof (canAssignTeacher_post teacher0 day period σ) as Hpost.
  destruct (canAssignTeacher teacher0 day period σ) as [b σ'|e σ'|]; simpl in Hpost;
    [|by destruct Hpost..|done].
  destruct Hpost as [-> ->]. eexists. split_and!; [done| |].
  - rewrite isTeacherFree_false. split.
    + intros (c & sl & _ & Hcell & Ht). eauto.
    + intros (c & sl & Hcell & Ht). exists c, sl. split_and!; [|done..].
      apply Hkeys. by eapply cell_is_key.
  - rewrite isTeacherFree_true. split.
    + intros Hall c sl Hcell. eapply Hall; [|done]. apply Hkeys. by eapply cell_is_key.
    + intros Hall c sl _ Hcell. by eapply Hall.
Qed.

(** C5. The slot assigner: for a (class, day, teaching period) of a
    schedule in progress and a rotation of N subjects, either some candidate
    k < N, the rotation entry at index (startIndex + k) mod N, has a teacher
    reported free: then every earlier candidate had all its teachers
    reported busy, the teacher chosen is the first one of the candidate's
    list, in list order, that is reported free, the candidate loop ends
    there having written that (subject, teacher) pair into the slot and
    nothing else, and the pointer is advanced; or all N candidates have all
    their teachers reported busy: then the candidate loop ends with the
    store as it was, nothing written, the fallback stores Free in the slot
    and changes nothing else (the schedule is as before when the slot was
    Free already, as initialisation leaves it), and the pointer stays. *)
Theorem slot_assigner cls day period rotation idx σ :
  runnable (newSchedule σ) cls day rotation →
  (∃ k subj pre t suf σ',
     k < length rotation ∧
     rotation !! ((idx + k) mod length rotation) = Some subj ∧
     (∀ j, j < k →
        ∃ subj', rotation !! ((idx + j) mod length rotation) = Some subj' ∧
                 allBusy day period σ subj') ∧
     TEACHERS cat !! subj = Some (pre ++ t :: suf) ∧
     (∀ t', t' ∈ pre → canAssignTeacher t' day period σ = Ok false σ) ∧
     canAssignTeacher t day period σ = Ok true σ ∧
     whileAttempts (length rotation) cls day period rotation idx false 0 σ = Ok true σ' ∧
     assignPeriod cls day rotation idx period σ = Ok (S idx) σ' ∧
     onlyChange (newSchedule σ) (newSchedule σ') cls day (Num period)
       (Assigned (mkSlot subj t)))
  ∨
  (∃ σ',
     (∀ k, k < length rotation →
        ∃ subj, rotation !! ((idx + k) mod length rotation) = Some subj ∧
                allBusy day period σ subj) ∧
     whileAttempts (length rotation) cls day period rotation idx false 0 σ = Ok false σ ∧
     assignPeriod cls day rotation idx period σ = Ok idx σ' ∧
     onlyChange (newSchedule σ) (newSchedule σ') cls day (Num period) FreeMark ∧
     (cell (newSchedule σ) cls day (Num period) = Some FreeMark →
      newSchedule σ' = newSchedule σ)).
Proof.
  intros Hrunnable. pose proof Hrunnable as (Hready & Hday & Hlisted).
  pose proof (whileAttempts_runnable cls day period rotation idx σ Hrunnable) as Hloop.
  pose proof (assignPeriod_post cls day rotation idx period σ) as Hpost.
  destruct (assignPeriod cls day rotation idx period σ) as [idx' σ'|e σ'|];
    simpl in Hpost; [|by destruct Hpost as [_ []]|done].
  destruct Hpost as [_ Hcase].
  destruct (assignSlot day period rotation idx (newSchedule σ)) as [sl|] eqn:Hslot.
  - left. destruct Hcase as [-> ->].
    destruct (assignSlot_Some _ _ _ _ _ _ Hslot)
      as (k & pre & suf & Hk & Hsubj & Hts & Hfree & Hpre & Hearlier).
    exists k, (subject sl), pre, (teacher sl), suf. eexists.
    split_and!; [done..| |done| | |done|done|].
    + intros j Hj. apply slotFor_None_busy; [done..| |by apply Hearlier].
      intros ->. simpl in Hk. lia.
    + intros t' Ht'. rewrite canAssignTeacher_ready by done. f_equal. by apply Hpre.
    + rewrite canAssignTeacher_ready by done. by f_equal.
    + intros c d q. simpl. rewrite cell_writeCell by done. by destruct sl.
  - right. destruct Hcase as (-> & -> & _). eexists. split_and!; [|done|done| |].
    + intros k Hk. apply slotFor_None_busy; [done..| |].
      * intros ->. simpl in Hk. lia.
      * unfold assignSlot in Hslot. rewrite firstSome_None in Hslot.
        apply Hslot, elem_of_seq. lia.
    + intros c d q. simpl. by rewrite cell_writeCell.
    + intros Hfree. simpl. by apply writeCell_same_value.
Qed.

End Properties.

(** ** The built-in catalog *)

Lemma builtin_abundant : abundant (cat:=builtin) = true.
Proof. vm_compute. reflexivity. Qed.

Lemma builtin_teachersListed : teachersListed (cat:=builtin) = true.
Proof. vm_compute. reflexivity. Qed.

(** C10. No Free slot under the built-in catalog: it has 3 classes and 6
    subjects, every subject has a teacher, and the 10 teachers named on the
    six lists are pairwise distinct; for every engine and every state of
    the random source [buildSchedule] returns, and every teaching period 1
    to 6 of every class on every day holds an assignment. The fallback is
    never taken: on any schedule in progress and for any rearrangement of
    the six subjects, the candidate loop ends with [assigned] true. *)
Theorem builtin_no_free_slot (E : Engine) (r : Rng E) :
  length (CLASSES builtin) = 3 ∧
  length (SUBJECTS builtin) = 6 ∧
  Forall (λ subj, ∃ t ts, TEACHERS builtin !! subj = Some (t :: ts)) (SUBJECTS builtin) ∧
  NoDup (subj ← SUBJECTS builtin; default [] (TEACHERS builtin !! subj)) ∧
  length (subj ← SUBJECTS builtin; default [] (TEACHERS builtin !! subj)) = 10 ∧
  (∃ s σ, runBuildSchedule (cat:=builtin) r = Ok s σ ∧
          ∀ cls day n,
            cls ∈ CLASSES builtin → day ∈ DAYS builtin → n ∈ teachingPeriods →
            ∃ sl, cell s cls day (Num n) = Some (Assigned sl)) ∧
  (∀ cls day period rotation idx (σ : Store),
     runnable (cat:=builtin) (newSchedule σ) cls day rotation →
     rotation ≡ₚ SUBJECTS builtin →
     ∃ σ', whileAttempts (cat:=builtin) (length rotation) cls day period
             rotation idx false 0 σ = Ok true σ').
Proof.
  split_and!; [done..| | | | |].
  - repeat constructor; eexists _, _; by vm_compute.
  - apply (bool_decide_unpack _). by vm_compute.
  - by vm_compute.
  - pose proof (buildSchedule_post (cat:=builtin) r) as Hpost.
    destruct (runBuildSchedule (cat:=builtin) r) as [s σ|e σ|]; simpl in Hpost.
    + destruct Hpost as [-> (_ & _ & _ & Hfilled)].
      exists (newSchedule σ), σ. split; [done|].
      intros cls day n Hcls Hday Hn. by apply (Hfilled builtin_abundant).
    + destruct Hpost as (_ & _ & Hfalse). by rewrite builtin_teachersListed in Hfalse.
    + done.
  - intros cls day period rotation idx σ Hrun Hperm.
    rewrite whileAttempts_runnable by done.
    destruct (assignSlot day period rotation idx (newSchedule σ)) as [sl|] eqn:Hslot;
      [by eexists|].
    by destruct (abundant_never_free (cat:=builtin) day period rotation idx
                   (newSchedule σ) builtin_abundant Hperm).
Qed.

(** ** Concrete runs *)

(** The built-in catalog on an empty tape (the sort leaves the subjects in
    catalog order): at period 1 of Monday the first class gets the first
    Math teacher, the second class the second one, and the third class,
    with both Math teachers taken, the first Science teacher. *)
Example builtin_monday_first_period :
  let o := runBuildSchedule (E:=InsertionEngine.engine) (cat:=builtin) [] in
  returnedCell o "Grade 10-A"%string "Monday"%string (Num 1)
    = Some (Assigned (mkSlot "Math"%string "Mr. Smith"%string)) ∧
  returnedCell o "Grade 10-B"%string "Monday"%string (Num 1)
    = Some (Assigned (mkSlot "Math"%string "Ms. Davis"%string)) ∧
  returnedCell o "Grade 11-A"%string "Monday"%string (Num 1)
    = Some (Assigned (mkSlot "Science"%string "Dr. Jones"%string)) ∧
  returnedCell o "Grade 10-A"%string "Monday"%string Recess = Some RecessMark ∧
  returnedCell o "Grade 10-A"%string "Monday"%string Lunch = Some LunchMark.
Proof. vm_compute. repeat split; reflexivity. Qed.

(** The pointer and the subject assigned. On the same run every rotation
    is [SUBJECTS] in catalog order; the second class is attempted at period
    4 with the pointer at 3 and gets History, entry 3; at period 5, with
    the pointer at 4, the Art teacher is taken and the class gets PE, entry
    5: the pointer moves by one, the entry assigned may be further on. *)
Example assigned_entry_may_run_ahead :
  let o := runBuildSchedule (E:=InsertionEngine.engine) (cat:=builtin) [] in
  Forall (λ x, x.2 = SUBJECTS builtin)
    (rotations (trace (storeAfter o (initialStore (E:=InsertionEngine.engine) [])))) ∧
  returnedCell o "Grade 10-B"%string "Monday"%string (Num 4)
    = Some (Assigned (mkSlot "History"%string "Mr. Green"%string)) ∧
  returnedCell o "Grade 10-B"%string "Monday"%string (Num 5)
    = Some (Assigned (mkSlot "PE"%string "Coach Carter"%string)) ∧
  SUBJECTS builtin !! 3 = Some "History"%string ∧
  SUBJECTS builtin !! 5 = Some "PE"%string.
Proof. vm_compute. split; [repeat constructor|repeat split; reflexivity]. Qed.

(** Two classes and one teacher: the first class gets the teacher at every
    period and every slot of the second class resolves to Free. *)
Example oneTeacher_second_class_free :
  let o := runBuildSchedule (E:=InsertionEngine.engine) (cat:=oneTeacher) [] in
  Forall (λ n, returnedCell o "A"%string "Monday"%string (Num n)
                 = Some (Assigned (mkSlot "Math"%string "T1"%string)) ∧
               returnedCell o "B"%string "Monday"%string (Num n) = Some FreeMark)
    teachingPeriods.
Proof. vm_compute. repeat constructor. Qed.

(** C2, as stated, fails: with an empty teacher list for Art the build
    raises nothing and returns a schedule. *)
Lemma empty_teacher_list_accepted :
  ¬ rejectsEmptyTeacherList InsertionEngine.engine noArtTeacher [].
Proof.
  intros Hclaim. destruct Hclaim as (e & σ & Hrun).
  - exists "Art"%string. split; [unfold noArtTeacher; simpl; in_list|by vm_compute].
  - assert (isOk (runBuildSchedule (E:=InsertionEngine.engine) (cat:=noArtTeacher) [])
            = true) as Hok by (vm_compute; reflexivity).
    rewrite Hrun in Hok. discriminate Hok.
Qed.

(** C9, as stated, fails: a subject of [SUBJECTS] without an entry in
    [TEACHERS] makes [for ... of] iterate [undefined], and the build
    raises. *)
Lemma unlisted_subject_throws :
  ¬ neverThrows InsertionEngine.engine withMusic [].
Proof.
  intros (s & σ & Hrun).
  assert (isOk (runBuildSchedule (E:=InsertionEngine.engine) (cat:=withMusic) [])
          = false) as Hok by (vm_compute; reflexivity).
  rewrite Hrun in Hok. discriminate Hok.
Qed.

(** The built-in catalog, run with the insertion engine on an empty tape. *)
Lemma buildSchedule_total_witness :
  ∃ s σ, runBuildSchedule (E:=InsertionEngine.engine) (cat:=builtin) [] = Ok s σ ∧
         gridComplete (cat:=builtin) s.
Proof.
  destruct (buildSchedule_total (E:=InsertionEngine.engine) (cat:=builtin) [])
    as [Hrun _].
  - vm_compute. reflexivity.
  - destruct Hrun as (s & σ & Hok & Hgrid & _). exists s, σ. split; assumption.
Defined.

Lemma bookedStore_ready :
  ready (cat:=oneTeacher) (newSchedule bookedStore) "Monday"%string.
Proof. apply ready_check. vm_compute. reflexivity. Defined.

Lemma bookedStore_keys : keysAreClasses (cat:=oneTeacher) (newSchedule bookedStore).
Proof. apply keysAreClasses_check. vm_compute. reflexivity. Defined.

Lemma bookedStore_runnable :
  runnable (cat:=oneTeacher) (newSchedule bookedStore) "A"%string "Monday"%string
    ["Math"%string].
Proof.
  split; [exact bookedStore_ready|]. split.
  - apply (bool_decide_unpack _). vm_compute. exact I.
  - apply listed_check. vm_compute. reflexivity.
Defined.

(** The teacher of [oneTeacher] is asked for at period 2 of Monday on the
    booked store: class B holds him, the answer is false and the store is
    as before. *)
Lemma canAssignTeacher_correct_witness :
  canAssignTeacher (cat:=oneTeacher) "T1"%string "Monday"%string 2 bookedStore
    = Ok false bookedStore ∧
  ∃ c sl, cell (newSchedule bookedStore) c "Monday"%string (Num 2) = Some (Assigned sl) ∧
          teacher sl = "T1"%string.
Proof.
  destruct (canAssignTeacher_correct (cat:=oneTeacher)
              "T1"%string "Monday"%string 2 bookedStore bookedStore_ready bookedStore_keys)
    as (b & Hrun & Hfalse & _).
  assert (b = false) as ->.
  { apply Hfalse. exists "B"%string, (mkSlot "Math"%string "T1"%string).
    split; vm_compute; reflexivity. }
  split; [assumption|]. apply Hfalse. reflexivity.
Defined.

(** Period 2 of class A on the booked store: the only teacher is taken, the
    slot stays Free and the schedule is as it was. *)
Lemma slot_assigner_witness :
  ∃ σ', assignPeriod (cat:=oneTeacher) "A"%string "Monday"%string
          ["Math"%string] 0 2 bookedStore = Ok 0 σ' ∧
        cell (newSchedule σ') "A"%string "Monday"%string (Num 2) = Some FreeMark ∧
        newSchedule σ' = newSchedule bookedStore.
Proof.
  destruct (slot_assigner (cat:=oneTeacher) "A"%string "Monday"%string
              2 ["Math"%string] 0 bookedStore bookedStore_runnable)
    as [(k & subj & pre & t & suf & σ' & _ & _ & _ & _ & _ & _ & _ & Hrun & _)
       |(σ' & _ & _ & Hrun & Hchange & Hsame)].
  - assert (returned (assignPeriod (cat:=oneTeacher) "A"%string "Monday"%string
                        ["Math"%string] 0 2 bookedStore) = Some 0)
      as Hidx by (vm_compute; reflexivity).
    rewrite Hrun in Hidx. discriminate Hidx.
  - exists σ'. split; [assumption|]. split.
    + rewrite Hchange. vm_compute. reflexivity.
    + apply Hsame. vm_compute. reflexivity.
Defined.

(** * Further properties of the code *)

Section Scan.

Context {E : Engine} {cat : Catalog}.

(** ** [canAssignTeacher] on any store *)

Lemma split_compare {A} (pre pre' suf suf' : list A) (x x' : A) :
  pre ++ x :: suf = pre' ++ x' :: suf' →
  x ∈ pre' ∨ x' ∈ pre ∨ (pre = pre' ∧ x = x' ∧ suf = suf').
Proof.
  intros [(k & -> & Hk)|(k & -> & Hk)]%app_eq_inv.
  - destruct k as [|y k]; simpl in Hk.
    + injection Hk as -> ->. right. right. by rewrite app_nil_r.
    + injection Hk as -> ->. right. left. apply elem_of_app. right. by left.
  - destruct k as [|y k]; simpl in Hk.
    + injection Hk as -> ->. right. right. by rewrite app_nil_r.
    + injection Hk as -> ->. left. apply elem_of_app. right. by left.
Qed.

Lemma passes_avoids teacher0 day period s c ds :
  dayOf s c day = Some ds →
  avoids teacher0 (ds !! Num period) = true ↔ passes teacher0 day period s c.
Proof.
  intros Hds. unfold passes, cell. rewrite Hds. simpl. split.
  - intros Hav. split; [eauto|]. intros sl Hsl. rewrite Hsl in Hav. simpl in Hav.
    by case_bool_decide.
  - intros [_ Hall]. unfold avoids. destruct (ds !! Num period) as [[sl| | |]|]; try done.
    rewrite bool_decide_eq_false_2; [done|]. by apply Hall.
Qed.

Lemma canAssignTeacher_from_scan cs teacher0 day period σ :
  match canAssignTeacher_from cs teacher0 day period σ with
  | Ok true σ' => σ' = σ ∧ ∀ c, c ∈ cs → passes teacher0 day period (newSchedule σ) c
  | Ok false σ' =>
      σ' = σ ∧
      ∃ pre c suf sl, cs = pre ++ c :: suf ∧
        cell (newSchedule σ) c day (Num period) = Some (Assigned sl) ∧
        teacher sl = teacher0 ∧
        ∀ c', c' ∈ pre → passes teacher0 day period (newSchedule σ) c'
  | Throw e σ' =>
      σ' = σ ∧ e = undefinedRead ∧
      ∃ pre c suf, cs = pre ++ c :: suf ∧
        dayOf (newSchedule σ) c day = None ∧
        ∀ c', c' ∈ pre → passes teacher0 day period (newSchedule σ) c'
  | OutOfFuel => False
  end.
Proof.
  induction cs as [|c cs IH]; simpl.
  - split; [done|]. intros c Hc. by inv Hc.
  - unfold bind. rewrite getSlot_eq.
    destruct (dayOf (newSchedule σ) c day) as [ds|] eqn:Hds.
    + pose proof (passes_avoids teacher0 day period (newSchedule σ) c ds Hds) as Hpass.
      assert (passes teacher0 day period (newSchedule σ) c →
        match canAssignTeacher_from cs teacher0 day period σ with
        | Ok true σ' =>
            σ' = σ ∧ ∀ c0, c0 ∈ c :: cs → passes teacher0 day period (newSchedule σ) c0
        | Ok false σ' =>
            σ' = σ ∧
            ∃ pre c0 suf sl, c :: cs = pre ++ c0 :: suf ∧
              cell (newSchedule σ) c0 day (Num period) = Some (Assigned sl) ∧
              teacher sl = teacher0 ∧
              ∀ c', c' ∈ pre → passes teacher0 day period (newSchedule σ) c'
        | Throw e σ' =>
            σ' = σ ∧ e = undefinedRead ∧
            ∃ pre c0 suf, c :: cs = pre ++ c0 :: suf ∧
              dayOf (newSchedule σ) c0 day = None ∧
              ∀ c', c' ∈ pre → passes teacher0 day period (newSchedule σ) c'
        | OutOfFuel => False
        end) as Hrest.
      { intros Hc.
        destruct (canAssignTeacher_from cs teacher0 day period σ) as [[|] σ'|e σ'|];
          [| | |done].
        - destruct IH as [-> Hall]. split; [done|]. intros c0 Hc0. inv Hc0; eauto.
        - destruct IH as [-> (pre & c0 & suf & sl & -> & Hcell & Ht & Hpre)].
          split; [done|]. exists (c :: pre), c0, suf, sl. split_and!; [done..|].
          intros c' Hc'. inv Hc'; eauto.
        - destruct IH as (-> & -> & pre & c0 & suf & -> & Hnone & Hpre).
          split_and!; [done..|]. exists (c :: pre), c0, suf. split_and!; [done..|].
          intros c' Hc'. inv Hc'; eauto. }
      destruct (ds !! Num period) as [[sl| | |]|] eqn:Hv;
        try (apply Hrest, Hpass; done).
      case_bool_decide as Ht.
      * split; [done|]. exists [], c, cs, sl. split_and!; [done| |done|].
        -- unfold cell. rewrite Hds. done.
        -- intros c' Hc'. by inv Hc'.
      * apply Hrest, Hpass. simpl. by rewrite bool_decide_eq_false_2.
    + split_and!; [done..|]. exists [], c, cs. split_and!; [done..|].
      intros c' Hc'. by inv Hc'.
Qed.

(** X1. [canAssignTeacher] on any store, also one whose objects are not
    all there, for a day and classes whose names are not among the property
    names every object inherits ([inheritedNames]): for those names line 90
    reads a property the object does not own as [undefined], as [readClass]
    and [readDay] do. The classes are read in the order of [CLASSES] and
    the scan stops at the first class that does not let it pass: if that
    class has no schedule for the day the call raises the [TypeError] of
    reading a property of [undefined]; if its slot holds the teacher the
    call answers false, whatever is wrong with the classes after it; with
    no such class it answers true. These are the only three outcomes, and
    the store is never changed. *)
Theorem canAssignTeacher_scan teacher0 day period σ :
  ordinary day = true →
  forallb ordinary (CLASSES cat) = true →
  (canAssignTeacher teacher0 day period σ = Throw undefinedRead σ ↔
     ∃ pre c suf, CLASSES cat = pre ++ c :: suf ∧
       dayOf (newSchedule σ) c day = None ∧
       ∀ c', c' ∈ pre → passes teacher0 day period (newSchedule σ) c') ∧
  (canAssignTeacher teacher0 day period σ = Ok false σ ↔
     ∃ pre c suf sl, CLASSES cat = pre ++ c :: suf ∧
       cell (newSchedule σ) c day (Num period) = Some (Assigned sl) ∧
       teacher sl = teacher0 ∧
       ∀ c', c' ∈ pre → passes teacher0 day period (newSchedule σ) c') ∧
  (canAssignTeacher teacher0 day period σ = Ok true σ ↔
     ∀ c, c ∈ CLASSES cat → passes teacher0 day period (newSchedule σ) c) ∧
  (canAssignTeacher teacher0 day period σ = Throw undefinedRead σ ∨
   canAssignTeacher teacher0 day period σ = Ok false σ ∨
   canAssignTeacher teacher0 day period σ = Ok true σ).
Proof.
  intros _ _.
  pose proof (canAssignTeacher_from_scan (CLASSES cat) teacher0 day period σ) as Hscan.
  unfold canAssignTeacher.
  assert (∀ c, dayOf (newSchedule σ) c day = None →
               ¬ passes teacher0 day period (newSchedule σ) c) as Hmissing.
  { intros c Hnone [[ds Hds] _]. congruence. }
  assert (∀ c sl, cell (newSchedule σ) c day (Num period) = Some (Assigned sl) →
                  teacher sl = teacher0 →
                  ¬ passes teacher0 day period (newSchedule σ) c) as Hheld.
  { intros c sl Hcell Ht [_ Hall]. by apply (Hall sl). }
  assert (∀ c sl, cell (newSchedule σ) c day (Num period) = Some (Assigned sl) →
                  dayOf (newSchedule σ) c day ≠ None) as Hcell_day.
  { intros c sl Hcell Hnone. unfold cell in Hcell. by rewrite Hnone in Hcell. }
  destruct (canAssignTeacher_from (CLASSES cat) teacher0 day period σ)
    as [[|] σ'|e σ'|]; [| | |done].
  - destruct Hscan as [-> Hall]. split_and!; [| | |by right; right].
    + split; [done|]. intros (pre & c & suf & Hsplit & Hnone & _).
      destruct (Hmissing c Hnone). apply Hall. rewrite Hsplit.
      apply elem_of_app. right. by left.
    + split; [done|]. intros (pre & c & suf & sl & Hsplit & Hcell & Ht & _).
      destruct (Hheld c sl Hcell Ht). apply Hall. rewrite Hsplit.
      apply elem_of_app. right. by left.
    + done.
  - destruct Hscan as [-> (pre & c & suf & sl & Hsplit & Hcell & Ht & Hpre)].
    split_and!; [| | |by right; left].
    + split; [done|]. intros (pre' & c' & suf' & Hsplit' & Hnone & Hpre').
      rewrite Hsplit in Hsplit'.
      destruct (split_compare _ _ _ _ _ _ Hsplit') as [Hin|[Hin|(_ & <- & _)]].
      * destruct (Hheld c sl Hcell Ht). by apply Hpre'.
      * destruct (Hmissing c' Hnone). by apply Hpre.
      * by destruct (Hcell_day c sl Hcell).
    + split; [|done]. intros _. by exists pre, c, suf, sl.
    + split; [done|]. intros Hall. destruct (Hheld c sl Hcell Ht). apply Hall.
      rewrite Hsplit. apply elem_of_app. right. by left.
  - destruct Hscan as (-> & -> & pre & c & suf & Hsplit & Hnone & Hpre).
    split_and!; [| | |by left].
    + split; [|done]. intros _. by exists pre, c, suf.
    + split; [done|]. intros (pre' & c' & suf' & sl & Hsplit' & Hcell & Ht & Hpre').
      rewrite Hsplit in Hsplit'.
      destruct (split_compare _ _ _ _ _ _ Hsplit') as [Hin|[Hin|(_ & <- & _)]].
      * destruct (Hmissing c Hnone). by apply Hpre'.
      * destruct (Hheld c' sl Hcell Ht). by apply Hpre.
      * by destruct (Hcell_day c sl Hcell).
    + split; [done|]. intros Hall. destruct (Hmissing c Hnone). apply Hall.
      rewrite Hsplit. apply elem_of_app. right. by left.
Qed.

End Scan.

Section Initialisation.

Context {E : Engine} {cat : Catalog}.

(** ** The grid initialisation builds *)

Lemma fillDay_lookup ds ps q :
  fillDay ds ps !! q = if decide (q ∈ ps) then Some (initialMark q) else ds !! q.
Proof.
  unfold fillDay. revert ds. induction ps as [|p ps IH]; intros ds; simpl.
  - done.
  - rewrite IH. destruct (decide (q ∈ ps)) as [Hin|Hout].
    + rewrite decide_True; [done|]. by right.
    + destruct (decide (q = p)) as [->|Hne].
      * rewrite lookup_insert_eq. rewrite decide_True; [done|]. by left.
      * rewrite lookup_insert_ne by done. rewrite decide_False; [done|].
        intros H. by inv H.
Qed.

Lemma fillClass_lookup cs dl d :
  fillClass cs dl !! d = if decide (d ∈ dl) then Some (fillDay ∅ PERIODS) else cs !! d.
Proof.
  unfold fillClass. revert cs. induction dl as [|x dl IH]; intros cs; simpl.
  - done.
  - rewrite IH. destruct (decide (d ∈ dl)) as [Hin|Hout].
    + rewrite decide_True; [done|]. by right.
    + destruct (decide (d = x)) as [->|Hne].
      * rewrite lookup_insert_eq. rewrite decide_True; [done|]. by left.
      * rewrite lookup_insert_ne by done. rewrite decide_False; [done|].
        intros H. by inv H.
Qed.

Lemma fillGrid_lookup (s : FullSchedule) cl c :
  fillGrid s cl !! c = if decide (c ∈ cl) then Some (fillClass ∅ (DAYS cat)) else s !! c.
Proof.
  unfold fillGrid. revert s. induction cl as [|x cl IH]; intros s; simpl.
  - done.
  - rewrite IH. destruct (decide (c ∈ cl)) as [Hin|Hout].
    + rewrite decide_True; [done|]. by right.
    + destruct (decide (c = x)) as [->|Hne].
      * rewrite lookup_insert_eq. rewrite decide_True; [done|]. by left.
      * rewrite lookup_insert_ne by done. rewrite decide_False; [done|].
        intros H. by inv H.
Qed.

Lemma sameDraws_refl σ : sameDraws σ σ.
Proof. done. Qed.

Lemma sameDraws_mutated σ σ' s' : sameDraws σ σ' → sameDraws σ (mutated s' σ').
Proof. intros [Hr Ht]. split; [done|]. by rewrite rotations_trace_mutated. Qed.

Lemma initPeriod_run cls day p σ cs ds :
  newSchedule σ !! cls = Some cs →
  cs !! day = Some ds →
  initPeriod cls day p σ =
    Ok tt (mutated (<[cls := <[day := <[p := initialMark p]> ds]> cs]> (newSchedule σ)) σ).
Proof.
  intros Hcs Hds.
  assert (∀ v, setSlot cls day p v σ =
    Ok tt (mutated (<[cls := <[day := <[p := v]> ds]> cs]> (newSchedule σ)) σ)) as Hset.
  { intros v. rewrite setSlot_eq. unfold dayOf, writeCell. rewrite Hcs. simpl.
    by rewrite Hds. }
  destruct p; simpl; apply Hset.
Qed.

Lemma initPeriods_run cls day ps σ cs ds :
  newSchedule σ !! cls = Some cs →
  cs !! day = Some ds →
  ∃ σ', forEach ps (initPeriod cls day) σ = Ok tt σ' ∧
        newSchedule σ' = <[cls := <[day := fillDay ds ps]> cs]> (newSchedule σ) ∧
        sameDraws σ σ'.
Proof.
  revert σ cs ds. induction ps as [|p ps IH]; intros σ cs ds Hcs Hds; simpl.
  - exists σ. split_and!; [done| |done].
    rewrite (insert_id cs) by done. by rewrite insert_id.
  - unfold bind. rewrite (initPeriod_run _ _ _ _ cs ds) by done.
    destruct (IH (mutated (<[cls := <[day := <[p := initialMark p]> ds]> cs]>
                             (newSchedule σ)) σ)
                 (<[day := <[p := initialMark p]> ds]> cs)
                 (<[p := initialMark p]> ds))
      as (σ' & Hrun & Hgraph & Hdraws).
    { simpl. by rewrite lookup_insert_eq. }
    { by rewrite lookup_insert_eq. }
    exists σ'. split_and!; [done| |].
    + rewrite Hgraph. simpl. rewrite insert_insert_eq. by rewrite insert_insert_eq.
    + destruct Hdraws as [Hr Ht]. split; [done|].
      by rewrite Ht, rotations_trace_mutated.
Qed.

Lemma initDays_run cls dl σ cs :
  newSchedule σ !! cls = Some cs →
  ∃ σ', forEach dl (λ day, bind (initDay cls day)
                             (λ _, forEach PERIODS (initPeriod cls day))) σ = Ok tt σ' ∧
        newSchedule σ' = <[cls := fillClass cs dl]> (newSchedule σ) ∧
        sameDraws σ σ'.
Proof.
  revert σ cs. induction dl as [|day dl IH]; intros σ cs Hcs; cbn [forEach].
  - exists σ. split_and!; [done| |done]. by rewrite insert_id.
  - unfold bind at 1. unfold bind at 1. rewrite initDay_eq, Hcs.
    destruct (initPeriods_run cls day PERIODS
                (mutated (<[cls := <[day := ∅]> cs]> (newSchedule σ)) σ)
                (<[day := ∅]> cs) ∅)
      as (σ1 & Hrun1 & Hgraph1 & Hdraws1).
    { simpl. by rewrite lookup_insert_eq. }
    { by rewrite lookup_insert_eq. }
    rewrite Hrun1. simpl in Hgraph1.
    rewrite !insert_insert_eq in Hgraph1.
    destruct (IH σ1 (<[day := fillDay ∅ PERIODS]> cs)) as (σ' & Hrun & Hgraph & Hdraws).
    { rewrite Hgraph1. by rewrite lookup_insert_eq. }
    exists σ'. split_and!; [done| |].
    + rewrite Hgraph, Hgraph1. by rewrite insert_insert_eq.
    + destruct Hdraws as [Hr Ht]. destruct Hdraws1 as [Hr1 Ht1]. split.
      * by rewrite Hr, Hr1.
      * by rewrite Ht, Ht1, rotations_trace_mutated.
Qed.

Lemma initClasses_run cl σ :
  ∃ σ', forEach cl (λ cls,
          bind (initClass cls) (λ _,
            forEach (DAYS cat) (λ day,
              bind (initDay cls day) (λ _, forEach PERIODS (initPeriod cls day))))) σ
          = Ok tt σ' ∧
        newSchedule σ' = fillGrid (newSchedule σ) cl ∧
        sameDraws σ σ'.
Proof.
  revert σ. induction cl as [|cls cl IH]; intros σ; cbn [forEach].
  - by exists σ.
  - unfold bind at 1. unfold bind at 1. rewrite initClass_eq.
    destruct (initDays_run cls (DAYS cat)
                (mutated (<[cls := ∅]> (newSchedule σ)) σ) ∅)
      as (σ1 & Hrun1 & Hgraph1 & Hdraws1).
    { simpl. by rewrite lookup_insert_eq. }
    rewrite Hrun1. simpl in Hgraph1. rewrite insert_insert_eq in Hgraph1.
    destruct (IH σ1) as (σ' & Hrun & Hgraph & Hdraws).
    exists σ'. split_and!; [done| |].
    + rewrite Hgraph, Hgraph1. done.
    + destruct Hdraws as [Hr Ht]. destruct Hdraws1 as [Hr1 Ht1]. split.
      * by rewrite Hr, Hr1.
      * by rewrite Ht, Ht1, rotations_trace_mutated.
Qed.

Lemma initSchedule_run σ :
  ∃ σ', initSchedule σ = Ok tt σ' ∧
        newSchedule σ' = fillGrid (newSchedule σ) (CLASSES cat) ∧
        sameDraws σ σ'.
Proof. apply initClasses_run. Qed.

Lemma fillGrid_dayOf (s : FullSchedule) c d :
  dayOf (fillGrid s (CLASSES cat)) c d =
    if decide (c ∈ CLASSES cat)
    then (if decide (d ∈ DAYS cat) then Some (fillDay ∅ PERIODS) else None)
    else dayOf s c d.
Proof.
  unfold dayOf. rewrite fillGrid_lookup. case_decide; [|done]. simpl.
  rewrite fillClass_lookup. by case_decide.
Qed.

Lemma fillGrid_cell (s : FullSchedule) c d p :
  cell (fillGrid s (CLASSES cat)) c d p =
    if decide (c ∈ CLASSES cat)
    then (if decide (d ∈ DAYS cat ∧ p ∈ PERIODS) then Some (initialMark p) else None)
    else cell s c d p.
Proof.
  unfold cell. rewrite fillGrid_dayOf. case_decide; [|done].
  destruct (decide (d ∈ DAYS cat)) as [Hd|Hd]; cbn [mbind option_bind].
  - rewrite fillDay_lookup, lookup_empty.
    destruct (decide (p ∈ PERIODS)) as [Hp|Hp].
    + by rewrite decide_True.
    + rewrite decide_False; [done|]. by intros [_ ?].
  - rewrite decide_False; [done|]. by intros [? _].
Qed.


End Initialisation.

Section WholeRun.

Context {E : Engine} {cat : Catalog}.

(** ** Invariants of a whole run *)

Lemma post_conj {A} (o : Outcome A) (Q1 Q2 : A → Store → Prop) (E1 E2 : Store → Prop) :
  post o Q1 E1 → post o Q2 E2 →
  post o (λ a σ, Q1 a σ ∧ Q2 a σ) (λ σ, E1 σ ∧ E2 σ).
Proof. by destruct o. Qed.

Lemma shuffleSubjects_eq cls day σ :
  shuffleSubjects cls day σ =
    Ok (sortRandom E (SUBJECTS cat) (rng σ)).1 (shuffled cls day σ).
Proof.
  unfold shuffleSubjects, shuffled. by destruct (sortRandom E (SUBJECTS cat) (rng σ)).
Qed.

(** A property of the store that the draw of a rotation keeps, and that a
    write of Free or of an assignment into a teaching slot of one of the
    classes [cl] keeps, holds throughout the assignment of those classes. *)
Lemma assignClasses_invariant (cl : list ClassName) (I : Store → Prop) :
  (∀ σ cls day, I σ → cls ∈ cl → day ∈ DAYS cat → I (shuffled cls day σ)) →
  (∀ σ cls day n v, I σ → cls ∈ cl → day ∈ DAYS cat → n ∈ teachingPeriods →
     is_Some (dayOf (newSchedule σ) cls day) → holds (Num n) v →
     I (mutated (writeCell (newSchedule σ) cls day (Num n) v) σ)) →
  ∀ σ, I σ →
    post (forEach cl (λ cls, forEach (DAYS cat) (assignDay cls)) σ) (λ _, I) I.
Proof.
  intros Hshuffle Hwrite σ HI.
  apply (forEach_post (λ _, I) I); [|done].
  intros pre cls suf σ1 Hl HI1.
  assert (cls ∈ cl) as Hcls.
  { rewrite Hl. apply elem_of_app. right. by left. }
  apply (forEach_post (λ _, I) I); [|done].
  intros dpre day dsuf σ2 Hd HI2.
  assert (day ∈ DAYS cat) as Hday.
  { rewrite Hd. apply elem_of_app. right. by left. }
  unfold assignDay. apply post_bind. rewrite shuffleSubjects_eq. cbn [post].
  apply post_bind. unfold assignPeriods.
  eapply post_mono; [apply (forEachWith_post (λ _ _, I) I)| |done].
  - intros ppre n psuf idx σ3 Hp HI3.
    assert (n ∈ teachingPeriods) as Hn.
    { rewrite Hp. apply elem_of_app. right. by left. }
    eapply post_mono; [apply assignPeriod_post| |].
    + intros idx' σ4 [Hhas Hcase].
      destruct (assignSlot day n _ idx (newSchedule σ3)) as [sl|].
      * destruct Hcase as [_ ->]. apply Hwrite; [done..|]. right. eauto.
      * destruct Hcase as (_ & -> & _). apply Hwrite; [done..|]. by left.
    + by intros σ4 [-> _].
  - by apply Hshuffle.
  - done.
Qed.

Lemma assignAll_invariant (I : Store → Prop) :
  (∀ σ cls day, I σ → cls ∈ CLASSES cat → day ∈ DAYS cat → I (shuffled cls day σ)) →
  (∀ σ cls day n v, I σ → cls ∈ CLASSES cat → day ∈ DAYS cat → n ∈ teachingPeriods →
     is_Some (dayOf (newSchedule σ) cls day) → holds (Num n) v →
     I (mutated (writeCell (newSchedule σ) cls day (Num n) v) σ)) →
  ∀ σ, I σ → post (assignAll σ) (λ _, I) I.
Proof. apply assignClasses_invariant. Qed.

Lemma buildSchedule_invariant (I : Store → Prop) r :
  (∀ σ, newSchedule σ = fillGrid ∅ (CLASSES cat) → sameDraws (initialStore r) σ → I σ) →
  (∀ σ cls day, I σ → cls ∈ CLASSES cat → day ∈ DAYS cat → I (shuffled cls day σ)) →
  (∀ σ cls day n v, I σ → cls ∈ CLASSES cat → day ∈ DAYS cat → n ∈ teachingPeriods →
     is_Some (dayOf (newSchedule σ) cls day) → holds (Num n) v →
     I (mutated (writeCell (newSchedule σ) cls day (Num n) v) σ)) →
  post (runBuildSchedule r) (λ s σ, s = newSchedule σ ∧ I σ) I.
Proof.
  intros Hinit Hshuffle Hwrite. unfold runBuildSchedule, buildSchedule.
  apply post_bind.
  destruct (initSchedule_run (initialStore r)) as (σ1 & -> & Hgraph & Hdraws).
  cbn [post]. apply post_bind.
  eapply post_mono; [apply (assignAll_invariant I)| |done]; [done..|by apply Hinit|].
  by intros [] σ2 HI.
Qed.

(** ** The objects of the returned schedule *)





(** ** The random source *)

Lemma draws_S n (r : Rng E) :
  draws (S n) r =
    (let '(l, r') := sortRandom E (SUBJECTS cat) r in
     let '(ls, r'') := draws n r' in (l :: ls, r'')).
Proof. done. Qed.

Lemma draws_snoc n (r : Rng E) :
  (draws (S n) r).1 = (draws n r).1 ++ [(sortRandom E (SUBJECTS cat) (draws n r).2).1] ∧
  (draws (S n) r).2 = (sortRandom E (SUBJECTS cat) (draws n r).2).2.
Proof.
  revert r. induction n as [|n IH]; intros r.
  - simpl. by destruct (sortRandom E (SUBJECTS cat) r).
  - rewrite (draws_S (S n) r), (draws_S n r).
    destruct (sortRandom E (SUBJECTS cat) r) as [l r'].
    destruct (IH r') as [IH1 IH2].
    destruct (draws (S n) r') as [ls2 r2]. destruct (draws n r') as [ls1 r1].
    simpl in *. by rewrite IH1, IH2.
Qed.

Lemma draws_length n (r : Rng E) : length (draws n r).1 = n.
Proof.
  revert r. induction n as [|n IH]; intros r; simpl; [done|].
  destruct (sortRandom E (SUBJECTS cat) r) as [l r']. specialize (IH r').
  destruct (draws n r') as [ls r'']. simpl in *. by rewrite IH.
Qed.

Lemma classDays_length : length (classDays (cat:=cat)) = length (CLASSES cat) * length (DAYS cat).
Proof.
  unfold classDays. induction (CLASSES cat) as [|c cl IH]; [done|].
  rewrite bind_cons, length_app, length_fmap, IH. done.
Qed.

(** X4. The random source in a run of [buildSchedule]: it is used by the
    sort of line 102 and by nothing else. Initialisation leaves it alone;
    then one copy of [SUBJECTS] is sorted for each (class, day), in the
    order of the loops, each sort starting from the state the one before
    left. So a run that returns has drawn [CLASSES.length * DAYS.length]
    rotations, they are the arrays that many consecutive sorts give from
    the state at the call, and the source is left in the state after the
    last of them; a run that raises has drawn some number of them in the
    same way. *)
Theorem random_source_threaded (r : Rng E) :
  post (runBuildSchedule r)
    (λ _ σ, rotations (trace σ) = zip classDays (draws (length classDays) r).1 ∧
            rng σ = (draws (length classDays) r).2 ∧
            length (classDays (cat:=cat)) = length (CLASSES cat) * length (DAYS cat))
    (λ σ, ∃ n, (rotations (trace σ)).*2 = (draws n r).1 ∧ rng σ = (draws n r).2).
Proof.
  assert (post (runBuildSchedule r)
    (λ s σ, s = newSchedule σ ∧
            ∃ n, (rotations (trace σ)).*2 = (draws n r).1 ∧ rng σ = (draws n r).2)
    (λ σ, ∃ n, (rotations (trace σ)).*2 = (draws n r).1 ∧ rng σ = (draws n r).2))
    as Hdraws.
  { apply (buildSchedule_invariant
      (λ σ, ∃ n, (rotations (trace σ)).*2 = (draws n r).1 ∧ rng σ = (draws n r).2)).
    - intros σ _ [Hr Ht]. exists 0. simpl in *. by rewrite Ht.
    - intros σ cls day (n & Hrot & Hrng) _ _. exists (S n).
      destruct (draws_snoc n r) as [H1 H2]. rewrite H1, H2. unfold shuffled. simpl.
      rewrite rotations_shuffled, fmap_app. simpl. by rewrite Hrot, Hrng.
    - intros σ cls day n v (k & Hrot & Hrng) _ _ _ _ _. exists k.
      by rewrite rotations_trace_mutated. }
  eapply post_mono; [apply (post_conj _ _ _ _ _ (buildSchedule_post r) Hdraws)| |].
  - intros s σ [[_ (_ & _ & HY & _)] [_ (n & Hrot & Hrng)]].
    assert (n = length (classDays (cat:=cat))) as ->.
    { rewrite <- (draws_length n r), <- Hrot, <- HY. by rewrite !length_fmap. }
    split_and!; [|done|apply classDays_length].
    rewrite <- Hrot, <- HY. symmetry. apply zip_fst_snd.
  - intros σ [_ Hn]. done.
Qed.

End WholeRun.

Section Rationing.

Context {E : Engine} {cat : Catalog}.

(** ** Which slots are assigned does not depend on the random source *)

Lemma staff_elem t :
  t ∈ staff ↔ ∃ subj ts, subj ∈ SUBJECTS cat ∧ TEACHERS cat !! subj = Some ts ∧ t ∈ ts.
Proof.
  unfold staff. rewrite elem_of_remove_dups, list_elem_of_bind. split.
  - intros (subj & Ht & Hsubj). destruct (TEACHERS cat !! subj) as [ts|] eqn:Hts.
    + exists subj, ts. done.
    + simpl in Ht. by inv Ht.
  - intros (subj & ts & Hsubj & Hts & Ht). exists subj. by rewrite Hts.
Qed.

Lemma staff_NoDup : NoDup (staff (cat:=cat)).
Proof. apply NoDup_remove_dups. Qed.

(** The teachers held at (day, n) by the first [m] classes, when each of
    them holds one. *)
Lemma held_teachers s day n m :
  NoDup (CLASSES cat) →
  noDoubleBooking s →
  m ≤ length (CLASSES cat) →
  (∀ j c, j < m → CLASSES cat !! j = Some c → filled s c day n) →
  ∃ H : list Teacher,
    length H = m ∧ NoDup H ∧
    ∀ t, t ∈ H ↔ ∃ j c sl, j < m ∧ CLASSES cat !! j = Some c ∧
                           cell s c day (Num n) = Some (Assigned sl) ∧ teacher sl = t.
Proof.
  intros Hnd Hndb. induction m as [|m IH]; intros Hm Hfilled.
  - exists []. split_and!; [done|constructor|]. intros t. split.
    + intros Ht. by inv Ht.
    + intros (j & _ & _ & Hj & _). lia.
  - destruct IH as (H & Hlen & HndH & Hin); [lia| |].
    { intros j c Hj. apply Hfilled. lia. }
    destruct (lookup_lt_is_Some_2 (CLASSES cat) m) as [cm Hcm]; [lia|].
    destruct (Hfilled m cm) as [slm Hslm]; [lia|done|].
    exists (teacher slm :: H). split_and!.
    + simpl. by rewrite Hlen.
    + apply NoDup_cons. split; [|done]. intros (j & c & sl & Hj & Hc & Hsl & Ht)%Hin.
      assert (c ≠ cm) as Hne.
      { intros ->. pose proof (NoDup_lookup _ _ _ _ Hnd Hc Hcm). lia. }
      by apply (Hndb day (Num n) c cm sl slm Hne Hsl Hslm).
    + intros t. rewrite elem_of_cons, Hin. split.
      * intros [->|(j & c & sl & Hj & Hrest)].
        -- exists m, cm, slm. split_and!; [lia|done..].
        -- exists j, c, sl. split; [lia|done].
      * intros (j & c & sl & Hj & Hc & Hsl & Ht).
        destruct (decide (j = m)) as [->|Hne].
        -- left. rewrite Hcm in Hc. injection Hc as <-. rewrite Hslm in Hsl.
           by injection Hsl as <-.
        -- right. exists j, c, sl. split_and!; [lia|done..].
Qed.

Lemma assignSlot_rationed s day n rotation idx k :
  NoDup (CLASSES cat) →
  k < length (CLASSES cat) →
  noDoubleBooking s →
  validAssignments s →
  rotation ≡ₚ SUBJECTS cat →
  (∀ j c, j < k → CLASSES cat !! j = Some c → served s j c day n) →
  (∀ j c, k ≤ j → CLASSES cat !! j = Some c → cell s c day (Num n) = Some FreeMark) →
  (k < length staff → is_Some (assignSlot day n rotation idx s)) ∧
  (length staff ≤ k → assignSlot day n rotation idx s = None).
Proof.
  intros Hnd Hk Hndb Hvalid Hperm Hlow Hhigh.
  set (m := k `min` length (staff (cat:=cat))).
  assert (∀ j c, j < m → CLASSES cat !! j = Some c → filled s c day n) as Hfilled.
  { intros j c Hj Hc. specialize (Hlow j c). unfold served in Hlow.
    rewrite decide_True in Hlow by lia. apply Hlow; [lia|done]. }
  assert (∀ j c, m ≤ j → CLASSES cat !! j = Some c →
                 cell s c day (Num n) = Some FreeMark) as Hfree.
  { intros j c Hj Hc. destruct (decide (k ≤ j)) as [Hkj|Hkj]; [by eapply Hhigh|].
    specialize (Hlow j c). unfold served in Hlow.
    rewrite decide_False in Hlow by lia. apply Hlow; [lia|done]. }
  destruct (held_teachers s day n m Hnd Hndb) as (H & Hlen & HndH & Hin); [lia|done|].
  assert (∀ t, isTeacherFree t day n s = false → t ∈ H) as Hbusy.
  { intros t (c & sl & Hc & Hsl & Ht)%isTeacherFree_false.
    apply list_elem_of_lookup in Hc as [j Hj]. apply Hin.
    exists j, c, sl. split_and!; [|done..].
    destruct (decide (j < m)) as [|Hge]; [done|].
    rewrite (Hfree j c) in Hsl by (lia || done). done. }
  assert (∀ t, t ∈ H → t ∈ staff (cat:=cat)) as Hsub.
  { intros t (j & c & sl & _ & _ & Hsl & <-)%Hin.
    destruct (Hvalid _ _ _ _ Hsl) as (Hsubj & ts & Hts & Ht).
    apply staff_elem. eauto. }
  split.
  - intros Hlt. destruct (assignSlot day n rotation idx s) as [sl|] eqn:Hslot; [eauto|].
    exfalso.
    assert (length (staff (cat:=cat)) ≤ length H) as Hle.
    { apply submseteq_length, NoDup_submseteq; [apply staff_NoDup|].
      intros t (subj & ts & Hsubj & Hts & Ht)%staff_elem. apply Hbusy.
      eapply assignSlot_None; [done| |done..]. by rewrite Hperm. }
    lia.
  - intros Hge. destruct (assignSlot day n rotation idx s) as [sl|] eqn:Hslot; [|done].
    exfalso.
    destruct (assignSlot_Some _ _ _ _ _ _ Hslot)
      as (k' & pre & suf & Hk' & Hsubj & Hts & Hfree' & _).
    assert (H ≡ₚ staff (cat:=cat)) as HH.
    { apply submseteq_length_Permutation; [by apply NoDup_submseteq|lia]. }
    assert (teacher sl ∈ H) as Hheld.
    { rewrite HH. apply staff_elem. exists (subject sl), (pre ++ teacher sl :: suf).
      split_and!; [|done|].
      - rewrite <- Hperm. by eapply list_elem_of_lookup_2.
      - apply elem_of_app. right. by left. }
    apply Hin in Hheld as (j & c & sl' & Hj & Hc & Hsl' & Ht).
    rewrite isTeacherFree_true in Hfree'.
    apply (Hfree' c sl'); [by eapply list_elem_of_lookup_2|done..].
Qed.

Lemma rationed_ext (P P' : ClassName → Day → nat → Prop) σ :
  (∀ c d m, c ∈ CLASSES cat → d ∈ DAYS cat → m ∈ teachingPeriods →
            (P c d m ↔ P' c d m)) →
  rationed P σ → rationed P' σ.
Proof.
  intros Hext (Hsound & Hgrid & Hrat). split_and!; [done..|].
  intros k c d n Hc Hd Hn. destruct (Hrat k c d n Hc Hd Hn) as [H1 H2].
  assert (P c d n ↔ P' c d n) as Hiff.
  { apply Hext; [by eapply list_elem_of_lookup_2|done..]. }
  split; intros HP; [apply H1|apply H2]; by rewrite Hiff.
Qed.

Lemma rations_writeCell (P : ClassName → Day → nat → Prop) s k cls day n v :
  NoDup (CLASSES cat) →
  CLASSES cat !! k = Some cls →
  is_Some (dayOf s cls day) →
  (if decide (k < length staff) then ∃ sl, v = Assigned sl else v = FreeMark) →
  rations P s →
  rations (λ c d m, P c d m ∨ (c = cls ∧ d = day ∧ m = n)) (writeCell s cls day (Num n) v).
Proof.
  intros Hnd Hcls Hhas Hv Hrat k' c d m Hc Hd Hm.
  unfold served, filled. rewrite cell_writeCell by done.
  destruct (decide (c = cls ∧ d = day ∧ Num m = Num n)) as [(-> & -> & [= ->])|Hne].
  - assert (k' = k) as -> by by eapply NoDup_lookup.
    split; [|intros Hnot; destruct Hnot; by right]. intros _.
    destruct (decide (k < length staff)).
    + destruct Hv as [sl ->]. eauto.
    + by rewrite Hv.
  - destruct (Hrat k' c d m Hc Hd Hm) as [H1 H2]. split.
    + intros [HP|(-> & -> & ->)]; [by apply H1|by destruct Hne].
    + intros Hnot. apply H2. intros HP. apply Hnot. by left.
Qed.

Lemma assignPeriod_ration (P : ClassName → Day → nat → Prop) k cls day rotation idx n σ :
  NoDup (CLASSES cat) →
  teachersListed = true →
  CLASSES cat !! k = Some cls →
  day ∈ DAYS cat →
  n ∈ teachingPeriods →
  rotation ≡ₚ SUBJECTS cat →
  (∀ j c, j < k → CLASSES cat !! j = Some c → P c day n) →
  (∀ j c, k ≤ j → CLASSES cat !! j = Some c → ¬ P c day n) →
  rationed P σ →
  post (assignPeriod cls day rotation idx n σ)
    (λ _ σ', rationed (λ c d m, P c d m ∨ (c = cls ∧ d = day ∧ m = n)) σ')
    (λ _, False).
Proof.
  intros Hnd Hlisted Hcls Hday Hn Hperm Hlow Hhigh (Hsound & Hgrid & Hrat).
  assert (cls ∈ CLASSES cat) as Hin by by eapply list_elem_of_lookup_2.
  eapply post_mono; [apply assignPeriod_post| |].
  - intros idx' σ' [Hhas Hcase].
    destruct (assignSlot_rationed (newSchedule σ) day n rotation idx k)
      as [Hlt Hge]; [done| |apply Hsound|apply Hsound|done| | |].
    { by eapply lookup_lt_Some. }
    { intros j c Hj Hc. apply (Hrat j c day n); [done..|]. by eapply Hlow. }
    { intros j c Hj Hc. apply (Hrat j c day n); [done..|]. by eapply Hhigh. }
    destruct (decide (k < length (staff (cat:=cat)))) as [Hk|Hk].
    + destruct (Hlt Hk) as [sl Hslot]. rewrite Hslot in Hcase.
      destruct Hcase as [_ ->].
      destruct (assignSlot_Some _ _ _ _ _ _ Hslot)
        as (k' & pre & suf & Hk' & Hsubj & Hts & Hfree & _).
      split_and!.
      * apply sound_mutated_assign; [done..|]. split.
        -- rewrite <- Hperm. by eapply list_elem_of_lookup_2.
        -- eexists. split; [done|]. apply elem_of_app. right. by left.
      * apply gridComplete_writeCell; [done|]. right. eauto.
      * simpl. apply (rations_writeCell P _ k); [done..| |done].
        rewrite decide_True by done. eauto.
    + rewrite Hge in Hcase by lia. destruct Hcase as (_ & -> & _). split_and!.
      * apply sound_mutated_fewer; [done|by apply fewer_writeCell|].
        apply keys_writeCell_all, Hsound.
      * apply gridComplete_writeCell; [done|]. by left.
      * simpl. apply (rations_writeCell P _ k); [done..| |done].
        by rewrite decide_False.
  - intros σ' [-> Hnot]. destruct Hnot. split_and!.
    + by apply gridComplete_ready.
    + by apply gridComplete_hasDay.
    + by apply teachersListed_listed.
Qed.

Lemma teachingPeriods_NoDup : NoDup teachingPeriods.
Proof.
  unfold teachingPeriods. apply NoDup_ListNoDup. repeat constructor; simpl; intuition lia.
Qed.

Lemma NoDup_split_fresh {A} (l pre suf : list A) x :
  NoDup l → l = pre ++ x :: suf → x ∉ pre.
Proof.
  intros Hnd ->. apply NoDup_app in Hnd as (_ & Hdisj & _).
  intros Hin. apply (Hdisj x Hin). by left.
Qed.

Lemma assignDay_ration (P : ClassName → Day → nat → Prop) k cls day σ :
  NoDup (CLASSES cat) →
  teachersListed = true →
  CLASSES cat !! k = Some cls →
  day ∈ DAYS cat →
  (∀ j c m, j < k → CLASSES cat !! j = Some c → P c day m) →
  (∀ j c m, k ≤ j → CLASSES cat !! j = Some c → ¬ P c day m) →
  rationed P σ →
  post (assignDay cls day σ)
    (λ _ σ', rationed (λ c d m, P c d m ∨ (c = cls ∧ d = day ∧ m ∈ teachingPeriods)) σ')
    (λ _, False).
Proof.
  intros Hnd Hlisted Hcls Hday Hlow Hhigh (Hsound & Hgrid & Hrat).
  unfold assignDay. apply post_bind. rewrite shuffleSubjects_eq. cbn [post].
  pose proof (sortRandom_perm E (SUBJECTS cat) (rng σ)) as Hperm.
  apply post_bind. unfold assignPeriods.
  eapply post_mono;
    [apply (forEachWith_post (λ ppre (_ : nat) σ',
       rationed (λ c d m, P c d m ∨ (c = cls ∧ d = day ∧ m ∈ ppre)) σ') (λ _, False))
    | |done].
  - intros ppre n psuf idx σ' Hp Hrationed.
    assert (n ∈ teachingPeriods) as Hn.
    { rewrite Hp. apply elem_of_app. right. by left. }
    eapply post_mono;
      [apply (assignPeriod_ration
                (λ c d m, P c d m ∨ (c = cls ∧ d = day ∧ m ∈ ppre)) k); try done| |done].
    + intros j c Hj Hc. left. by eapply Hlow.
    + intros j c Hj Hc [HP|(_ & _ & Hin)]; [by eapply Hhigh|].
      by apply (NoDup_split_fresh _ _ _ _ teachingPeriods_NoDup Hp).
    + intros idx' σ''. apply rationed_ext. intros c d m _ _ _. split.
      * intros [[HP|(-> & -> & Hm)]|(-> & -> & ->)]; [by left|right..].
        -- split_and!; [done..|]. apply elem_of_app. by left.
        -- split_and!; [done..|]. apply elem_of_app. right. by left.
      * intros [HP|(-> & -> & Hm)]; [by left; left|].
        apply elem_of_app in Hm as [Hm|Hm]; [left; right; done|].
        apply list_elem_of_singleton in Hm as ->. by right.
  - split_and!.
    + by apply sound_shuffled.
    + done.
    + simpl. intros k' c d m Hc Hd Hm. destruct (Hrat k' c d m Hc Hd Hm) as [H1 H2].
      split.
      * intros [HP|(_ & _ & Hin)]; [by apply H1|by inv Hin].
      * intros Hnot. apply H2. intros HP. apply Hnot. by left.
  - by intros idx' σ'.
Qed.

Lemma lookup_split_before {A} (pre suf : list A) x j y :
  NoDup (pre ++ x :: suf) →
  (pre ++ x :: suf) !! j = Some y →
  (j < length pre ↔ y ∈ pre).
Proof.
  intros Hnd Hj. split.
  - intros Hlt. rewrite lookup_app_l in Hj by done. by eapply list_elem_of_lookup_2.
  - intros [i Hi]%list_elem_of_lookup.
    assert ((pre ++ x :: suf) !! i = Some y) as Hi'.
    { rewrite lookup_app_l; [done|]. by eapply lookup_lt_Some. }
    rewrite <- (NoDup_lookup _ _ _ _ Hnd Hi' Hj). by eapply lookup_lt_Some.
Qed.

Lemma assignAll_ration σ :
  NoDup (CLASSES cat) →
  NoDup (DAYS cat) →
  teachersListed = true →
  rationed (λ _ _ _, False) σ →
  post (assignAll σ) (λ _ σ', rationed (λ _ _ _, True) σ') (λ _, False).
Proof.
  intros Hnd Hndd Hlisted Hstart. unfold assignAll.
  eapply post_mono;
    [apply (forEach_post (λ pre σ', rationed (λ c _ _, c ∈ pre) σ') (λ _, False))| |done].
  - intros pre cls suf σ1 Hl Hpre.
    assert (CLASSES cat !! length pre = Some cls) as Hcls.
    { rewrite Hl. by rewrite list_lookup_middle. }
    eapply post_mono;
      [apply (forEach_post (λ dpre σ2,
         rationed (λ c d _, c ∈ pre ∨ (c = cls ∧ d ∈ dpre)) σ2) (λ _, False))| |done].
    + intros dpre day dsuf σ2 Hd Hdpre.
      assert (day ∈ DAYS cat) as Hday.
      { rewrite Hd. apply elem_of_app. right. by left. }
      eapply post_mono;
        [apply (assignDay_ration (λ c d _, c ∈ pre ∨ (c = cls ∧ d ∈ dpre))
                  (length pre)); try done| |done].
      * intros j c _ Hj Hc. left. rewrite Hl in Hnd, Hc.
        by apply (lookup_split_before _ _ _ _ _ Hnd Hc).
      * intros j c _ Hj Hc [Hin|[_ Hin]].
        -- rewrite Hl in Hnd, Hc.
           apply (lookup_split_before _ _ _ _ _ Hnd Hc) in Hin. lia.
        -- by apply (NoDup_split_fresh _ _ _ _ Hndd Hd).
      * intros [] σ3. apply rationed_ext. intros c d m _ _ Hm. split.
        -- intros [[Hc|[-> Hin]]|(-> & -> & _)]; [by left|right..].
           ++ split; [done|]. apply elem_of_app. by left.
           ++ split; [done|]. apply elem_of_app. right. by left.
        -- intros [Hc|[-> Hin]]; [by left; left|].
           apply elem_of_app in Hin as [Hin|Hin]; [left; right; done|].
           apply list_elem_of_singleton in Hin as ->. by right.
    + eapply rationed_ext; [|done]. intros c d m _ _ _. split; [by left|].
      intros [Hc|[_ Hin]]; [done|by inv Hin].
    + intros [] σ2. apply rationed_ext. intros c d m _ Hd _. split.
      * intros [Hc|[-> _]]; apply elem_of_app; [by left|right; by left].
      * intros [Hc|Hc]%elem_of_app; [by left|].
        apply list_elem_of_singleton in Hc as ->. by right.
  - eapply rationed_ext; [|done]. intros c d m _ _ _. split; [done|]. intros Hc. by inv Hc.
  - intros [] σ'. apply rationed_ext. intros c d m Hc _ _. done.
Qed.

(** X5. Which slots are assigned is settled by the catalog alone. Let
    [CLASSES] and [DAYS] be without repetition and every subject have a
    teacher list, and count the teachers named on those lists, each once.
    Whatever the random source gives, [buildSchedule] returns, and the
    class at position [k] of [CLASSES] holds an assignment at every
    teaching period of every day if [k] is below the number of teachers,
    and Free at every teaching period of every day otherwise: each class
    before it keeps one teacher busy at each (day, period), and a slot is
    left Free only when all of them are. So, with a day to schedule, the
    returned schedule is without Free slot exactly when there are at
    least as many teachers as classes. *)
Theorem teachers_ration_classes (r : Rng E) :
  NoDup (CLASSES cat) →
  NoDup (DAYS cat) →
  teachersListed = true →
  ∃ s σ, runBuildSchedule r = Ok s σ ∧
    (∀ k cls day n,
       CLASSES cat !! k = Some cls → day ∈ DAYS cat → n ∈ teachingPeriods →
       if decide (k < length staff)
       then ∃ sl, cell s cls day (Num n) = Some (Assigned sl)
       else cell s cls day (Num n) = Some FreeMark) ∧
    (DAYS cat ≠ [] →
     ((∀ cls day n, cls ∈ CLASSES cat → day ∈ DAYS cat → n ∈ teachingPeriods →
                    isObject (cell s cls day (Num n)) = true) ↔
      length (CLASSES cat) ≤ length staff)).
Proof.
  intros Hnd Hndd Hlisted.
  assert (post (runBuildSchedule r)
            (λ s σ, s = newSchedule σ ∧ rationed (λ _ _ _, True) σ) (λ _, False)) as Hpost.
  { unfold runBuildSchedule, buildSchedule. apply post_bind.
    pose proof (initSchedule_post [] (initialStore r)) as Hinit.
    destruct (initSchedule_run (initialStore r)) as (σ1 & Hrun & Hgraph & _).
    rewrite Hrun in *. cbn [post] in *.
    destruct Hinit as (Hsound & _ & Hgrid).
    { split_and!; [apply sound_initialStore|done|]. by intros c d p []. }
    apply post_bind. eapply post_mono; [apply assignAll_ration; try done| |done].
    - split_and!; [done..|]. intros k c d n Hc Hd Hn. split; [done|]. intros _.
      rewrite Hgraph, fillGrid_cell.
      rewrite decide_True by by eapply list_elem_of_lookup_2.
      rewrite decide_True; [done|]. split; [done|]. by apply teaching_in_PERIODS.
    - by intros [] σ2 Hrat. }
  destruct (runBuildSchedule r) as [s σ|e σ|]; simpl in Hpost; [|done..].
  destruct Hpost as [-> (_ & _ & Hrat)]. exists (newSchedule σ), σ. split; [done|].
  assert (∀ k cls day n,
    CLASSES cat !! k = Some cls → day ∈ DAYS cat → n ∈ teachingPeriods →
    if decide (k < length (staff (cat:=cat)))
    then ∃ sl, cell (newSchedule σ) cls day (Num n) = Some (Assigned sl)
    else cell (newSchedule σ) cls day (Num n) = Some FreeMark) as Hshare.
  { intros k cls day n Hcls Hday Hn. destruct (Hrat k cls day n Hcls Hday Hn) as [Hs _].
    specialize (Hs I). unfold served, filled in Hs. done. }
  split; [done|]. intros Hdays. split.
  - intros Hfull. destruct (decide (length (CLASSES cat) ≤ length (staff (cat:=cat))))
      as [|Hfew]; [done|]. exfalso.
    destruct (lookup_lt_is_Some_2 (CLASSES cat) (length (staff (cat:=cat))))
      as [cls Hcls]; [lia|].
    destruct (DAYS cat) as [|day dl] eqn:HD; [done|].
    assert (day ∈ DAYS cat) as Hday by (rewrite HD; by left).
    assert (1 ∈ teachingPeriods) as Hone by (unfold teachingPeriods; in_list).
    rewrite <- HD in *.
    pose proof (Hshare _ cls day 1 Hcls Hday Hone) as Hfree.
    rewrite decide_False in Hfree by lia.
    specialize (Hfull cls day 1 (list_elem_of_lookup_2 _ _ _ Hcls) Hday Hone).
    by rewrite Hfree in Hfull.
  - intros Hmany cls day n Hcls Hday Hn. apply list_elem_of_lookup in Hcls as [k Hk].
    pose proof (Hshare k cls day n Hk Hday Hn) as Hserved.
    rewrite decide_True in Hserved.
    + destruct Hserved as [sl ->]. done.
    + apply lookup_lt_Some in Hk. lia.
Qed.

End Rationing.

Section Raising.

Context {E : Engine} {cat : Catalog}.

(** ** When the slot assigner raises *)

Lemma forTeachers_ready cls day period subject0 ts σ :
  ready (newSchedule σ) day →
  is_Some (dayOf (newSchedule σ) cls day) →
  forTeachers cls day period subject0 ts false σ =
    match firstSome (λ t, if isTeacherFree t day period (newSchedule σ)
                          then Some t else None) ts with
    | Some t =>
        Ok true (mutated (writeCell (newSchedule σ) cls day (Num period)
                            (Assigned (mkSlot subject0 t))) σ)
    | None => Ok false σ
    end.
Proof.
  intros Hready Hhas.
  pose proof (forTeachers_post cls day period subject0 ts false σ []) as Hpost.
  destruct (forTeachers cls day period subject0 ts false σ) as [b σ'|e σ'|];
    simpl in Hpost; [| |done].
  - destruct (firstSome _ ts) as [t|].
    + by destruct Hpost as (-> & _ & ->).
    + by destruct Hpost as [-> ->].
  - destruct Hpost as [_ Hnot]. destruct Hnot. split_and!; [done..|].
    intros subj Hsubj. by inv Hsubj.
Qed.

Lemma whileAttempts_candidates fuel cls day period rotation idx a σ :
  ready (newSchedule σ) day →
  is_Some (dayOf (newSchedule σ) cls day) →
  length rotation - a ≤ fuel →
  whileAttempts fuel cls day period rotation idx false a σ =
    match firstSome (candidate day period (newSchedule σ) rotation idx)
            (seq a (length rotation - a)) with
    | Some None => Throw notIterable σ
    | Some (Some sl) =>
        Ok true (mutated (writeCell (newSchedule σ) cls day (Num period) (Assigned sl)) σ)
    | None => Ok false σ
    end.
Proof.
  intros Hready Hhas. revert a. induction fuel as [|fuel IH]; intros a Hfuel.
  - rewrite whileAttempts_exhausted by lia.
    by replace (length rotation - a) with 0 by lia.
  - destruct (decide (length rotation ≤ a)) as [Hge|Hlt].
    { rewrite whileAttempts_exhausted by lia.
      by replace (length rotation - a) with 0 by lia. }
    replace (length rotation - a) with (S (length rotation - S a)) by lia.
    cbn [whileAttempts seq firstSome]. rewrite bool_decide_eq_true_2 by lia.
    cbn [negb andb].
    destruct (rotationEntry_in_range rotation (idx + a) σ) as (subj & Hsubj & Hentry).
    { intros ->. simpl in Hlt. lia. }
    unfold bind at 1. rewrite Hentry. unfold candidate at 1. rewrite Hsubj.
    unfold bind at 1. unfold teachersOf.
    destruct (TEACHERS cat !! subj) as [ts|] eqn:Hts; [|done].
    unfold ret at 1. unfold bind at 1. rewrite forTeachers_ready by done.
    destruct (firstSome _ ts) as [t|].
    + by rewrite whileAttempts_assigned.
    + apply IH. lia.
Qed.

Lemma firstSome_first {A B} (f : A → option B) (pre suf : list A) x b :
  f x = Some b → (∀ y, y ∈ pre → f y = None) → firstSome f (pre ++ x :: suf) = Some b.
Proof.
  intros Hx. induction pre as [|y pre IH]; intros Hpre; simpl.
  - by rewrite Hx.
  - rewrite (Hpre y) by by left. apply IH. intros z Hz. apply Hpre. by right.
Qed.

Lemma seq_split_at N (pre suf : list nat) k :
  seq 0 N = pre ++ k :: suf → pre = seq 0 k ∧ k < N.
Proof.
  intros Hseq.
  assert (seq 0 N !! length pre = Some k) as Hlk.
  { rewrite Hseq. by rewrite list_lookup_middle. }
  apply lookup_seq in Hlk as [Hk Hlt]. simpl in Hk. split; [|lia].
  assert (take (length pre) (seq 0 N) = pre) as Htake.
  { rewrite Hseq. by rewrite take_app_length. }
  rewrite <- Htake. rewrite take_seq. f_equal. lia.
Qed.

Lemma candidate_goes_on day period s rotation idx j :
  j < length rotation →
  candidate day period s rotation idx j = None ↔ allTaken day period s rotation idx j.
Proof.
  intros Hj. unfold candidate, allTaken.
  destruct (lookup_lt_is_Some_2 rotation ((idx + j) mod length rotation)) as [subj Hsubj].
  { apply Nat.mod_upper_bound. lia. }
  rewrite Hsubj. destruct (TEACHERS cat !! subj) as [ts|] eqn:Hts.
  - split.
    + intros Hnone. exists subj, ts. split_and!; [done..|].
      destruct (firstSome _ ts) as [t|] eqn:Hfirst; [done|].
      rewrite firstSome_None in Hfirst. intros t Ht. specialize (Hfirst t Ht).
      by destruct (isTeacherFree t day period s).
    + intros (subj' & ts' & [= <-] & Hts' & Hall).
      rewrite Hts in Hts'. injection Hts' as <-.
      destruct (firstSome _ ts) as [t|] eqn:Hfirst; [|done].
      apply firstSome_Some in Hfirst as (pre & x & suf & -> & Hx & _).
      rewrite Hall in Hx; [done|]. apply elem_of_app. right. by left.
  - split; [done|]. intros (subj' & ts' & [= <-] & Hts' & _). congruence.
Qed.

Lemma assignPeriod_candidates cls day rotation idx period σ :
  ready (newSchedule σ) day →
  is_Some (dayOf (newSchedule σ) cls day) →
  assignPeriod cls day rotation idx period σ =
    match firstSome (candidate day period (newSchedule σ) rotation idx)
            (seq 0 (length rotation)) with
    | Some None => Throw notIterable σ
    | Some (Some sl) =>
        Ok (S idx) (mutated (writeCell (newSchedule σ) cls day (Num period)
                               (Assigned sl)) σ)
    | None => Ok idx (mutated (writeCell (newSchedule σ) cls day (Num period) FreeMark) σ)
    end.
Proof.
  intros Hready Hhas. unfold assignPeriod, bind.
  rewrite whileAttempts_candidates by (done || lia). rewrite Nat.sub_0_r.
  destruct (firstSome _ _) as [[sl|]|]; [done..|].
  rewrite setSlot_eq. by destruct Hhas as [ds ->].
Qed.

(** X6. The exception of the slot assigner (lines 109-122), on a schedule
    in progress and for any rotation, also one with subjects that have no
    entry in [TEACHERS]. The call raises exactly when some candidate,
    taken in the order of the loop, has no entry in [TEACHERS] and every
    candidate before it has a teacher list on which all teachers are
    reported busy: a candidate with a free teacher ends the loop before
    the faulty one is reached. The exception is that of iterating
    [undefined], nothing has been written when it is raised, and the
    fallback is not reached. *)
Theorem assignPeriod_raises cls day rotation idx period σ :
  ready (newSchedule σ) day →
  is_Some (dayOf (newSchedule σ) cls day) →
  (assignPeriod cls day rotation idx period σ = Throw notIterable σ ↔
     ∃ k subj, k < length rotation ∧
       rotation !! ((idx + k) mod length rotation) = Some subj ∧
       TEACHERS cat !! subj = None ∧
       ∀ j, j < k → allTaken day period (newSchedule σ) rotation idx j) ∧
  (∀ e σ', assignPeriod cls day rotation idx period σ = Throw e σ' →
           e = notIterable ∧ σ' = σ).
Proof.
  intros Hready Hhas. rewrite assignPeriod_candidates by done. split.
  - split.
    + intros Hthrow.
      destruct (firstSome _ _) as [[sl|]|] eqn:Hfirst; [done| |done].
      apply firstSome_Some in Hfirst as (pre & k & suf & Hseq & Hk & Hpre).
      apply seq_split_at in Hseq as [-> Hlt].
      destruct (lookup_lt_is_Some_2 rotation ((idx + k) mod length rotation))
        as [subj Hsubj].
      { apply Nat.mod_upper_bound. lia. }
      exists k, subj. split_and!; [done..| |].
      * unfold candidate in Hk. rewrite Hsubj in Hk.
        destruct (TEACHERS cat !! subj) as [ts|]; [|done].
        by destruct (firstSome _ ts).
      * intros j Hj. apply candidate_goes_on; [lia|]. apply Hpre, elem_of_seq. lia.
    + intros (k & subj & Hk & Hsubj & Hts & Hbefore).
      assert (seq 0 (length rotation) = seq 0 k ++ k :: seq (S k) (length rotation - S k))
        as ->.
      { replace (length rotation) with (k + S (length rotation - S k)) at 1 by lia.
        by rewrite seq_app. }
      rewrite (firstSome_first _ _ _ _ None); [done| |].
      * unfold candidate. by rewrite Hsubj, Hts.
      * intros j Hj%elem_of_seq. apply candidate_goes_on; [lia|]. apply Hbefore. lia.
  - intros e σ'. destruct (firstSome _ _) as [[sl|]|]; [done| |done].
    by intros [= <- <-].
Qed.

(** ** The loop stops within the length of the rotation *)

Lemma forTeachers_returns cls day period subject0 ts assigned σ :
  forTeachers cls day period subject0 ts assigned σ ≠ OutOfFuel.
Proof.
  pose proof (forTeachers_post cls day period subject0 ts assigned σ []) as Hpost.
  intros Heq. by rewrite Heq in Hpost.
Qed.

(** X7. The [while] loop of lines 109-122 makes at most
    [dailySubjects.length - attempts] iterations, on any store and for any
    rotation: the model's loop, given at least that much fuel, is never cut
    short, and its outcome is the same for every such amount of fuel. *)
Theorem whileAttempts_terminates fuel cls day period rotation idx assigned a σ :
  length rotation - a ≤ fuel →
  whileAttempts fuel cls day period rotation idx assigned a σ =
    whileAttempts (length rotation - a) cls day period rotation idx assigned a σ ∧
  whileAttempts fuel cls day period rotation idx assigned a σ ≠ OutOfFuel.
Proof.
  revert a assigned σ. induction fuel as [|fuel IH]; intros a assigned σ Hfuel.
  - replace (length rotation - a) with 0 by lia. split; [done|].
    destruct assigned; [by rewrite whileAttempts_assigned|].
    by rewrite whileAttempts_exhausted by lia.
  - destruct assigned; [by rewrite !whileAttempts_assigned|].
    destruct (decide (length rotation ≤ a)) as [Hge|Hlt].
    { by rewrite !whileAttempts_exhausted by lia. }
    replace (length rotation - a) with (S (length rotation - S a)) by lia.
    cbn [whileAttempts]. rewrite bool_decide_eq_true_2 by lia. cbn [negb andb].
    unfold bind.
    destruct (rotationEntry rotation (idx + a) σ) as [subj σ1|e σ1|] eqn:Hentry;
      [|done|].
    + destruct (teachersOf subj σ1) as [ts σ2|e σ2|] eqn:Hts; [|done|].
      * destruct (forTeachers cls day period subj ts false σ2) as [b σ3|e σ3|] eqn:Hfor;
          [|done|by destruct (forTeachers_returns _ _ _ _ _ _ _ Hfor)].
        apply IH. lia.
      * unfold teachersOf in Hts. by destruct (TEACHERS cat !! subj).
    + unfold rotationEntry in Hentry. destruct (length rotation); [done|].
      by destruct (rotation !! _).
Qed.

End Raising.

Section Pointer.

Context {E : Engine} {cat : Catalog}.

(** ** The pointer counts the successes *)

Lemma assignedPeriods_frame (s s' : FullSchedule) cls day ps :
  (∀ p, p ∈ ps → cell s' cls day (Num p) = cell s cls day (Num p)) →
  assignedPeriods s' cls day ps = assignedPeriods s cls day ps.
Proof.
  unfold assignedPeriods. induction ps as [|n ps IH]; intros Hsame; [done|].
  rewrite !filter_cons, (Hsame n) by by left.
  rewrite IH; [done|]. intros p Hp. apply Hsame. by right.
Qed.

(** X8. The rotation pointer counts the successes. When the period loop
    of a (class, day) has run over periods without repetition, from any
    store and with any rotation, the pointer has moved by the number of
    those periods at which the class now holds an assignment: each period
    ends with an assignment in its slot and the pointer one further, or
    with Free in its slot and the pointer where it was, and no later
    period touches the slot again. *)
Theorem pointer_counts_assignments cls day rotation ps idx σ idx' σ' :
  NoDup ps →
  assignPeriods cls day rotation idx ps σ = Ok idx' σ' →
  idx' = idx + length (assignedPeriods (newSchedule σ') cls day ps).
Proof.
  intros Hnd. revert idx σ. induction Hnd as [|n ps Hn Hnd IH]; intros idx σ Hrun.
  - injection Hrun as -> _. simpl. lia.
  - rewrite assignPeriods_cons in Hrun. unfold bind in Hrun.
    destruct (assignPeriod cls day rotation idx n σ) as [idx1 σ1| |] eqn:Hstep; [|done..].
    rewrite (IH _ _ Hrun).
    pose proof (assignPeriods_frame _ _ _ _ _ _ _ _ n Hrun Hn) as Hsame.
    unfold assignedPeriods at 2. rewrite filter_cons. fold (assignedPeriods (newSchedule σ') cls day ps).
    rewrite Hsame.
    destruct (assignPeriod_outcome _ _ _ _ _ _ _ _ Hstep) as [[Hobj ->]|[Hfree ->]].
    + rewrite decide_True by done. simpl. lia.
    + rewrite Hfree. simpl. lia.
Qed.

End Pointer.

Section FreshDay.

Context {E : Engine} {cat : Catalog}.

(** ** A day on which no class holds a teacher yet *)




Lemma ready_writeCell s cls day p v d : ready s d → ready (writeCell s cls day p v) d.
Proof. intros Hready c Hc. apply hasDay_writeCell. by apply Hready. Qed.

Lemma teachingPeriods_seq : teachingPeriods = seq 1 6.
Proof. done. Qed.





(** ** A subject without teacher list, in a catalog of at most six subjects *)

Lemma unlisted_subject :
  teachersListed = false → ∃ subj, subj ∈ SUBJECTS cat ∧ TEACHERS cat !! subj = None.
Proof.
  unfold teachersListed. induction (SUBJECTS cat) as [|x l IH]; simpl; [done|].
  intros [Hx|Hl]%andb_false_iff.
  - exists x. split; [by left|]. apply bool_decide_eq_false in Hx.
    by apply eq_None_not_Some.
  - destruct (IH Hl) as (subj & Hin & Hnone). exists subj. split; [by right|done].
Qed.

Lemma assignPeriods_reaches cls day rotation u subj :
  rotation !! u = Some subj →
  TEACHERS cat !! subj = None →
  u < 6 →
  ∀ d j σ,
    j + d = u →
    ready (newSchedule σ) day →
    is_Some (dayOf (newSchedule σ) cls day) →
    ∃ σ', assignPeriods cls day rotation j (seq (S j) (6 - j)) σ = Throw notIterable σ'.
Proof.
  intros Hsubj Hts Hu. pose proof (lookup_lt_Some _ _ _ Hsubj) as Hlen.
  induction d as [|d IH]; intros j σ Hj Hready Hhas.
  - replace (6 - j) with (S (5 - j)) by lia. cbn [seq].
    rewrite assignPeriods_cons. unfold bind. rewrite assignPeriod_candidates by done.
    assert (firstSome (candidate day (S j) (newSchedule σ) rotation j)
              (seq 0 (length rotation)) = Some None) as ->; [|by eexists].
    destruct rotation as [|x rotation]; [simpl in Hlen; lia|]. cbn [length seq firstSome].
    unfold candidate. rewrite Nat.add_0_r, Nat.mod_small by (simpl in Hlen; simpl; lia).
    replace j with u by lia. by rewrite Hsubj, Hts.
  - replace (6 - j) with (S (6 - S j)) by lia. cbn [seq].
    rewrite assignPeriods_cons. unfold bind. rewrite assignPeriod_candidates by done.
    destruct (firstSome _ _) as [[sl|]|] eqn:Hfirst.
    + apply IH; [lia|by apply ready_writeCell|by apply hasDay_writeCell].
    + by eexists.
    + exfalso. rewrite firstSome_None in Hfirst.
      destruct (rotation_covered (length rotation) j u Hlen) as (k & Hk & Hmod).
      specialize (Hfirst k). unfold candidate in Hfirst.
      rewrite Hmod, Hsubj, Hts in Hfirst. discriminate Hfirst. apply elem_of_seq. lia.
Qed.

Lemma assignDay_reaches cls day σ subj :
  subj ∈ SUBJECTS cat →
  TEACHERS cat !! subj = None →
  length (SUBJECTS cat) ≤ 6 →
  ready (newSchedule σ) day →
  is_Some (dayOf (newSchedule σ) cls day) →
  ∃ σ', assignDay cls day σ = Throw notIterable σ'.
Proof.
  intros Hsubj Hts Hsmall Hready Hhas.
  pose proof (sortRandom_perm E (SUBJECTS cat) (rng σ)) as Hperm.
  rewrite <- Hperm in Hsubj. apply list_elem_of_lookup in Hsubj as [u Hu].
  pose proof (lookup_lt_Some _ _ _ Hu) as Hlen. rewrite (Permutation_length Hperm) in Hlen.
  unfold assignDay, bind. rewrite shuffleSubjects_eq, teachingPeriods_seq.
  destruct (assignPeriods_reaches cls day _ u subj Hu Hts) with
    (d := u) (j := 0) (σ := shuffled cls day σ) as [σ' Hrun]; [lia|done..|].
  change (6 - 0) with 6 in Hrun. rewrite Hrun. by eexists.
Qed.

Lemma forEach_first_throw {A} (l : list A) (f : A → M unit) x σ e σ' :
  head l = Some x → f x σ = Throw e σ' → forEach l f σ = Throw e σ'.
Proof. destruct l as [|y l]; [done|]. intros [= ->] Hx. simpl. unfold bind. by rewrite Hx. Qed.

(** X10. With at most six subjects (and a class and a day to schedule),
    [buildSchedule] raises exactly when some subject of [SUBJECTS] has no
    entry in [TEACHERS], whatever the random source gives: the six periods
    of the first class's first day move the pointer through the whole
    rotation, so the faulty subject is reached as a candidate before the
    day is over. (With more subjects than periods a rotation can keep the
    faulty subject out of reach; the last theorem of the file has such a
    run.) *)
Theorem small_catalog_fails_iff_unlisted (r : Rng E) :
  CLASSES cat ≠ [] →
  DAYS cat ≠ [] →
  length (SUBJECTS cat) ≤ 6 →
  ((∃ e σ, runBuildSchedule r = Throw e σ) ↔ teachersListed = false).
Proof.
  intros Hclasses Hdays Hsmall. split.
  - intros (e & σ & Hrun). pose proof (buildSchedule_post r) as Hpost.
    rewrite Hrun in Hpost. by destruct Hpost as (_ & _ & Hlisted).
  - intros (subj & Hsubj & Hts)%unlisted_subject.
    assert (∃ cls, head (CLASSES cat) = Some cls ∧ cls ∈ CLASSES cat) as (cls & Hhd & Hcls).
    { destruct (CLASSES cat) as [|cls l]; [done|]. exists cls. split; [done|by left]. }
    assert (∃ day, head (DAYS cat) = Some day ∧ day ∈ DAYS cat) as (day & Hhd' & Hday).
    { destruct (DAYS cat) as [|day l]; [done|]. exists day. split; [done|by left]. }
    unfold runBuildSchedule, buildSchedule, bind.
    destruct (initSchedule_run (initialStore r)) as (σ1 & -> & Hgraph & _).
    assert (∀ c, c ∈ CLASSES cat → is_Some (dayOf (newSchedule σ1) c day)) as Hready.
    { intros c Hc. rewrite Hgraph, fillGrid_dayOf. by rewrite !decide_True. }
    destruct (assignDay_reaches cls day σ1 subj) as [σ' Hthrow]; [done..|by apply Hready|].
    exists notIterable, σ'. unfold assignAll.
    rewrite (forEach_first_throw _ _ cls σ1 notIterable σ'); [done..|].
    by apply (forEach_first_throw _ _ day).
Qed.

(** ** The first class of the catalog *)




End FreshDay.

Section Failure.

Context {E : Engine} {cat : Catalog}.

(** ** The one exception of a run *)

Lemma raisesOnly_forEach {A} e0 (I : Store → Prop) (f : A → M unit) (l : list A) :
  (∀ x σ, x ∈ l → I σ → raisesOnly e0 I (f x σ)) →
  ∀ σ, I σ → raisesOnly e0 I (forEach l f σ).
Proof.
  induction l as [|x l IH]; intros Hstep σ HI; simpl; [done|].
  unfold bind. pose proof (Hstep x σ (list_elem_of_here x l) HI) as Hx.
  destruct (f x σ) as [[] σ'|e σ'|]; [|done..].
  apply IH; [|done]. intros y σ'' Hy. apply Hstep. by right.
Qed.

Lemma raisesOnly_forEachWith {A S} e0 (I : Store → Prop) (f : S → A → M S) (l : list A) :
  (∀ s x σ, x ∈ l → I σ → raisesOnly e0 I (f s x σ)) →
  ∀ s σ, I σ → raisesOnly e0 I (forEachWith l s f σ).
Proof.
  induction l as [|x l IH]; intros Hstep s σ HI; simpl; [done|].
  unfold bind. pose proof (Hstep s x σ (list_elem_of_here x l) HI) as Hx.
  destruct (f s x σ) as [s' σ'|e σ'|]; [|done..].
  apply IH; [|done]. intros s'' y σ'' Hy. apply Hstep. by right.
Qed.

Lemma assignPeriod_raisesOnly cls day rotation idx n σ :
  cls ∈ CLASSES cat →
  day ∈ DAYS cat →
  gridComplete (newSchedule σ) →
  raisesOnly notIterable (λ σ', gridComplete (newSchedule σ'))
    (assignPeriod cls day rotation idx n σ).
Proof.
  intros Hcls Hday Hgrid. rewrite assignPeriod_candidates.
  - destruct (firstSome _ _) as [[sl|]|]; simpl; [|done|].
    + apply gridComplete_writeCell; [done|]. right. eauto.
    + apply gridComplete_writeCell; [done|]. by left.
  - by apply gridComplete_ready.
  - by apply gridComplete_hasDay.
Qed.

Lemma assignAll_raisesOnly σ :
  gridComplete (newSchedule σ) →
  raisesOnly notIterable (λ σ', gridComplete (newSchedule σ')) (assignAll σ).
Proof.
  intros Hgrid. unfold assignAll.
  apply (raisesOnly_forEach notIterable (λ σ', gridComplete (newSchedule σ')));
    [|done].
  intros cls σ1 Hcls Hgrid1.
  apply (raisesOnly_forEach notIterable (λ σ', gridComplete (newSchedule σ')));
    [|done].
  intros day σ2 Hday Hgrid2. unfold assignDay, bind. rewrite shuffleSubjects_eq.
  pose proof (raisesOnly_forEachWith notIterable (λ σ', gridComplete (newSchedule σ'))
                (assignPeriod cls day (sortRandom E (SUBJECTS cat) (rng σ2)).1)
                teachingPeriods) as Hloop.
  unfold assignPeriods.
  specialize (Hloop (λ idx n σ' _ Hσ', assignPeriod_raisesOnly cls day _ idx n σ' Hcls Hday Hσ')
                0 (shuffled cls day σ2) Hgrid2).
  by destruct (forEachWith teachingPeriods 0 _ (shuffled cls day σ2)).
Qed.

(** C2, as the code has it. [buildSchedule] does not validate the catalog
    and has no configuration error. A subject whose teacher list is empty
    raises nothing: the [for] loop over its teachers ends at once with the
    store and the flag as they were, so it is passed over as a candidate;
    it is never assigned; and when every subject has a teacher list, empty
    or not, the build returns, with the complete grid. The build fails only
    when a subject of [SUBJECTS] has no entry in [TEACHERS] at all: the one
    exception a run can raise is the [TypeError] of iterating [undefined];
    it is raised by the assignment phase, after initialisation has come to
    its end with the whole grid in place, and then no schedule is
    returned. The model's loop is never cut short. *)
Theorem no_configuration_error (r : Rng E) :
  (∀ cls day n subj assigned σ,
     forTeachers cls day n subj [] assigned σ = Ok assigned σ) ∧
  (teachersListed = true → ∃ s σ, runBuildSchedule r = Ok s σ) ∧
  (∀ s σ, runBuildSchedule r = Ok s σ →
     gridComplete s ∧
     ∀ subj c day p sl,
       TEACHERS cat !! subj = Some [] →
       cell s c day p = Some (Assigned sl) → subject sl ≠ subj) ∧
  (∃ σ1, initSchedule (initialStore r) = Ok tt σ1 ∧
         gridComplete (newSchedule σ1) ∧
         ∀ e σ, runBuildSchedule r = Throw e σ →
           e = notIterable ∧
           assignAll σ1 = Throw e σ ∧
           gridComplete (newSchedule σ) ∧
           returned (runBuildSchedule r) = None ∧
           ∃ subj, subj ∈ SUBJECTS cat ∧ TEACHERS cat !! subj = None) ∧
  runBuildSchedule r ≠ OutOfFuel.
Proof.
  destruct (initSchedule_run (initialStore r)) as (σ1 & Hinit & Hgraph & _).
  assert (gridComplete (newSchedule σ1)) as Hgrid1.
  { intros cls day p Hcls Hday Hp. rewrite Hgraph, fillGrid_cell, !decide_True by done.
    exists (initialMark p). split; [done|]. destruct p; simpl; eauto. }
  assert (runBuildSchedule r =
            match assignAll σ1 with
            | Ok _ σ' => Ok (newSchedule σ') σ'
            | Throw e σ' => Throw e σ'
            | OutOfFuel => OutOfFuel
            end) as Hrun.
  { unfold runBuildSchedule, buildSchedule, bind. by rewrite Hinit. }
  pose proof (buildSchedule_post r) as Hpost.
  pose proof (assignAll_raisesOnly σ1 Hgrid1) as Hraise.
  split_and!.
  - done.
  - intros Hlisted. destruct (runBuildSchedule r) as [s σ|e σ|]; simpl in Hpost;
      [eauto| |done].
    destruct Hpost as (_ & _ & Hfalse). congruence.
  - intros s σ Hok. rewrite Hok in Hpost. simpl in Hpost.
    destruct Hpost as [-> ((_ & _ & _ & Hvalid & _) & Hgrid & _)]. split; [done|].
    intros subj c day p sl Hempty Hcell <-.
    destruct (Hvalid c day p sl Hcell) as (_ & ts & Hts & Hin).
    rewrite Hempty in Hts. injection Hts as <-. by inv Hin.
  - exists σ1. split_and!; [done..|]. intros e σ Hthrow.
    rewrite Hthrow in Hpost. simpl in Hpost. destruct Hpost as (_ & Hgrid & Hlisted).
    rewrite Hthrow in Hrun.
    destruct (assignAll σ1) as [[] σ'|e' σ'|]; [done| |done].
    injection Hrun as -> ->. simpl in Hraise.
    split_and!; [done..|by rewrite Hthrow|by apply unlisted_subject].
  - intros Heq. by rewrite Heq in Hpost.
Qed.

End Failure.

Section Offset.

Context {E : Engine} {cat : Catalog}.

(** ** The rotation entries an attempt reads *)

Lemma slotFor_None_entry day n s rotation idx m :
  m < length rotation →
  slotFor day n s rotation idx m = None →
  ∃ subj, rotation !! ((idx + m) mod length rotation) = Some subj ∧
          firstFreeTeacher day n s subj = None.
Proof.
  intros Hm Hnone.
  destruct (lookup_lt_is_Some_2 rotation ((idx + m) mod length rotation)) as [subj Hsubj].
  { apply Nat.mod_upper_bound. lia. }
  exists subj. split; [done|]. unfold slotFor in Hnone. rewrite Hsubj in Hnone.
  simpl in Hnone. by destruct (firstFreeTeacher day n s subj).
Qed.

Lemma assignSlot_offset day n rotation idx s sl :
  assignSlot day n rotation idx s = Some sl →
  ∃ k, k < length rotation ∧
       rotation !! ((idx + k) mod length rotation) = Some (subject sl) ∧
       firstFreeTeacher day n s (subject sl) = Some (teacher sl) ∧
       ∀ m, m < k →
         ∃ subj, rotation !! ((idx + m) mod length rotation) = Some subj ∧
                 firstFreeTeacher day n s subj = None.
Proof.
  unfold assignSlot. intros (pre & k & suf & Hseq & Hk & Hpre)%firstSome_Some.
  apply seq_split_at in Hseq as [-> Hlt]. exists k. split; [done|].
  unfold slotFor in Hk.
  destruct (rotation !! ((idx + k) mod length rotation)) as [subj|] eqn:Hsubj; [|done].
  simpl in Hk. destruct (firstFreeTeacher day n s subj) as [t|] eqn:Ht; [|done].
  injection Hk as <-. simpl. split_and!; [done..|].
  intros m Hm. apply slotFor_None_entry; [lia|]. apply Hpre, elem_of_seq. lia.
Qed.

Lemma assignPeriod_offset cls day rotation idx n σ idx' σ' :
  assignPeriod cls day rotation idx n σ = Ok idx' σ' →
  (∃ k sl,
     idx' = S idx ∧ k < length rotation ∧
     rotation !! ((idx + k) mod length rotation) = Some (subject sl) ∧
     firstFreeTeacher day n (newSchedule σ) (subject sl) = Some (teacher sl) ∧
     (∀ m, m < k →
        ∃ subj, rotation !! ((idx + m) mod length rotation) = Some subj ∧
                firstFreeTeacher day n (newSchedule σ) subj = None) ∧
     cell (newSchedule σ') cls day (Num n) = Some (Assigned sl))
  ∨
  (idx' = idx ∧
   (∀ k, k < length rotation →
      ∃ subj, rotation !! ((idx + k) mod length rotation) = Some subj ∧
              firstFreeTeacher day n (newSchedule σ) subj = None) ∧
   cell (newSchedule σ') cls day (Num n) = Some FreeMark).
Proof.
  intros Hrun. pose proof (assignPeriod_post cls day rotation idx n σ) as Hpost.
  rewrite Hrun in Hpost. simpl in Hpost. destruct Hpost as [Hhas Hcase].
  destruct (assignSlot day n rotation idx (newSchedule σ)) as [sl|] eqn:Hslot.
  - left. destruct Hcase as [-> ->].
    destruct (assignSlot_offset _ _ _ _ _ _ Hslot) as (k & Hk & Hsubj & Hfree & Hearlier).
    exists k, sl. split_and!; [done..|]. simpl. by apply cell_writeCell_same.
  - right. destruct Hcase as (-> & -> & _). split_and!; [done| |].
    + intros k Hk. apply slotFor_None_entry; [done|].
      unfold assignSlot in Hslot. rewrite firstSome_None in Hslot.
      apply Hslot, elem_of_seq. lia.
    + simpl. by apply cell_writeCell_same.
Qed.

(** C3. Rotation monotonicity: in the period loop of one (class, day), let
    [p] be a period whose assignment succeeds, attempted with the pointer at
    [i], and let every period between [p] and a later period [q] end up
    Free. The attempt at [p] used offset [i]: the subject it assigned is
    the rotation entry at index [(i + k) mod N] for the first candidate
    [k] with a free teacher. The success moves the pointer to [i + 1], the
    Free periods leave it there, and the loop goes on at [q] with offset
    [i + 1]: its candidate [k] is the rotation entry the loop reads at
    index [(i + 1 + k) mod N]; if the attempt at [q] succeeds, the subject
    assigned is the entry at [(i + 1 + k) mod N] for the first candidate
    [k] with a free teacher, every entry [(i + 1 + m) mod N] before it
    having none, and the pointer becomes [i + 2]; if it ends up Free, all
    [N] entries from offset [i + 1] on have no free teacher and the
    pointer stays at [i + 1]. *)
Theorem rotation_monotonicity cls day rotation before p between q after
    σ0 σ1 σ2 σ3 (i i' j : nat) :
  teachingPeriods = before ++ p :: between ++ q :: after →
  assignPeriods cls day rotation 0 before σ0 = Ok i σ1 →
  assignPeriod cls day rotation i p σ1 = Ok i' σ2 →
  isObject (cell (newSchedule σ2) cls day (Num p)) = true →
  assignPeriods cls day rotation i' between σ2 = Ok j σ3 →
  (∀ p', p' ∈ between → cell (newSchedule σ3) cls day (Num p') = Some FreeMark) →
  i' = S i ∧ j = S i ∧
  (∃ k sl,
     k < length rotation ∧
     rotation !! ((i + k) mod length rotation) = Some (subject sl) ∧
     firstFreeTeacher day p (newSchedule σ1) (subject sl) = Some (teacher sl) ∧
     (∀ m, m < k →
        ∃ subj, rotation !! ((i + m) mod length rotation) = Some subj ∧
                firstFreeTeacher day p (newSchedule σ1) subj = None) ∧
     cell (newSchedule σ2) cls day (Num p) = Some (Assigned sl)) ∧
  assignPeriods cls day rotation 0 teachingPeriods σ0 =
    bind (assignPeriod cls day rotation (S i) q)
         (λ i'', assignPeriods cls day rotation i'' after) σ3 ∧
  (∀ k, ∃ subj,
     rotation !! ((S i + k) mod length rotation) = Some subj ∧
     rotationEntry rotation (S i + k) σ3 = Ok subj σ3) ∧
  (∀ i'' σ4,
     assignPeriod cls day rotation (S i) q σ3 = Ok i'' σ4 →
     (∃ k sl,
        i'' = S (S i) ∧ k < length rotation ∧
        rotation !! ((S i + k) mod length rotation) = Some (subject sl) ∧
        firstFreeTeacher day q (newSchedule σ3) (subject sl) = Some (teacher sl) ∧
        (∀ m, m < k →
           ∃ subj, rotation !! ((S i + m) mod length rotation) = Some subj ∧
                   firstFreeTeacher day q (newSchedule σ3) subj = None) ∧
        cell (newSchedule σ4) cls day (Num q) = Some (Assigned sl))
     ∨
     (i'' = S i ∧
      (∀ k, k < length rotation →
         ∃ subj, rotation !! ((S i + k) mod length rotation) = Some subj ∧
                 firstFreeTeacher day q (newSchedule σ3) subj = None) ∧
      cell (newSchedule σ4) cls day (Num q) = Some FreeMark)).
Proof.
  intros Hsplit Hbefore Hp Hfilled Hbetween Hfree.
  assert (NoDup between) as Hnd.
  { pose proof teachingPeriods_NoDup as Hall.
    rewrite Hsplit in Hall. apply NoDup_app in Hall as (_ & _ & Hall).
    apply NoDup_cons in Hall as [_ Hall]. by apply NoDup_app in Hall as (Hall & _). }
  destruct (assignPeriod_offset _ _ _ _ _ _ _ _ Hp)
    as [(k & sl & -> & Hk & Hsubj & Hteacher & Hearlier & Hcell)|(_ & _ & Hcell)];
    [|by rewrite Hcell in Hfilled].
  assert (j = S i) as -> by by eapply assignPeriods_free.
  assert (rotation ≠ []) as Hne by (intros ->; simpl in Hk; lia).
  split_and!; [done..| | | |].
  - by exists k, sl.
  - rewrite Hsplit. unfold assignPeriods. rewrite forEachWith_app.
    unfold bind at 1. fold (assignPeriods cls day rotation 0 before). rewrite Hbefore.
    simpl. unfold bind at 1. rewrite Hp. rewrite forEachWith_app.
    unfold bind at 1. fold (assignPeriods cls day rotation (S i) between).
    by rewrite Hbetween.
  - intros k'. by apply rotationEntry_in_range.
  - intros i'' σ4 Hq. by apply (assignPeriod_offset _ _ _ _ _ _ _ _ Hq).
Qed.

End Offset.


Section Display.

Context {E : Engine} {cat : Catalog}.

(** ** The schedule display *)

Lemma mapE_ok {A B} (f : A → JsError + B) (g : A → B) (l : list A) :
  (∀ x, x ∈ l → f x = inr (g x)) → mapE f l = inr (g <$> l).
Proof.
  induction l as [|x l IH]; intros Hall; simpl; [done|].
  rewrite Hall by by left. rewrite IH; [done|]. intros y Hy. apply Hall. by right.
Qed.

Lemma mapE_fail {A B} (f : A → JsError + B) (l : list A) e :
  (∀ x e', x ∈ l → f x = inl e' → e' = e) →
  (∃ x, x ∈ l ∧ f x = inl e) →
  mapE f l = inl e.
Proof.
  induction l as [|x l IH]; intros Hsame (y & Hy & Hfy); simpl; [by inv Hy|].
  destruct (f x) as [e'|b] eqn:Hfx.
  - f_equal. apply (Hsame x); [by left|done].
  - rewrite IH; [done| |].
    + intros z e' Hz. apply Hsame. by right.
    + apply elem_of_cons in Hy as [->|Hy]; [congruence|eauto].
Qed.

Lemma renderCell_ok s cls p day :
  is_Some (dayOf s cls day) ∨ isBreak p = true →
  renderCell s cls p day = inr (cellShown s cls p day).
Proof.
  unfold renderCell, cellShown, cell. destruct (isBreak p); [done|].
  intros [[ds ->]|?]; [|done]. simpl. by destruct (ds !! p) as [[]|].
Qed.

Lemma renderCell_error s cls p day e :
  renderCell s cls p day = inl e →
  e = undefinedRead ∧ dayOf s cls day = None ∧ isBreak p = false.
Proof.
  unfold renderCell. destruct (isBreak p); [done|].
  destruct (dayOf s cls day) as [ds|]; [by destruct (ds !! p) as [[]|]|].
  by intros [= <-].
Qed.

Lemma renderCell_missing s cls p day :
  dayOf s cls day = None → isBreak p = false →
  renderCell s cls p day = inl undefinedRead.
Proof. unfold renderCell. by intros -> ->. Qed.

Lemma renderRow_ok s cls p :
  (∀ day, day ∈ DAYS cat → is_Some (dayOf s cls day)) ∨ isBreak p = true →
  renderRow s cls p = inr (rowShown s cls p).
Proof.
  intros Hok. unfold renderRow, rowShown.
  rewrite (mapE_ok _ (cellShown s cls p)); [done|].
  intros day Hday. apply renderCell_ok. destruct Hok as [Hall|?]; [left|right]; eauto.
Qed.

Lemma renderRow_error s cls p e : renderRow s cls p = inl e → e = undefinedRead.
Proof.
  unfold renderRow.
  destruct (mapE (renderCell s cls p) (DAYS cat)) as [e'|cs] eqn:Hmap; [|done].
  intros [= <-]. clear -Hmap. induction (DAYS cat) as [|day dl IH]; [done|].
  simpl in Hmap. destruct (renderCell s cls p day) as [e''|c] eqn:Hcell.
  - injection Hmap as <-. by apply renderCell_error in Hcell as [-> _].
  - destruct (mapE (renderCell s cls p) dl) as [e''|cs]; [|done].
    injection Hmap as <-. by apply IH.
Qed.

Lemma renderRow_missing s cls p day :
  day ∈ DAYS cat → dayOf s cls day = None → isBreak p = false →
  renderRow s cls p = inl undefinedRead.
Proof.
  intros Hday Hnone Hp. unfold renderRow.
  rewrite (mapE_fail _ _ undefinedRead); [done| |].
  - intros d e' _ He'. by apply renderCell_error in He' as [-> _].
  - exists day. split; [done|]. by apply renderCell_missing.
Qed.

Lemma renderTable_ok s cls :
  (∀ day, day ∈ DAYS cat → is_Some (dayOf s cls day)) →
  renderTable s cls = inr (tableShown s cls).
Proof.
  intros Hall. unfold renderTable, tableShown.
  rewrite (mapE_ok _ (rowShown s cls)); [done|].
  intros p _. apply renderRow_ok. by left.
Qed.

Lemma renderTable_error s cls e : renderTable s cls = inl e → e = undefinedRead.
Proof.
  unfold renderTable.
  destruct (mapE (renderRow s cls) PERIODS) as [e'|rs] eqn:Hmap; [|done].
  intros [= <-]. clear -Hmap. induction PERIODS as [|p ps IH]; [done|].
  simpl in Hmap. destruct (renderRow s cls p) as [e''|row] eqn:Hrow.
  - injection Hmap as <-. by apply renderRow_error in Hrow.
  - destruct (mapE (renderRow s cls) ps) as [e''|rs]; [|done].
    injection Hmap as <-. by apply IH.
Qed.

Lemma renderTable_missing s cls day :
  day ∈ DAYS cat → dayOf s cls day = None →
  renderTable s cls = inl undefinedRead.
Proof.
  intros Hday Hnone. unfold renderTable.
  rewrite (mapE_fail _ _ undefinedRead); [done| |].
  - intros p e' _ He'. by apply renderRow_error in He'.
  - exists (Num 1). split; [unfold PERIODS; in_list|]. by eapply renderRow_missing.
Qed.

Lemma renderSchedule_ok s :
  allDays s → renderSchedule (Some s) = inr (Tables (tablesShown s)).
Proof.
  intros Hall. unfold renderSchedule, tablesShown.
  rewrite (mapE_ok _ (tableShown s)); [done|].
  intros cls Hcls. apply renderTable_ok. intros day Hday. by apply Hall.
Qed.

Lemma renderSchedule_missing s cls day :
  cls ∈ CLASSES cat → day ∈ DAYS cat → dayOf s cls day = None →
  renderSchedule (Some s) = inl undefinedRead.
Proof.
  intros Hcls Hday Hnone. unfold renderSchedule.
  rewrite (mapE_fail _ _ undefinedRead); [done| |].
  - intros c e' _ He'. by apply renderTable_error in He'.
  - exists cls. split; [done|]. by eapply renderTable_missing.
Qed.

Lemma allDays_or_missing s :
  allDays s ∨ ∃ cls day, cls ∈ CLASSES cat ∧ day ∈ DAYS cat ∧ dayOf s cls day = None.
Proof.
  destruct (decide (Forall (λ cls, Forall (λ day, is_Some (dayOf s cls day)) (DAYS cat))
                      (CLASSES cat))) as [Hall|Hnot].
  - left. intros cls day Hcls Hday. rewrite Forall_forall in Hall.
    specialize (Hall cls Hcls). rewrite Forall_forall in Hall. by apply Hall.
  - right. apply not_Forall_Exists in Hnot; [|apply _].
    apply Exists_exists in Hnot as (cls & Hcls & Hnot). simpl in Hnot.
    apply not_Forall_Exists in Hnot; [|apply _].
    apply Exists_exists in Hnot as (day & Hday & Hnot). simpl in Hnot.
    exists cls, day. split_and!; [done..|]. by apply eq_None_not_Some.
Qed.

(** X12. The schedule display (lines 189-274) run on any object graph, for
    a catalog whose class and day names are not among the property names
    every object inherits ([inheritedNames]): for those names line 241
    reads a property the object does not own as [undefined], as
    [renderCell] does. It reads [schedule[cls][day]] for every class of
    [CLASSES] and day of [DAYS], so it raises, with the [TypeError] of
    reading a property of [undefined], exactly when some class of the
    catalog lacks the object of some day of the catalog; otherwise it
    returns one table per class, in the order of [CLASSES], with a row per
    entry of [PERIODS] and a cell per day. The break rows are built without
    reading the schedule. An entry that is missing from a day's object the
    class has, or is not an assignment, is shown as a free period and
    raises nothing. *)
Theorem renderSchedule_outcome (s : FullSchedule) :
  forallb ordinary (CLASSES cat) = true →
  forallb ordinary (DAYS cat) = true →
  (renderSchedule (Some s) = inr (Tables (tablesShown s)) ↔ allDays s) ∧
  (renderSchedule (Some s) = inl undefinedRead ↔
     ∃ cls day, cls ∈ CLASSES cat ∧ day ∈ DAYS cat ∧ dayOf s cls day = None) ∧
  (renderSchedule (Some s) = inr (Tables (tablesShown s)) ∨
   renderSchedule (Some s) = inl undefinedRead) ∧
  (∀ cls day p, isBreak p = true → renderCell s cls p day = inr (BreakCell p)) ∧
  (∀ cls day p, isBreak p = false → is_Some (dayOf s cls day) →
     isObject (cell s cls day p) = false →
     renderCell s cls p day = inr FreePeriodCell).
Proof.
  intros _ _. split_and!.
  - split; [|apply renderSchedule_ok]. intros Hok.
    destruct (allDays_or_missing s) as [|(cls & day & Hcls & Hday & Hnone)]; [done|].
    rewrite (renderSchedule_missing s cls day) in Hok by done. done.
  - split.
    + intros Hfail. destruct (allDays_or_missing s) as [Hall|]; [|done].
      rewrite renderSchedule_ok in Hfail by done. done.
    + intros (cls & day & Hcls & Hday & Hnone). by eapply renderSchedule_missing.
  - destruct (allDays_or_missing s) as [Hall|(cls & day & Hcls & Hday & Hnone)].
    + left. by apply renderSchedule_ok.
    + right. by eapply renderSchedule_missing.
  - intros cls day p Hp. unfold renderCell. by rewrite Hp.
  - intros cls day p Hp [ds Hds]. unfold renderCell, cell. rewrite Hp, Hds. simpl.
    by destruct (ds !! p) as [[]|].
Qed.

Lemma fmap_eq_pointwise {A B} (f g : A → B) (l : list A) :
  f <$> l = g <$> l ↔ ∀ x, x ∈ l → f x = g x.
Proof.
  induction l as [|x l IH]; simpl.
  - split; [|done]. intros _ y Hy. by inv Hy.
  - split.
    + intros [= Hx Hl]. intros y Hy. inv Hy; [done|]. by apply IH.
    + intros Hall. f_equal; [apply Hall; by left|]. apply IH. intros y Hy.
      apply Hall. by right.
Qed.

Lemma numbered_periods n : Num n ∈ PERIODS ↔ n ∈ teachingPeriods.
Proof.
  split; [|apply teaching_in_PERIODS]. unfold PERIODS, teachingPeriods. intros Hn.
  repeat (apply elem_of_cons in Hn as [Hn|Hn]; [try done; injection Hn as ->; in_list|]).
  by inv Hn.
Qed.

Lemma cellShown_assignedAt s cls day n :
  cellShown s cls (Num n) day =
    match assignedAt s cls day n with
    | Some sl => LessonCell sl
    | None => FreePeriodCell
    end.
Proof.
  unfold cellShown, assignedAt. simpl.
  by destruct (cell s cls day (Num n)) as [[]|].
Qed.

Lemma tablesShown_eq s s' :
  tablesShown s = tablesShown s' ↔
  ∀ cls day n, cls ∈ CLASSES cat → day ∈ DAYS cat → n ∈ teachingPeriods →
               assignedAt s cls day n = assignedAt s' cls day n.
Proof.
  unfold tablesShown. rewrite fmap_eq_pointwise. split.
  - intros Htables cls day n Hcls Hday Hn. specialize (Htables cls Hcls).
    apply (f_equal rows) in Htables. cbn [rows tableShown] in Htables.
    rewrite fmap_eq_pointwise in Htables.
    specialize (Htables (Num n) (teaching_in_PERIODS n Hn)).
    apply (f_equal cells) in Htables. cbn [cells rowShown] in Htables.
    rewrite fmap_eq_pointwise in Htables. pose proof (Htables day Hday) as Hcells.
    rewrite !cellShown_assignedAt in Hcells.
    destruct (assignedAt s cls day n), (assignedAt s' cls day n); congruence.
  - intros Hsame cls Hcls. unfold tableShown. f_equal.
    apply fmap_eq_pointwise. intros p Hp. unfold rowShown. f_equal.
    apply fmap_eq_pointwise. intros day Hday. destruct p as [n| |]; [|done..].
    rewrite !cellShown_assignedAt. rewrite Hsame; [done..|]. by apply numbered_periods.
Qed.

(** X13. The display shows the assignments and nothing else. Two object
    graphs that both have the day objects of the catalog are displayed
    alike exactly when they hold the same assignment, or none, in each
    teaching slot of each class and day of the catalog: every assignment of
    the layout can be read off the display, and the break entries, the
    difference between Free and a missing entry, and any object outside
    the layout have no influence on it. *)
Theorem display_faithful (s s' : FullSchedule) :
  allDays s → allDays s' →
  (renderSchedule (Some s) = renderSchedule (Some s') ↔
   ∀ cls day n, cls ∈ CLASSES cat → day ∈ DAYS cat → n ∈ teachingPeriods →
                assignedAt s cls day n = assignedAt s' cls day n).
Proof.
  intros Hs Hs'. rewrite !renderSchedule_ok by done. rewrite <- tablesShown_eq.
  split; [by intros [= ->]|by intros ->].
Qed.

(** X14. Whatever [buildSchedule] returns can be displayed: the display of
    a returned schedule raises nothing. When the catalog has more subjects
    than classes, each subject with a first teacher of its own, no cell of
    the display is a free period. *)
Theorem returned_schedule_displayed (r : Rng E) :
  post (runBuildSchedule r)
    (λ s _, renderSchedule (Some s) = inr (Tables (tablesShown s)) ∧
            (abundant = true →
             ∀ t row, t ∈ tablesShown s → row ∈ rows t → FreePeriodCell ∉ cells row))
    (λ _, teachersListed = false).
Proof.
  eapply post_mono; [apply buildSchedule_post| |].
  - intros s σ [-> (_ & Hgrid & _ & Hfilled)]. split.
    + apply renderSchedule_ok. intros cls day Hcls Hday. by apply gridComplete_hasDay.
    + intros Hab t row (cls & -> & Hcls)%list_elem_of_fmap.
      intros (p & -> & Hp)%list_elem_of_fmap (day & Hcell & Hday)%list_elem_of_fmap.
      destruct p as [n| |]; [|done..].
      rewrite cellShown_assignedAt in Hcell. unfold assignedAt in Hcell.
      destruct (Hfilled Hab cls day n) as [sl Hsl].
      { split_and!; [done..|]. by apply numbered_periods. }
      by rewrite Hsl in Hcell.
  - by intros σ (_ & _ & Hlisted).
Qed.

Lemma renderTable_inr s cls t : renderTable s cls = inr t → t = tableShown s cls.
Proof.
  intros Hrun.
  destruct (decide (Forall (λ day, is_Some (dayOf s cls day)) (DAYS cat))) as [Hall|Hnot].
  - rewrite Forall_forall in Hall. rewrite renderTable_ok in Hrun by done.
    by injection Hrun as <-.
  - apply not_Forall_Exists in Hnot; [|apply _].
    apply Exists_exists in Hnot as (day & Hday & Hnone). simpl in Hnone.
    rewrite (renderTable_missing s cls day) in Hrun; [done..|].
    by apply eq_None_not_Some.
Qed.

(** X15. The layout keeps lessons apart: in every table the display
    builds, whatever the schedule holds, of any three consecutive rows one
    is a break row, and every cell of a break row is a break cell. So no
    class is shown with lessons in three consecutive rows (the banner's
    "no 3 consecutive" of line 172). *)
Theorem no_three_lessons_in_a_row (s : FullSchedule) cls t i r1 r2 r3 :
  renderTable s cls = inr t →
  rows t !! i = Some r1 →
  rows t !! S i = Some r2 →
  rows t !! S (S i) = Some r3 →
  ∃ row p, row ∈ [r1; r2; r3] ∧ isBreak p = true ∧ label row = BreakLabel p ∧
           Forall (λ c, c = BreakCell p) (cells row).
Proof.
  intros ->%renderTable_inr.
  unfold tableShown. cbn [rows]. rewrite !list_lookup_fmap.
  assert (∀ p, isBreak p = true →
            label (rowShown s cls p) = BreakLabel p ∧
            Forall (λ c, c = BreakCell p) (cells (rowShown s cls p))) as Hbreak.
  { intros p Hp. unfold rowShown. cbn [label cells]. rewrite Hp. split; [done|].
    apply Forall_fmap, Forall_forall. intros day _. simpl. unfold cellShown.
    by rewrite Hp. }
  unfold PERIODS.
  destruct i as [|[|[|[|[|[|i]]]]]]; cbn [lookup list_lookup fmap option_fmap option_map];
    intros H1 H2 H3; [| | | | | |by destruct i];
    apply (inj Some) in H1; apply (inj Some) in H2; apply (inj Some) in H3;
    subst r1 r2 r3.
  - exists (rowShown s cls Recess), Recess. split; [in_list|]. split; [done|]. by apply Hbreak.
  - exists (rowShown s cls Recess), Recess. split; [in_list|]. split; [done|]. by apply Hbreak.
  - exists (rowShown s cls Recess), Recess. split; [in_list|]. split; [done|]. by apply Hbreak.
  - exists (rowShown s cls Lunch), Lunch. split; [in_list|]. split; [done|]. by apply Hbreak.
  - exists (rowShown s cls Lunch), Lunch. split; [in_list|]. split; [done|]. by apply Hbreak.
  - exists (rowShown s cls Lunch), Lunch. split; [in_list|]. split; [done|]. by apply Hbreak.
Qed.

End Display.

Section Page.

Context {E : Engine} {cat : Catalog}.

(** ** The component: generating, failing, displaying *)








End Page.

(** ** Concrete runs of the further properties *)

(** Class A of [twoTeachers] on the store where B and C hold both teachers
    at period 2: period 1 succeeds at offset 0 with Math, period 2 ends up
    Free, and period 3 is attempted at offset 1 and takes the rotation
    entry at index (1 + 0) mod 2, Science. Then the first class of the
    built-in catalog on the grid as initialisation leaves it: period 1
    succeeds at offset 0 and period 2, next to it, takes the entry at
    index (1 + 0) mod 6. *)
Lemma rotation_monotonicity_witness :
  (let rot := ["Math"; "Science"]%string in
   let run1 := assignPeriod (cat:=twoTeachers) "A"%string "Monday"%string rot 0 1
                 blockedStore in
   let σ2 := storeAfter run1 blockedStore in
   let run2 := assignPeriods (cat:=twoTeachers) "A"%string "Monday"%string rot 1 [2] σ2 in
   let σ3 := storeAfter run2 σ2 in
   let run3 := assignPeriod (cat:=twoTeachers) "A"%string "Monday"%string rot 1 3 σ3 in
   let σ4 := storeAfter run3 σ3 in
   run1 = Ok 1 σ2 ∧ run2 = Ok 1 σ3 ∧ run3 = Ok 2 σ4 ∧
   cell (newSchedule σ2) "A"%string "Monday"%string (Num 1) =
     Some (Assigned (mkSlot "Math"%string "T1"%string)) ∧
   cell (newSchedule σ3) "A"%string "Monday"%string (Num 2) = Some FreeMark ∧
   ∃ k sl,
     k < 2 ∧ rot !! ((1 + k) mod 2) = Some (subject sl) ∧
     (∀ m, m < k → ∃ subj, rot !! ((1 + m) mod 2) = Some subj ∧
                    firstFreeTeacher (cat:=twoTeachers) "Monday"%string 3
                      (newSchedule σ3) subj = None) ∧
     cell (newSchedule σ4) "A"%string "Monday"%string (Num 3) = Some (Assigned sl) ∧
     sl = mkSlot "Science"%string "T2"%string) ∧
  (let σ0 := gridOf builtin in
   let rot := (sortRandom InsertionEngine.engine (SUBJECTS builtin) (rng σ0)).1 in
   let σ1 := shuffled (cat:=builtin) "Grade 10-A"%string "Monday"%string σ0 in
   let run1 := assignPeriod (cat:=builtin) "Grade 10-A"%string "Monday"%string rot 0 1 σ1 in
   let σ2 := storeAfter run1 σ1 in
   let run2 := assignPeriod (cat:=builtin) "Grade 10-A"%string "Monday"%string rot 1 2 σ2 in
   let σ3 := storeAfter run2 σ2 in
   assignDay (cat:=builtin) "Grade 10-A"%string "Monday"%string σ0 =
     bind (assignPeriods (cat:=builtin) "Grade 10-A"%string "Monday"%string rot 0
             teachingPeriods)
          (λ _, ret tt) σ1 ∧
   run1 = Ok 1 σ2 ∧ run2 = Ok 2 σ3 ∧
   ∃ k sl,
     k < 6 ∧ rot !! ((1 + k) mod 6) = Some (subject sl) ∧
     (∀ m, m < k → ∃ subj, rot !! ((1 + m) mod 6) = Some subj ∧
                    firstFreeTeacher (cat:=builtin) "Monday"%string 2
                      (newSchedule σ2) subj = None) ∧
     cell (newSchedule σ3) "Grade 10-A"%string "Monday"%string (Num 2) =
       Some (Assigned sl) ∧
     sl = mkSlot "Science"%string "Dr. Jones"%string).
Proof.
  split.
  - intros rot run1 σ2 run2 σ3 run3 σ4.
    assert (run1 = Ok 1 σ2) as H1 by (apply outcome_eta; vm_compute; reflexivity).
    assert (run2 = Ok 1 σ3) as H2 by (apply outcome_eta; vm_compute; reflexivity).
    assert (run3 = Ok 2 σ4) as H3 by (apply outcome_eta; vm_compute; reflexivity).
    assert (cell (newSchedule σ3) "A"%string "Monday"%string (Num 2) = Some FreeMark)
      as Hfree by (vm_compute; reflexivity).
    destruct (rotation_monotonicity (cat:=twoTeachers) "A"%string "Monday"%string rot
                [] 1 [2] 3 [4; 5; 6] blockedStore blockedStore σ2 σ3 0 1 1)
      as (_ & _ & (k0 & sl0 & _ & _ & _ & _ & Hcell1) & _ & _ & Hq).
    + reflexivity.
    + reflexivity.
    + exact H1.
    + vm_compute. reflexivity.
    + exact H2.
    + intros p' Hp'. apply list_elem_of_singleton in Hp'. rewrite Hp'. exact Hfree.
    + split; [exact H1|]. split; [exact H2|]. split; [exact H3|].
      split; [vm_compute; reflexivity|]. split; [exact Hfree|].
      destruct (Hq 2 σ4 H3)
        as [(k & sl & _ & Hk & Hsubj & _ & Hearlier & Hcell)|(Hbad & _)];
        [|discriminate Hbad].
      exists k, sl. split; [exact Hk|]. split; [exact Hsubj|].
      split; [exact Hearlier|]. split; [exact Hcell|].
      assert (cell (newSchedule σ4) "A"%string "Monday"%string (Num 3) =
                Some (Assigned (mkSlot "Science"%string "T2"%string))) as Hcell'
        by (vm_compute; reflexivity).
      rewrite Hcell in Hcell'. injection Hcell' as Heq. exact Heq.
  - intros σ0 rot σ1 run1 σ2 run2 σ3.
    assert (run1 = Ok 1 σ2) as H1 by (apply outcome_eta; vm_compute; reflexivity).
    assert (run2 = Ok 2 σ3) as H2 by (apply outcome_eta; vm_compute; reflexivity).
    destruct (rotation_monotonicity (cat:=builtin) "Grade 10-A"%string "Monday"%string
                rot [] 1 [] 2 [3; 4; 5; 6] σ1 σ1 σ2 σ2 0 1 1)
      as (_ & _ & _ & _ & _ & Hq).
    + reflexivity.
    + reflexivity.
    + exact H1.
    + vm_compute. reflexivity.
    + reflexivity.
    + intros p' Hp'. inversion Hp'.
    + split; [reflexivity|]. split; [exact H1|]. split; [exact H2|].
      destruct (Hq 2 σ3 H2)
        as [(k & sl & _ & Hk & Hsubj & _ & Hearlier & Hcell)|(Hbad & _)];
        [|discriminate Hbad].
      exists k, sl. split; [exact Hk|]. split; [exact Hsubj|].
      split; [exact Hearlier|]. split; [exact Hcell|].
      assert (cell (newSchedule σ3) "Grade 10-A"%string "Monday"%string (Num 2) =
                Some (Assigned (mkSlot "Science"%string "Dr. Jones"%string))) as Hcell'
        by (vm_compute; reflexivity).
      rewrite Hcell in Hcell'. injection Hcell' as Heq. exact Heq.
Defined.

(** The scan on the booked store of [oneTeacher], on a day no class has an
    object for: the first class read is the one that raises. *)
Lemma canAssignTeacher_scan_witness :
  canAssignTeacher (cat:=oneTeacher) "T1"%string "Tuesday"%string 2 bookedStore =
    Throw undefinedRead bookedStore.
Proof.
  destruct (canAssignTeacher_scan (cat:=oneTeacher) "T1"%string "Tuesday"%string 2
              bookedStore) as [[_ Hraise] _].
  - vm_compute. reflexivity.
  - vm_compute. reflexivity.
  - apply Hraise. exists [], "A"%string, ["B"%string].
    split; [reflexivity|]. split; [vm_compute; reflexivity|].
    intros c' Hc'. inversion Hc'.
Defined.

(** The display of [oneTeacher] on the empty graph raises at its first
    class. *)
Lemma renderSchedule_outcome_witness :
  renderSchedule (cat:=oneTeacher) (Some ∅) = inl undefinedRead.
Proof.
  destruct (renderSchedule_outcome (cat:=oneTeacher) ∅) as (_ & [_ Hraise] & _).
  - vm_compute. reflexivity.
  - vm_compute. reflexivity.
  - apply Hraise. exists "A"%string, "Monday"%string.
    split; [in_list|]. split; [in_list|]. reflexivity.
Defined.

Section Checks.

Context {cat : Catalog}.

Lemma allDays_check s :
  forallb (λ cls, forallb (λ day, bool_decide (is_Some (dayOf s cls day))) (DAYS cat))
    (CLASSES cat) = true →
  allDays s.
Proof.
  rewrite forallb_forall. intros Hall cls day Hcls Hday.
  apply list_elem_of_In, Hall in Hcls. rewrite forallb_forall in Hcls.
  apply list_elem_of_In, Hcls in Hday. by apply bool_decide_eq_true in Hday.
Qed.


End Checks.

(** Two classes and one teacher: the first class is served at every
    period, the second one never. *)
Lemma teachers_ration_classes_witness :
  ∃ s σ, runBuildSchedule (E:=InsertionEngine.engine) (cat:=oneTeacher) [] = Ok s σ ∧
    (∃ sl, cell s "A"%string "Monday"%string (Num 1) = Some (Assigned sl)) ∧
    cell s "B"%string "Monday"%string (Num 1) = Some FreeMark.
Proof.
  destruct (teachers_ration_classes (E:=InsertionEngine.engine) (cat:=oneTeacher) [])
    as (s & σ & Hrun & Hall & _).
  - apply (bool_decide_unpack _). vm_compute. exact I.
  - apply (bool_decide_unpack _). vm_compute. exact I.
  - vm_compute. reflexivity.
  - assert (length (staff (cat:=oneTeacher)) = 1) as Hstaff by (vm_compute; reflexivity).
    exists s, σ. split; [exact Hrun|]. split.
    + pose proof (Hall 0 "A"%string "Monday"%string 1) as HA.
      rewrite Hstaff in HA. apply HA; [reflexivity|in_list|unfold teachingPeriods; in_list].
    + pose proof (Hall 1 "B"%string "Monday"%string 1) as HB.
      rewrite Hstaff in HB. apply HB; [reflexivity|in_list|unfold teachingPeriods; in_list].
Defined.

(** The built-in catalog with Music added to [SUBJECTS] only: on the fresh
    grid, with Music as the first candidate, the assigner raises. *)
Lemma assignPeriod_raises_witness :
  assignPeriod (cat:=withMusic) "Grade 10-A"%string "Monday"%string
    (SUBJECTS withMusic) 0 1 (gridOf withMusic)
  = Throw notIterable (gridOf withMusic).
Proof.
  destruct (assignPeriod_raises (cat:=withMusic) "Grade 10-A"%string "Monday"%string
              (SUBJECTS withMusic) 0 1 (gridOf withMusic)) as [[_ Hraise] _].
  - apply ready_check. vm_compute. reflexivity.
  - apply (bool_decide_unpack _). vm_compute. exact I.
  - apply Hraise. exists 0, "Music"%string. split; [simpl; lia|].
    split; [reflexivity|]. split; [vm_compute; reflexivity|]. intros j Hj. lia.
Defined.

(** The booked store is not displayed like the fresh grid: class B's
    lesson at period 2 shows. *)
Lemma display_faithful_witness :
  renderSchedule (cat:=oneTeacher) (Some (newSchedule bookedStore)) ≠
  renderSchedule (cat:=oneTeacher) (Some (newSchedule (gridOf oneTeacher))).
Proof.
  intros Heq.
  destruct (display_faithful (cat:=oneTeacher) (newSchedule bookedStore)
              (newSchedule (gridOf oneTeacher))) as [Hsame _].
  - apply allDays_check. vm_compute. reflexivity.
  - apply allDays_check. vm_compute. reflexivity.
  - assert (assignedAt (newSchedule bookedStore) "B"%string "Monday"%string 2 ≠
            assignedAt (newSchedule (gridOf oneTeacher)) "B"%string "Monday"%string 2)
      as Hne by (vm_compute; discriminate).
    apply Hne, (Hsame Heq); [in_list|in_list|unfold teachingPeriods; in_list].
Defined.

(** Rows 1, 2 and Recess of class A's table for the booked store. *)
Lemma no_three_lessons_in_a_row_witness :
  ∃ row p, row ∈ [rowShown (cat:=oneTeacher) (newSchedule bookedStore) "A"%string (Num 1);
                  rowShown (cat:=oneTeacher) (newSchedule bookedStore) "A"%string (Num 2);
                  rowShown (cat:=oneTeacher) (newSchedule bookedStore) "A"%string Recess] ∧
           isBreak p = true ∧ label row = BreakLabel p ∧
           Forall (λ c, c = BreakCell p) (cells row).
Proof.
  apply (no_three_lessons_in_a_row (cat:=oneTeacher) (newSchedule bookedStore)
           "A"%string (tableShown (cat:=oneTeacher) (newSchedule bookedStore) "A"%string) 0).
  - apply renderTable_ok. intros day Hday.
    apply (allDays_check (cat:=oneTeacher)); [vm_compute; reflexivity|in_list|exact Hday].
  - reflexivity.
  - reflexivity.
  - reflexivity.
Defined.

(** The loop of class A at period 2 of the booked store, with fuel 5 and
    with fuel 1. *)
Lemma whileAttempts_terminates_witness :
  whileAttempts (cat:=oneTeacher) 5 "A"%string "Monday"%string 2 ["Math"%string] 0
    false 0 bookedStore =
  whileAttempts (cat:=oneTeacher) 1 "A"%string "Monday"%string 2 ["Math"%string] 0
    false 0 bookedStore.
Proof.
  apply (whileAttempts_terminates (cat:=oneTeacher) 5 "A"%string "Monday"%string 2
           ["Math"%string] 0 false 0 bookedStore).
  simpl. lia.
Defined.


(** One class, one day, Math and an unknown Music: the build raises. *)
Lemma small_catalog_fails_iff_unlisted_witness :
  ∃ e σ, runBuildSchedule (E:=InsertionEngine.engine) (cat:=mathAndMusic) [] = Throw e σ.
Proof.
  destruct (small_catalog_fails_iff_unlisted
              (E:=InsertionEngine.engine) (cat:=mathAndMusic) []) as [_ Hraise].
  - discriminate.
  - discriminate.
  - simpl. lia.
  - apply Hraise. vm_compute. reflexivity.
Defined.


(** Class A on the booked store, periods 1 to 3: period 2 is left Free,
    the pointer ends at 2, and two of the three slots hold an assignment. *)
Lemma pointer_counts_assignments_witness :
  let run := assignPeriods (cat:=oneTeacher) "A"%string "Monday"%string
               ["Math"%string] 0 [1; 2; 3] bookedStore in
  2 = 0 + length (assignedPeriods (newSchedule (storeAfter run bookedStore))
                    "A"%string "Monday"%string [1; 2; 3]).
Proof.
  intros run.
  apply (pointer_counts_assignments (cat:=oneTeacher) "A"%string "Monday"%string
           ["Math"%string] [1; 2; 3] 0 bookedStore 2 (storeAfter run bookedStore)).
  - apply NoDup_ListNoDup. repeat constructor; simpl; intuition lia.
  - apply outcome_eta. vm_compute. reflexivity.
Defined.

(** X18. Beyond six subjects the catalog does not settle whether the build
    fails. The built-in catalog with a seventh subject that has no teacher
    list raises when every sort leaves the subjects in catalog order, the
    new subject first; it returns a complete schedule, in which the new
    subject is never assigned, when every sort puts the new subject last
    and the three classes start from different subjects: then no pointer
    and no retry reaches the seventh entry of a rotation. *)
Theorem failure_depends_on_random_source :
  teachersListed (cat:=withMusic) = false ∧
  length (SUBJECTS withMusic) = 7 ∧
  (∃ e σ, runBuildSchedule (E:=InsertionEngine.engine) (cat:=withMusic) [] = Throw e σ) ∧
  (∃ s σ, runBuildSchedule (E:=InsertionEngine.engine) (cat:=withMusic) luckyTape = Ok s σ ∧
          gridComplete (cat:=withMusic) s ∧
          ∀ c d p sl, cell s c d p = Some (Assigned sl) → subject sl ≠ "Music"%string).
Proof.
  split; [vm_compute; reflexivity|]. split; [reflexivity|]. split.
  - pose proof (buildSchedule_post (E:=InsertionEngine.engine) (cat:=withMusic) []) as Hpost.
    assert (isOk (runBuildSchedule (E:=InsertionEngine.engine) (cat:=withMusic) [])
            = false) as Hok by (vm_compute; reflexivity).
    destruct (runBuildSchedule (E:=InsertionEngine.engine) (cat:=withMusic) [])
      as [s σ|e σ|]; [discriminate Hok|by exists e, σ|destruct Hpost].
  - pose proof (buildSchedule_post (E:=InsertionEngine.engine) (cat:=withMusic) luckyTape)
      as Hpost.
    assert (isOk (runBuildSchedule (E:=InsertionEngine.engine) (cat:=withMusic) luckyTape)
            = true) as Hok by (vm_compute; reflexivity).
    destruct (runBuildSchedule (E:=InsertionEngine.engine) (cat:=withMusic) luckyTape)
      as [s σ|e σ|]; [|discriminate Hok..].
    destruct Hpost as [-> ((_ & _ & _ & Hvalid & _) & Hgrid & _)].
    exists (newSchedule σ), σ. split; [reflexivity|]. split; [exact Hgrid|].
    intros c d p sl Hcell Hmusic.
    destruct (Hvalid c d p sl Hcell) as (_ & ts & Hts & _).
    rewrite Hmusic in Hts. vm_compute in Hts. discriminate Hts.
Qed.
